(** * The werewolf game engine: game state and orchestrator

    A shallow embedding of [backend/game/game_manager.js] (the classes
    [GameState] and [GameManager]) and the properties of its voting,
    win-check, role-assignment, speaker-queue and narration code.

    Conventions of the embedding.
    - A JavaScript [Map] is an insertion-ordered association list with
      distinct keys ([JsMap]); a [Set] is an insertion-ordered list without
      repetition ([JsSet]).  Iteration follows insertion order, as in JS.
    - Player ids are strings.  The truthiness tests of the source
      ([if (eliminated)], [if (victim)]) are kept: the empty string is
      falsy.
    - A method runs in a state-and-exception monad: it returns a
      completion (normal or thrown) together with the state as mutated up
      to that point, since a JS [throw] does not roll mutations back.
    - [emit] appends to the trace field [emitted] of the game state.  The
      listeners that the orchestrator registers are [async] handlers; what
      they do in reaction to an event is a call of its own, modelled by the
      handler functions below, and is not folded into the method that
      emits.
    - An [async] handler is run to completion as one sequential call; a
      rejected promise is a thrown completion.
    - The call stack is finite: the recursive cycle
      processNextSpeaker -> processAllPlayersSpoken -> startNight ->
      processWerewolves -> processNextSpeaker is given a depth budget, and
      exhausting it is the engine's [RangeError]. *)

From Stdlib Require Import String Ascii List Bool Arith ZArith Lia Permutation.
Import ListNotations.
Open Scope string_scope.
Open Scope list_scope.

(* ================================================================== *)
(** ** JavaScript containers *)
(* ================================================================== *)

Module JsMap.
Section Ops.
Context {V : Type}.

Definition t := list (string * V).

Definition empty : t := [].

Fixpoint get (m : t) (k : string) : option V :=
  match m with
  | [] => None
  | (k', v) :: r => if String.eqb k' k then Some v else get r k
  end.

(** [Map.prototype.set]: an existing key keeps its position. *)
Fixpoint set (m : t) (k : string) (v : V) : t :=
  match m with
  | [] => [(k, v)]
  | (k', v') :: r =>
      if String.eqb k' k then (k', v) :: r else (k', v') :: set r k v
  end.

Fixpoint delete (m : t) (k : string) : t :=
  match m with
  | [] => []
  | (k', v') :: r =>
      if String.eqb k' k then r else (k', v') :: delete r k
  end.

Definition has (m : t) (k : string) : bool :=
  match get m k with Some _ => true | None => false end.

Definition keys (m : t) : list string := map fst m.
Definition values (m : t) : list V := map snd m.
Definition entries (m : t) : list (string * V) := m.
Definition size (m : t) : nat := length m.

(** The representation invariant of a [Map]: keys are distinct. *)
Definition wf (m : t) : Prop := NoDup (keys m).
End Ops.
Arguments t : clear implicits.
End JsMap.

Module JsSet.
Definition t := list string.

Definition has (s : t) (k : string) : bool :=
  existsb (String.eqb k) s.

Definition add (s : t) (k : string) : t :=
  if has s k then s else s ++ [k].

Definition delete (s : t) (k : string) : t :=
  filter (fun x => negb (String.eqb x k)) s.

Definition size (s : t) : nat := length s.
End JsSet.

(** [Array.prototype.includes] on an array of ids. *)
Definition includes (l : list string) (x : string) : bool :=
  existsb (String.eqb x) l.

(** Truthiness of a string-or-null value. *)
Definition truthy (v : option string) : bool :=
  match v with
  | Some s => negb (String.eqb s "")
  | None => false
  end.

(* ================================================================== *)
(** ** Completions *)
(* ================================================================== *)

Inductive Error : Type :=
| TypeError (msg : string)
| PlainError (msg : string)
| RangeError (msg : string).

Inductive Completion (A : Type) : Type :=
| Normal (a : A)
| Throw (e : Error).
Arguments Normal {A} a.
Arguments Throw {A} e.

Definition is_normal {A} (c : Completion A) : bool :=
  match c with Normal _ => true | Throw _ => false end.


(** State-and-exception monad over a state [S]. *)
Definition St (S A : Type) : Type := S -> Completion A * S.

Definition ret {S A} (a : A) : St S A := fun s => (Normal a, s).

Definition bind {S A B} (m : St S A) (f : A -> St S B) : St S B :=
  fun s =>
    match m s with
    | (Normal a, s') => f a s'
    | (Throw e, s') => (Throw e, s')
    end.

Definition throw {S A} (e : Error) : St S A := fun s => (Throw e, s).
Definition gets {S A} (f : S -> A) : St S A := fun s => (Normal (f s), s).
Definition modify {S} (f : S -> S) : St S unit := fun s => (Normal tt, f s).

Declare Scope js_scope.
Delimit Scope js_scope with js.
Notation "x <- c1 ;; c2" := (bind c1 (fun x => c2))
  (at level 61, c1 at next level, right associativity) : js_scope.
Notation "c1 ;; c2" := (bind c1 (fun _ => c2))
  (at level 61, right associativity) : js_scope.
Open Scope js_scope.

(* ================================================================== *)
(** ** Data model of [GameState] *)
(* ================================================================== *)

Inductive Role : Type := werewolf | villager | seer | witch | hunter.

Definition Role_eqb (a b : Role) : bool :=
  match a, b with
  | werewolf, werewolf | villager, villager | seer, seer
  | witch, witch | hunter, hunter => true
  | _, _ => false
  end.

Definition role_string (r : Role) : string :=
  match r with
  | werewolf => "werewolf" | villager => "villager" | seer => "seer"
  | witch => "witch" | hunter => "hunter"
  end.

(** [role === 'werewolf'] on a value that may be [undefined]. *)
Definition is_role (r : Role) (v : option Role) : bool :=
  match v with Some r' => Role_eqb r' r | None => false end.

Inductive Phase : Type := waiting | policeElection | night | day.

Inductive Winner : Type := villagers | werewolves.

Record Player : Type := mkPlayer {
  id : string;
  isAI : bool;
  name : string;
  isAlive : bool;
  hasSpoken : bool
}.

Inductive Event : Type :=
| gameStarted_ev
| policeElectionStarted
| nightStarted (d : nat)
| dayStarted (d : nat)
| werewolvesPhaseStarted (ws : list string)
| seerPhaseStarted (p : string)
| witchPhaseStarted (p : string)
| nextSpeaker (p : string)
| vote_ev (voter target : string)
| playerDied (p : string)
| playerEliminated (p : string)
| gameEnded (w : Winner).

Record GameState : Type := mkGameState {
  players : JsMap.t Player;
  roles : JsMap.t (option Role);
  isNight : bool;
  currentDay : nat;
  phase : Phase;
  deadPlayers : JsSet.t;
  votes : JsMap.t string;
  police : option string;
  currentSpeaker : option string;
  speakQueue : list string;
  gameStarted : bool;
  emitted : list Event
}.

(** The constructor of [GameState]. *)
Definition newGameState : GameState :=
  mkGameState [] [] true 0 waiting [] [] None None [] false [].

Definition set_players v (s : GameState) :=
  mkGameState v (roles s) (isNight s) (currentDay s) (phase s)
    (deadPlayers s) (votes s) (police s) (currentSpeaker s) (speakQueue s)
    (gameStarted s) (emitted s).
Definition set_roles v (s : GameState) :=
  mkGameState (players s) v (isNight s) (currentDay s) (phase s)
    (deadPlayers s) (votes s) (police s) (currentSpeaker s) (speakQueue s)
    (gameStarted s) (emitted s).
Definition set_isNight v (s : GameState) :=
  mkGameState (players s) (roles s) v (currentDay s) (phase s)
    (deadPlayers s) (votes s) (police s) (currentSpeaker s) (speakQueue s)
    (gameStarted s) (emitted s).
Definition set_currentDay v (s : GameState) :=
  mkGameState (players s) (roles s) (isNight s) v (phase s)
    (deadPlayers s) (votes s) (police s) (currentSpeaker s) (speakQueue s)
    (gameStarted s) (emitted s).
Definition set_phase v (s : GameState) :=
  mkGameState (players s) (roles s) (isNight s) (currentDay s) v
    (deadPlayers s) (votes s) (police s) (currentSpeaker s) (speakQueue s)
    (gameStarted s) (emitted s).
Definition set_deadPlayers v (s : GameState) :=
  mkGameState (players s) (roles s) (isNight s) (currentDay s) (phase s)
    v (votes s) (police s) (currentSpeaker s) (speakQueue s)
    (gameStarted s) (emitted s).
Definition set_votes v (s : GameState) :=
  mkGameState (players s) (roles s) (isNight s) (currentDay s) (phase s)
    (deadPlayers s) v (police s) (currentSpeaker s) (speakQueue s)
    (gameStarted s) (emitted s).
Definition set_currentSpeaker v (s : GameState) :=
  mkGameState (players s) (roles s) (isNight s) (currentDay s) (phase s)
    (deadPlayers s) (votes s) (police s) v (speakQueue s)
    (gameStarted s) (emitted s).
Definition set_speakQueue v (s : GameState) :=
  mkGameState (players s) (roles s) (isNight s) (currentDay s) (phase s)
    (deadPlayers s) (votes s) (police s) (currentSpeaker s) v
    (gameStarted s) (emitted s).
Definition set_gameStarted v (s : GameState) :=
  mkGameState (players s) (roles s) (isNight s) (currentDay s) (phase s)
    (deadPlayers s) (votes s) (police s) (currentSpeaker s) (speakQueue s)
    v (emitted s).
Definition set_emitted v (s : GameState) :=
  mkGameState (players s) (roles s) (isNight s) (currentDay s) (phase s)
    (deadPlayers s) (votes s) (police s) (currentSpeaker s) (speakQueue s)
    (gameStarted s) v.

Definition GS := St GameState.

(** [this.emit(...)]: the event joins the trace. *)
Definition emit (e : Event) : GS unit :=
  modify (fun s => set_emitted (emitted s ++ [e]) s).

(* ================================================================== *)
(** ** Roster operations *)
(* ================================================================== *)

Definition addPlayer (playerId : string) (ai : bool) (nm : option string)
  : GS unit :=
  modify (fun s =>
    set_players
      (JsMap.set (players s) playerId
         (mkPlayer playerId ai
            (match nm with
             | Some n => if String.eqb n "" then "Player " ++ playerId else n
             | None => "Player " ++ playerId
             end)
            true false)) s).

Definition removePlayer (playerId : string) : GS unit :=
  modify (fun s =>
    set_roles (JsMap.delete (roles s) playerId)
      (set_players (JsMap.delete (players s) playerId) s)).

Definition getPlayerRole (s : GameState) (playerId : string) : option Role :=
  match JsMap.get (roles s) playerId with
  | Some r => r
  | None => None
  end.

Definition isPlayerAlive (s : GameState) (playerId : string) : bool :=
  match JsMap.get (players s) playerId with
  | Some p => isAlive p
  | None => false
  end.

(** [Array.from(this.players.entries()).filter(([_, p]) => p.isAlive)]. *)
Definition livingEntries (s : GameState) : list (string * Player) :=
  filter (fun e => isAlive (snd e)) (JsMap.entries (players s)).

Definition livingIds (s : GameState) : list string :=
  map fst (livingEntries s).

(* ================================================================== *)
(** ** Role assignment *)
(* ================================================================== *)

(** [Math.ceil(n / 3)] on a non-negative integer. *)
Definition ceil_third (n : Z) : Z :=
  (if (n mod 3 =? 0) then n / 3 else n / 3 + 1)%Z.

Definition numWerewolves (n : Z) : Z := ceil_third n.
Definition numSeers (n : Z) : Z := (if 6 <=? n then 1 else 0)%Z.
Definition numWitches (n : Z) : Z := (if 6 <=? n then 1 else 0)%Z.
Definition numHunters (n : Z) : Z := (if 9 <=? n then 1 else 0)%Z.
Definition numVillagers (n : Z) : Z :=
  (n - numWerewolves n - numSeers n - numWitches n - numHunters n)%Z.

(** [Array(n).fill(r)]: a negative length is a [RangeError]. *)
Definition array_fill (n : Z) (r : Role) : Completion (list Role) :=
  if (n <? 0)%Z then Throw (RangeError "Invalid array length")
  else Normal (repeat r (Z.to_nat n)).

(** The role pool, in the order of the array literal. *)
Definition rolePool (n : Z) : Completion (list Role) :=
  match array_fill (numWerewolves n) werewolf,
        array_fill (numVillagers n) villager,
        array_fill (numSeers n) seer,
        array_fill (numWitches n) witch,
        array_fill (numHunters n) hunter with
  | Normal a, Normal b, Normal c, Normal d, Normal e =>
      Normal (a ++ b ++ c ++ d ++ e)
  | Throw x, _, _, _, _ => Throw x
  | _, Throw x, _, _, _ => Throw x
  | _, _, Throw x, _, _ => Throw x
  | _, _, _, Throw x, _ => Throw x
  | _, _, _, _, Throw x => Throw x
  end.

(** [a[i] = x] on an array, for an index inside it. *)
Fixpoint array_put {A} (l : list A) (i : nat) (x : A) : list A :=
  match l, i with
  | [], _ => []
  | _ :: r, O => x :: r
  | y :: r, S i' => y :: array_put r i' x
  end.

(** [[a[i], a[j]] = [a[j], a[i]]]: the right-hand side is read first, then
    [a[i]] and [a[j]] are written in that order.  Both indices lie inside
    the array in the shuffle loop ([j <= i < length]). *)
Definition array_swap {A} (l : list A) (i j : nat) : list A :=
  match nth_error l j, nth_error l i with
  | Some aj, Some ai => array_put (array_put l i aj) j ai
  | _, _ => l
  end.

(** The Fisher-Yates loop [for (i = len - 1; i > 0; i--)].  The draw
    [Math.floor(Math.random() * (i + 1))] is an integer of [0..i]; the
    oracle [rnd] supplies the draw of iteration [i], reduced into that
    range. *)
Fixpoint shuffle_from {A} (rnd : nat -> nat) (i : nat) (l : list A) : list A :=
  match i with
  | O => l
  | S i' => shuffle_from rnd i' (array_swap l i (rnd i mod (i + 1)))
  end.

Definition shuffle {A} (rnd : nat -> nat) (l : list A) : list A :=
  shuffle_from rnd (length l - 1) l.

(** [playerIds.forEach((playerId, index) => roles.set(playerId, pool[index]))]. *)
Fixpoint assign_each (ids : list string) (index : nat) (pool : list Role)
  (m : JsMap.t (option Role)) : JsMap.t (option Role) :=
  match ids with
  | [] => m
  | pid :: r => assign_each r (S index) pool (JsMap.set m pid (nth_error pool index))
  end.

Definition assignRoles (rnd : nat -> nat) : GS unit :=
  fun s =>
    let playerIds := JsMap.keys (players s) in
    let numPlayers := Z.of_nat (length playerIds) in
    match rolePool numPlayers with
    | Throw e => (Throw e, s)
    | Normal pool =>
        (Normal tt, set_roles (assign_each playerIds 0 (shuffle rnd pool) (roles s)) s)
    end.

(* ================================================================== *)
(** ** Kill and win check *)
(* ================================================================== *)

Definition mark_dead (p : Player) : Player :=
  mkPlayer (id p) (isAI p) (name p) false (hasSpoken p).

Definition killPlayer (playerId : string) : GS unit :=
  fun s =>
    match JsMap.get (players s) playerId with
    | Some player =>
        emit (playerDied playerId)
          (set_deadPlayers (JsSet.add (deadPlayers s) playerId)
             (set_players (JsMap.set (players s) playerId (mark_dead player)) s))
    | None => (Normal tt, s)
    end.

Definition livingWerewolves (s : GameState) : nat :=
  length (filter (fun e => is_role werewolf (getPlayerRole s (fst e)))
            (livingEntries s)).

Definition livingVillagers (s : GameState) : nat :=
  length (filter (fun e => negb (is_role werewolf (getPlayerRole s (fst e))))
            (livingEntries s)).

Definition checkGameEnd : GS bool :=
  fun s =>
    if (livingWerewolves s =? 0)%nat then
      (emit (gameEnded villagers) ;; ret true) s
    else if (livingVillagers s =? 0)%nat then
      (emit (gameEnded werewolves) ;; ret true) s
    else (Normal false, s).

(* ================================================================== *)
(** ** Phases and the speaker queue *)
(* ================================================================== *)

(** [Array.prototype.filter] with a callback that may throw. *)
Fixpoint filterM {S A} (f : A -> St S bool) (l : list A) : St S (list A) :=
  match l with
  | [] => ret []
  | x :: r =>
      b <- f x ;;
      r' <- filterM f r ;;
      ret (if b then x :: r' else r')
  end.

(** [Array.prototype.find] with a callback that may throw. *)
Fixpoint findM {S A} (f : A -> St S bool) (l : list A) : St S (option A) :=
  match l with
  | [] => ret None
  | x :: r =>
      b <- f x ;;
      if b then ret (Some x) else findM f r
  end.

(** [role === r && this.players.get(id).isAlive]: reading [isAlive] of a
    missing player is a [TypeError]; [&&] short-circuits. *)
Definition role_and_alive (r : Role) (e : string * option Role) : GS bool :=
  fun s =>
    if is_role r (snd e) then
      match JsMap.get (players s) (fst e) with
      | Some p => (Normal (isAlive p), s)
      | None =>
          (Throw (TypeError "Cannot read properties of undefined (reading 'isAlive')"), s)
      end
    else (Normal false, s).

(** [startDay] ends by calling [this.announceDeaths()], a method the class
    does not define: the call is a [TypeError]. *)
Definition startDay : GS unit :=
  modify (set_isNight false) ;;
  modify (set_phase day) ;;
  modify (fun s => set_currentDay (S (currentDay s)) s) ;;
  d <- gets currentDay ;;
  emit (dayStarted d) ;;
  throw (TypeError "this.announceDeaths is not a function").

Definition processWitch : GS unit :=
  rs <- gets roles ;;
  w <- findM (role_and_alive witch) (JsMap.entries rs) ;;
  match w with
  | Some e =>
      modify (set_currentSpeaker (Some (fst e))) ;;
      emit (witchPhaseStarted (fst e))
  | None => startDay
  end.

Definition processSeer : GS unit :=
  rs <- gets roles ;;
  sr <- findM (role_and_alive seer) (JsMap.entries rs) ;;
  match sr with
  | Some e =>
      modify (set_currentSpeaker (Some (fst e))) ;;
      emit (seerPhaseStarted (fst e))
  | None => processWitch
  end.

Section Cycle.
(** The callee at the bottom of the cycle, one frame deeper. *)
Variable processNextSpeaker_rec : GS unit.

Definition processWerewolves_with : GS unit :=
  rs <- gets roles ;;
  wolves <- filterM (role_and_alive werewolf) (JsMap.entries rs) ;;
  let ids := map fst wolves in
  modify (set_speakQueue ids) ;;
  emit (werewolvesPhaseStarted ids) ;;
  processNextSpeaker_rec.

Definition startNight_with : GS unit :=
  modify (set_isNight true) ;;
  modify (set_phase night) ;;
  d <- gets currentDay ;;
  emit (nightStarted d) ;;
  processWerewolves_with.

Definition processAllPlayersSpoken_with : GS unit :=
  modify (set_phase night) ;;
  startNight_with.
End Cycle.

Definition stack_overflow : Error :=
  RangeError "Maximum call stack size exceeded".

(** [depth] bounds how many times the cycle may re-enter
    [processNextSpeaker]. *)
Fixpoint processNextSpeaker (depth : nat) : GS unit :=
  match depth with
  | O => throw stack_overflow
  | S d =>
      fun s =>
        match speakQueue s with
        | [] => processAllPlayersSpoken_with (processNextSpeaker d) s
        | x :: q =>
            (modify (set_speakQueue q) ;;
             modify (set_currentSpeaker (Some x)) ;;
             emit (nextSpeaker x)) s
        end
  end.

Definition startNight (depth : nat) : GS unit :=
  startNight_with (processNextSpeaker depth).
Definition processAllPlayersSpoken (depth : nat) : GS unit :=
  processAllPlayersSpoken_with (processNextSpeaker depth).

Definition startPoliceElection (depth : nat) : GS unit :=
  modify (set_phase policeElection) ;;
  modify (fun s => set_speakQueue (livingIds s) s) ;;
  emit policeElectionStarted ;;
  processNextSpeaker depth.

Definition startGame (rnd : nat -> nat) (depth : nat) : GS unit :=
  n <- gets (fun s => JsMap.size (players s)) ;;
  if (n <? 3)%nat then throw (PlainError "Not enough players to start the game")
  else
    modify (set_gameStarted true) ;;
    assignRoles rnd ;;
    modify (set_currentDay 1) ;;
    modify (set_isNight false) ;;
    modify (set_phase day) ;;
    emit gameStarted_ev ;;
    startPoliceElection depth.

(* ================================================================== *)
(** ** Voting *)
(* ================================================================== *)

(** [voteCount.set(t, (voteCount.get(t) || 0) + 1)] for one ballot entry. *)
Definition count_one (vc : JsMap.t nat) (targetId : string) : JsMap.t nat :=
  JsMap.set vc targetId
    (match JsMap.get vc targetId with Some n => n | None => 0 end + 1).

Definition countVotes (vs : JsMap.t string) : JsMap.t nat :=
  fold_left (fun vc e => count_one vc (snd e)) (JsMap.entries vs) JsMap.empty.

(** The loop [if (count > maxVotes) { maxVotes = count; eliminated = t }]. *)
Definition pick_step (acc : nat * option string) (e : string * nat)
  : nat * option string :=
  if (fst acc <? snd e)%nat then (snd e, Some (fst e)) else acc.

Definition mostVoted (vc : JsMap.t nat) : nat * option string :=
  fold_left pick_step (JsMap.entries vc) (0, None).

Definition processVotes (depth : nat) : GS unit :=
  vs <- gets votes ;;
  let eliminated := snd (mostVoted (countVotes vs)) in
  (match eliminated with
   | Some e =>
       if truthy eliminated then
         killPlayer e ;; emit (playerEliminated e)
       else ret tt
   | None => ret tt
   end) ;;
  modify (set_votes JsMap.empty) ;;
  ended <- checkGameEnd ;;
  if ended then ret tt
  else
    nightNow <- gets isNight ;;
    if nightNow then processSeer else startNight depth.

Definition vote (depth : nat) (voterId targetId : string) : GS unit :=
  voter <- gets (fun s => JsMap.get (players s) voterId) ;;
  match voter with
  | None =>
      throw (TypeError "Cannot read properties of undefined (reading 'isAlive')")
  | Some p =>
      if negb (isAlive p) then throw (PlainError "Dead players cannot vote")
      else
        modify (fun s => set_votes (JsMap.set (votes s) voterId targetId) s) ;;
        emit (vote_ev voterId targetId) ;;
        nvotes <- gets (fun s => length (JsMap.keys (votes s))) ;;
        nliving <- gets (fun s => length (livingIds s)) ;;
        if (nvotes =? nliving)%nat then processVotes depth else ret tt
  end.

(* ================================================================== *)
(** ** The orchestrator [GameManager]: data *)
(* ================================================================== *)

(** Modelled from the spec: the class [AICharacter] (ai_character.js) is
    not among the sources.  The orchestrator uses its [id], its
    [updateGameContext] (the spec's per-provider context buffer, to which
    every in-audience narration is appended), its [addKnownInformation]
    (the actor's private knowledge) and its decision methods; the decision
    methods are external and supplied by [Collaborators] below. *)
Record AICharacter : Type := mkAICharacter {
  ai_id : string;
  ai_name : string;
  ai_role : option Role;
  ai_personality : string;
  ai_context : list string;
  ai_known : list (string * option Role)
}.

Definition updateGameContext (line : string) (c : AICharacter) : AICharacter :=
  mkAICharacter (ai_id c) (ai_name c) (ai_role c) (ai_personality c)
    (ai_context c ++ [line]) (ai_known c).


Record WitchPotions : Type := mkPotions { antidote : bool; poison : bool }.

Record WitchDecision : Type := mkDecision { save : bool; kill : option string }.

Record GameContext : Type := mkContext {
  ctx_day : nat;
  ctx_isNight : bool;
  ctx_phase : Phase;
  ctx_livingPlayers : list Player
}.

(** The JSON objects written to the connection.  A field holding
    [undefined] is absent from the JSON text: it is [None] here. *)
Inductive WsMessage : Type :=
| speaker_info (speaker : string) (nm : option string) (role : option string)
| game_log (speaker : option string) (message : string) (timestamp : nat)
    (isPrivate : bool).

(** The external collaborators: speech synthesis ([true] when the request
    resolves, [false] when it rejects) and the decision methods of the AI
    characters, each of which may itself reject. *)
Record Collaborators : Type := mkCollaborators {
  synthesizeAndStreamAudio : string -> bool;
  makeWerewolfKillDecision :
    AICharacter -> list string -> GameContext -> Completion (option string);
  makeSeerCheckDecision :
    AICharacter -> list string -> GameContext -> Completion (option string);
  makeWitchDecision :
    AICharacter -> string -> bool -> bool -> list string -> GameContext ->
    Completion WitchDecision
}.

(** [clock] is the wall clock read by [new Date()], kept as a logical
    time that moves on at each reading. *)
Record GameManager : Type := mkGameManager {
  state : GameState;
  aiCharacters : JsMap.t AICharacter;
  witchPotions : JsMap.t WitchPotions;
  ws_sent : list WsMessage;
  tts_requests : list string;
  console_errors : list Error;
  clock : nat
}.

Definition set_state v (m : GameManager) :=
  mkGameManager v (aiCharacters m) (witchPotions m) (ws_sent m)
    (tts_requests m) (console_errors m) (clock m).
Definition set_aiCharacters v (m : GameManager) :=
  mkGameManager (state m) v (witchPotions m) (ws_sent m)
    (tts_requests m) (console_errors m) (clock m).
Definition set_witchPotions v (m : GameManager) :=
  mkGameManager (state m) (aiCharacters m) v (ws_sent m)
    (tts_requests m) (console_errors m) (clock m).
Definition set_ws_sent v (m : GameManager) :=
  mkGameManager (state m) (aiCharacters m) (witchPotions m) v
    (tts_requests m) (console_errors m) (clock m).
Definition set_tts_requests v (m : GameManager) :=
  mkGameManager (state m) (aiCharacters m) (witchPotions m) (ws_sent m)
    v (console_errors m) (clock m).
Definition set_console_errors v (m : GameManager) :=
  mkGameManager (state m) (aiCharacters m) (witchPotions m) (ws_sent m)
    (tts_requests m) v (clock m).
Definition set_clock v (m : GameManager) :=
  mkGameManager (state m) (aiCharacters m) (witchPotions m) (ws_sent m)
    (tts_requests m) (console_errors m) v.

Definition GM := St GameManager.

(** A [GameState] method called on [this.state]. *)
Definition onState {A} (op : GS A) : GM A :=
  fun m => let (c, s') := op (state m) in (c, set_state s' m).

(** [this.connectionHandler.ws.send(JSON.stringify(msg))]. *)
Definition ws_send (msg : WsMessage) : GM unit :=
  modify (fun m => set_ws_sent (ws_sent m ++ [msg]) m).

(** Receivers of a method call: an array or a [Map].  [filter] and [map]
    are array methods; [Map.prototype] has neither, so looking one up on a
    [Map] gives [undefined] and calling it is a [TypeError]. *)
Inductive Collection (A : Type) : Type :=
| ArrayOf (l : list A)
| MapOf (m : JsMap.t A).
Arguments ArrayOf {A} l.
Arguments MapOf {A} m.


Definition call_map {A B} (c : Collection A) (f : A -> B)
  : Completion (list B) :=
  match c with
  | ArrayOf l => Normal (map f l)
  | MapOf _ => Throw (TypeError "livingPlayers.map is not a function")
  end.

(** [getLivingPlayers]: a new [Map] of the living players. *)
Definition getLivingPlayers (m : GameManager) : Collection Player :=
  MapOf (livingEntries (state m)).

Definition getGameContext (m : GameManager) : GameContext :=
  mkContext (currentDay (state m)) (isNight (state m)) (phase (state m))
    (map snd (livingEntries (state m))).

(* ================================================================== *)
(** ** Narration: [speak] *)
(* ================================================================== *)

(** Strings are byte strings (UTF-8).  Under the [i] flag an ASCII
    pattern letter matches the two ASCII cases of that letter only. *)
Definition lower_ascii (c : ascii) : ascii :=
  let n := nat_of_ascii c in
  if andb (65 <=? n)%nat (n <=? 90)%nat then ascii_of_nat (n + 32) else c.

Fixpoint lower (s : string) : string :=
  match s with
  | EmptyString => EmptyString
  | String c r => String (lower_ascii c) (lower r)
  end.

Fixpoint starts_with (p s : string) : bool :=
  match p, s with
  | EmptyString, _ => true
  | String _ _, EmptyString => false
  | String a p', String b s' => andb (Ascii.eqb a b) (starts_with p' s')
  end.

(** Does [p] occur somewhere in [s]? *)
Fixpoint occurs (p s : string) : bool :=
  orb (starts_with p s)
    (match s with
     | EmptyString => false
     | String _ r => occurs p r
     end).

(** The line terminators, which [.] does not match: LF, CR, and the
    UTF-8 forms of U+2028 and U+2029. *)
Definition at_line_terminator (s : string) : bool :=
  match s with
  | String c r =>
      orb (orb (Ascii.eqb c "010"%char) (Ascii.eqb c "013"%char))
        (match r with
         | String c1 (String c2 _) =>
             andb (Ascii.eqb c "226"%char)
               (andb (Ascii.eqb c1 "128"%char)
                  (orb (Ascii.eqb c2 "168"%char) (Ascii.eqb c2 "169"%char)))
         | _ => false
         end)
  | EmptyString => false
  end.

(** [.+] followed by the literal [p], from the start of [s]. *)
Fixpoint dot_plus_then (p s : string) : bool :=
  match s with
  | EmptyString => false
  | String _ r =>
      if at_line_terminator s then false
      else orb (starts_with p r) (dot_plus_then p r)
  end.

(** [/You are .+\. Your role is/i] on an already lowered string. *)
Fixpoint role_announcement (s : string) : bool :=
  orb (andb (starts_with "you are " s)
         (dot_plus_then ". your role is"
            (String.substring 8 (String.length s - 8) s)))
    (match s with
     | EmptyString => false
     | String _ r => role_announcement r
     end).

(** [skipTTSPatterns.some(pattern => pattern.test(message))]. *)
Definition shouldSkipTTS (message : string) : bool :=
  let s := lower message in
  orb (occurs "game has started" s)
    (orb (role_announcement s)
       (orb (occurs "it's time to elect a police chief" s)
          (occurs "each player will have a chance to nominate themselves" s))).

(** [!targetPlayers || targetPlayers.includes(character.id)]. *)
Definition in_audience (targetPlayers : option (list string)) (c : AICharacter)
  : bool :=
  match targetPlayers with
  | None => true
  | Some l => includes l (ai_id c)
  end.

Definition tell (targetPlayers : option (list string)) (line : string)
  (c : AICharacter) : AICharacter :=
  if in_audience targetPlayers c then updateGameContext line c else c.

(** The body of the [try] block of [speak]. *)
Definition speak_body (E : Collaborators) (speaker message : string)
  (targetPlayers : option (list string)) : GM unit :=
  nm <- gets (fun m =>
          if String.eqb speaker "Moderator" then Some "Moderator"
          else option_map name (JsMap.get (players (state m)) speaker)) ;;
  rl <- gets (fun m =>
          if String.eqb speaker "Moderator" then Some "Moderator"
          else option_map role_string (getPlayerRole (state m) speaker)) ;;
  ws_send (speaker_info speaker nm rl) ;;
  now <- gets clock ;;
  modify (set_clock (S now)) ;;
  ws_send (game_log nm message now
             (match targetPlayers with Some _ => true | None => false end)) ;;
  (if shouldSkipTTS message then ret tt
   else
     modify (fun m => set_tts_requests (tts_requests m ++ [message]) m) ;;
     if synthesizeAndStreamAudio E message then ret tt
     else throw (PlainError "speech synthesis failed")) ;;
  modify (fun m =>
    set_aiCharacters
      (map (fun e => (fst e, tell targetPlayers (speaker ++ ": " ++ message) (snd e)))
         (aiCharacters m)) m).

(** [speak]: whatever the body throws is caught and logged. *)
Definition speak (E : Collaborators) (speaker message : string)
  (targetPlayers : option (list string)) : GM unit :=
  fun m =>
    match speak_body E speaker message targetPlayers m with
    | (Normal _, m') => (Normal tt, m')
    | (Throw e, m') =>
        (Normal tt, set_console_errors (console_errors m' ++ [e]) m')
    end.

(* ================================================================== *)
(** ** Event handlers of the orchestrator *)
(* ================================================================== *)

(** A completion of a pure computation, taken into the monad. *)
Definition liftC {S A} (c : Completion A) : St S A :=
  fun s => (c, s).





Definition use_antidote (p : WitchPotions) : WitchPotions :=
  mkPotions false (poison p).
Definition use_poison (p : WitchPotions) : WitchPotions :=
  mkPotions (antidote p) false.

(** [potions.x = false] on the object held in [witchPotions]. *)
Definition update_potions (witchId : string) (f : WitchPotions -> WitchPotions)
  : GM unit :=
  modify (fun m =>
    set_witchPotions
      (map (fun e => if String.eqb (fst e) witchId then (fst e, f (snd e)) else e)
         (witchPotions m)) m).

Definition handleWitchPhase (E : Collaborators) (witchId : string) : GM unit :=
  character <- gets (fun m => JsMap.get (aiCharacters m) witchId) ;;
  match character with
  | None => ret tt
  | Some ch =>
      potions0 <- gets (fun m => JsMap.get (witchPotions m) witchId) ;;
      match potions0 with
      | None => ret tt
      | Some potions =>
          speak E "Moderator" "Witch, open your eyes." (Some [witchId]) ;;
          dead <- gets (fun m => deadPlayers (state m)) ;;
          (match dead with
           | killedPlayer :: _ =>
               if antidote potions then
                 living <- gets getLivingPlayers ;;
                 names <- liftC (call_map living name) ;;
                 ctx <- gets getGameContext ;;
                 decision <- liftC (makeWitchDecision E ch killedPlayer true
                                      (poison potions) names ctx) ;;
                 (if save decision then
                    onState (modify (fun s =>
                      set_deadPlayers (JsSet.delete (deadPlayers s) killedPlayer) s)) ;;
                    update_potions witchId use_antidote ;;
                    speak E "Moderator" "The witch has used the antidote."
                      (Some [witchId])
                  else ret tt) ;;
                 (match kill decision with
                  | Some k =>
                      if andb (truthy (kill decision)) (poison potions) then
                        onState (killPlayer k) ;;
                        update_potions witchId use_poison ;;
                        speak E "Moderator" "The witch has used the poison."
                          (Some [witchId])
                      else ret tt
                  | None => ret tt
                  end)
               else ret tt
           | [] => ret tt
           end) ;;
          speak E "Moderator" "Witch, close your eyes." (Some [witchId])
      end
  end.

(* ================================================================== *)
(** ** Reference notions used by the statements *)
(* ================================================================== *)

(** The pool as a plain list, for non-negative counts. *)
Definition poolList (n : Z) : list Role :=
  repeat werewolf (Z.to_nat (numWerewolves n))
  ++ repeat villager (Z.to_nat (numVillagers n))
  ++ repeat seer (Z.to_nat (numSeers n))
  ++ repeat witch (Z.to_nat (numWitches n))
  ++ repeat hunter (Z.to_nat (numHunters n)).


(** A boolean test for lists of distinct ids. *)
Fixpoint distinct (l : list string) : bool :=
  match l with
  | [] => true
  | x :: r => andb (negb (includes r x)) (distinct r)
  end.

(** The events emitted by a step from [s] to [s']. *)
Definition new_events (s s' : GameState) : list Event :=
  skipn (length (emitted s)) (emitted s').

(** ** Sample states *)

(** The lobby built by [GameManager.startGame]: the human player and six
    AI players. *)
Definition lobby7 : GameState :=
  snd ((addPlayer "human" false (Some "Human Player") ;;
        addPlayer "ai_1" true None ;;
        addPlayer "ai_2" true None ;;
        addPlayer "ai_3" true None ;;
        addPlayer "ai_4" true None ;;
        addPlayer "ai_5" true None ;;
        addPlayer "ai_6" true None) newGameState).

(** A draw sequence for the shuffle. *)
Definition sample_rnd (i : nat) : nat := 5 * i + 3.

(** A game in which everybody has died. *)
Definition graveyard : GameState :=
  mkGameState
    [("a", mkPlayer "a" true "Player a" false false);
     ("w", mkPlayer "w" true "Player w" false false)]
    [("a", Some villager); ("w", Some werewolf)]
    false 2 day ["a"; "w"] [] None None [] true [].

(** ** Reference notions for the vote *)

(** The number of ballot entries naming [t]. *)
Definition votes_for (t : string) (vs : JsMap.t string) : nat :=
  length (filter (fun e => String.eqb (snd e) t) vs).

(** Tally-discovery order: the targets in the order in which the ballot
    first names them. *)
Definition discovery (vs : JsMap.t string) : list string :=
  fold_left (fun acc e => if includes acc (snd e) then acc else acc ++ [snd e])
    vs [].

(** [w] is the plurality winner, first-seen on ties: nobody has more
    votes, and every target discovered before [w] has strictly fewer. *)
Definition plurality_winner (vs : JsMap.t string) (w : string) : Prop :=
  In w (discovery vs)
  /\ (forall t, votes_for t vs <= votes_for w vs)
  /\ exists before after,
       discovery vs = before ++ w :: after
       /\ forall t, In t before -> votes_for t vs < votes_for w vs.

(** The ids named by the [playerEliminated] and [playerDied] events of a
    trace. *)
Definition eliminations (evs : list Event) : list string :=
  flat_map (fun e => match e with playerEliminated p => [p] | _ => [] end) evs.

Definition deaths (evs : list Event) : list string :=
  flat_map (fun e => match e with playerDied p => [p] | _ => [] end) evs.

(** An event that reports neither a death nor an elimination. *)
Definition quiet (e : Event) : bool :=
  match e with
  | playerDied _ | playerEliminated _ => false
  | _ => true
  end.

(** A step that leaves roster, roles, death set and ballot alone and emits
    only quiet events. *)
Record phase_step (s s' : GameState) : Prop := mkPhaseStep {
  ps_players : players s' = players s;
  ps_roles : roles s' = roles s;
  ps_dead : deadPlayers s' = deadPlayers s;
  ps_votes : votes s' = votes s;
  ps_events : exists evs,
      emitted s' = emitted s ++ evs /\ forallb quiet evs = true
}.

Definition preserves {A} (m : GS A) : Prop :=
  forall s c s', m s = (c, s') -> phase_step s s'.

(** The part of [processVotes] after [this.votes.clear()]: the win check
    and the move to the next phase. *)
Definition afterVotes (depth : nat) : GS unit :=
  ended <- checkGameEnd ;;
  if ended then ret tt
  else
    nightNow <- gets isNight ;;
    if nightNow then processSeer else startNight depth.


(** A day ballot of four players in which "b" and "c" tie at two votes
    and "b" is named first. *)
Definition tied_ballot : GameState :=
  mkGameState
    [("a", mkPlayer "a" true "Player a" true false);
     ("b", mkPlayer "b" true "Player b" true false);
     ("c", mkPlayer "c" true "Player c" true false);
     ("w", mkPlayer "w" true "Player w" true false)]
    [("a", Some villager); ("b", Some villager); ("c", Some villager);
     ("w", Some werewolf)]
    false 1 day []
    [("a", "b"); ("b", "c"); ("c", "b"); ("w", "c")]
    None None [] true [].

(** ** Reference notions for the narration *)

(** A message with its [isPrivate] field blanked. *)
Definition erase_private (msg : WsMessage) : WsMessage :=
  match msg with
  | game_log sp message ts _ => game_log sp message ts false
  | other => other
  end.

(** The name and role that [speak] attributes to a speaker. *)
Definition speaker_name (s : GameState) (speaker : string) : option string :=
  if String.eqb speaker "Moderator" then Some "Moderator"
  else option_map name (JsMap.get (players s) speaker).

Definition speaker_role (s : GameState) (speaker : string) : option string :=
  if String.eqb speaker "Moderator" then Some "Moderator"
  else option_map role_string (getPlayerRole s speaker).

(** Does [speak] reach the loop that updates the AI characters? *)
Definition narration_delivered (E : Collaborators) (message : string) : bool :=
  orb (shouldSkipTTS message) (synthesizeAndStreamAudio E message).

(** ** Sample tables *)

Definition seat (pid : string) (ai alive : bool) : string * Player :=
  (pid, mkPlayer pid ai (if ai then "Player " ++ pid else "Human Player")
          alive false).

Definition character (pid : string) (r : Role) : string * AICharacter :=
  (pid, mkAICharacter pid ("Player " ++ pid) (Some r)
          "You are cautious and analytical, carefully considering each decision."
          [] []).

(** Collaborators whose AI always has an answer: the werewolves and the
    seer name the human player, the witch both saves and poisons. *)
Definition eager : Collaborators :=
  mkCollaborators
    (fun _ => true)
    (fun _ _ _ => Normal (Some "human"))
    (fun _ _ _ => Normal (Some "human"))
    (fun _ _ _ _ _ _ => Normal (mkDecision true (Some "human"))).


(** A night in which the human player is the seer and "ai_6" has just
    been killed. *)
Definition human_seer_night : GameState :=
  mkGameState
    [seat "human" false true; seat "ai_1" true true; seat "ai_2" true true;
     seat "ai_3" true true; seat "ai_4" true true; seat "ai_5" true true;
     seat "ai_6" true false]
    [("human", Some seer); ("ai_1", Some werewolf); ("ai_2", Some werewolf);
     ("ai_3", Some werewolf); ("ai_4", Some witch); ("ai_5", Some villager);
     ("ai_6", Some villager)]
    true 1 night ["ai_6"] [] None None [] true [].

Definition ai_cast (wolf3 : Role) : JsMap.t AICharacter :=
  [character "ai_1" werewolf; character "ai_2" werewolf;
   character "ai_3" wolf3; character "ai_4" witch;
   character "ai_5" villager; character "ai_6" villager].


Definition seer_table : GameManager :=
  mkGameManager human_seer_night (ai_cast werewolf)
    [("ai_4", mkPotions false true)] [] [] [] 0.

(** The same night with both potions unused. *)
Definition fresh_witch_table : GameManager :=
  mkGameManager human_seer_night (ai_cast werewolf)
    [("ai_4", mkPotions true true)] [] [] [] 0.

(** A day on which it is the human player's turn, "ai_1" being next. *)
Definition human_turn : GameManager :=
  mkGameManager
    (mkGameState
       [seat "human" false true; seat "ai_1" true true; seat "ai_2" true true]
       [("human", Some villager); ("ai_1", Some werewolf); ("ai_2", Some villager)]
       false 1 policeElection [] [] None (Some "human") ["ai_1"; "ai_2"] true [])
    [character "ai_1" werewolf; character "ai_2" villager] [] [] [] [] 0.

(** A ballot holding the vote of a player who has died since: "a" votes,
    then is killed, while "b" and "c" have not voted yet. *)
Definition stale_ballot : GameState :=
  snd ((addPlayer "a" true None ;;
        addPlayer "b" true None ;;
        addPlayer "c" true None ;;
        assignRoles sample_rnd ;;
        vote 1 "a" "c" ;;
        killPlayer "a") newGameState).

(** The end of a game won by the werewolves: the last villager is dead. *)
Definition wolves_won : GameState :=
  mkGameState
    [seat "v" true false; seat "w" true true]
    [("v", Some villager); ("w", Some werewolf)]
    false 3 day ["v"] [] None None [] true [].

(** A day with two players waiting to speak, and the same day once both
    have been called. *)
Definition speakers_waiting : GameState :=
  mkGameState
    [seat "a" true true; seat "b" true true; seat "w" true true]
    [("a", Some villager); ("b", Some villager); ("w", Some werewolf)]
    false 1 day [] [] None None ["a"; "b"] true [].

Definition speakers_done : GameState :=
  set_currentSpeaker (Some "b") (set_speakQueue [] speakers_waiting).

(** Every id that holds a role is on the roster. *)
Definition roles_known (s : GameState) : Prop :=
  forall pid r, In (pid, r) (roles s) -> In pid (JsMap.keys (players s)).

(* ================================================================== *)
(** ** Further notions: invariants of the game state *)
(* ================================================================== *)

(** The roster and the role map are Maps, and every role holder is on the
    roster: the shape every state built by the roster operations has. *)
Definition roster_ok (s : GameState) : Prop :=
  JsMap.wf (players s) /\ JsMap.wf (roles s) /\ roles_known s.

(** Every recorded voter is still alive. *)
Definition ballot_fresh (s : GameState) : Prop :=
  forall v, In v (JsMap.keys (votes s)) -> In v (livingIds s).

(** The first living holder of a role, in the order of the role map. *)
Definition first_living (r : Role) (s : GameState)
  : option (string * option Role) :=
  find (fun e => andb (is_role r (snd e)) (isPlayerAlive s (fst e))) (roles s).

(** How many players of the roster hold a role. *)
Definition census (r : Role) (s : GameState) : nat :=
  length (filter (fun pid => is_role r (getPlayerRole s pid))
            (JsMap.keys (players s))).

(** The player record that [addPlayer] stores. *)
Definition newcomer (playerId : string) (ai : bool) (nm : option string)
  : Player :=
  mkPlayer playerId ai
    (match nm with
     | Some n => if String.eqb n "" then "Player " ++ playerId else n
     | None => "Player " ++ playerId
     end)
    true false.

(** The state of [processVotes] at [this.votes.clear()]: the outcome of
    the [if (eliminated)] block. *)
Definition after_elimination (s : GameState) : GameState :=
  match snd (mostVoted (countVotes (votes s))) with
  | Some w =>
      if truthy (Some w)
      then set_emitted (emitted (snd (killPlayer w s)) ++ [playerEliminated w])
             (snd (killPlayer w s))
      else s
  | None => s
  end.

(** The events of one frame of the cycle through [startNight] when no
    werewolf is called. *)
Definition idle_night (s : GameState) : list Event :=
  [nightStarted (currentDay s); werewolvesPhaseStarted []].

(** The state in which [startDay] stops. *)
Definition day_broken (s : GameState) : GameState :=
  set_emitted (emitted s ++ [dayStarted (S (currentDay s))])
    (set_currentDay (S (currentDay s)) (set_phase day (set_isNight false s))).

(** A night in which the villagers have won already: the only werewolf is
    dead. *)
Definition wolves_gone : GameState :=
  mkGameState
    [seat "v" true true; seat "w" true false]
    [("v", Some villager); ("w", Some werewolf)]
    false 2 day ["w"] [] None None [] true [].

(** A ballot whose only vote names somebody who is not playing. *)
Definition stray_ballot : GameState :=
  mkGameState
    [seat "a" true true; seat "w" true true]
    [("a", Some villager); ("w", Some werewolf)]
    false 1 day [] [("a", "zed")] None None [] true [].

(** The number of copies of a role in the pool for [n] players. *)
Definition role_count (r : Role) (n : Z) : Z :=
  match r with
  | werewolf => numWerewolves n
  | villager => numVillagers n
  | seer => numSeers n
  | witch => numWitches n
  | hunter => numHunters n
  end.

(** The state of [vote] once the choice is recorded and announced. *)
Definition vote_recorded (voterId targetId : string) (s : GameState)
  : GameState :=
  set_emitted (emitted s ++ [vote_ev voterId targetId])
    (set_votes (JsMap.set (votes s) voterId targetId) s).

(** Two players, too few to start. *)
Definition lobby2 : GameState :=
  snd ((addPlayer "human" false (Some "Human Player") ;;
        addPlayer "ai_1" true None) newGameState).

(* ================================================================== *)
(** ** The orchestrator: the remaining handlers *)
(* ================================================================== *)

From Stdlib Require Import DecimalString.

(** [`${n}`] for a non-negative integer. *)
Definition string_of_nat (n : nat) : string :=
  NilZero.string_of_uint (Nat.to_uint n).

(** [`${role}`] for a role that may be [undefined]. *)
Definition role_text (r : option Role) : string :=
  match r with
  | Some x => role_string x
  | None => "undefined"
  end.

(** The decision and speech methods of the AI characters that the
    handlers below call, also external. *)
Record Speakers : Type := mkSpeakers {
  makeHunterKillDecision :
    AICharacter -> list string -> GameContext -> Completion (option string);
  generateResponse : AICharacter -> string -> Completion string
}.

(** [Math.random()], call by call: whether the [k]-th value exceeds 0.5,
    and its product with [n], rounded down. *)
Record RandomSource : Type := mkRandomSource {
  above_half : nat -> bool;
  scaled_floor : nat -> nat -> nat
}.

(** [Math.floor(Math.random() * n)] at call [k]: an index below [n], and 0
    when [n] is 0. *)
Definition random_index (R : RandomSource) (k n : nat) : nat :=
  match n with
  | O => O
  | S _ => scaled_floor R k n mod n
  end.

(** The orchestrator with what the handlers below use besides: the
    property [policeChief] that [processPoliceNominations] puts on the
    game state object, and the number of calls of [Math.random] so far. *)
Record Table : Type := mkTable {
  manager : GameManager;
  policeChief : option string;
  randomCalls : nat
}.

Definition set_manager v (t : Table) :=
  mkTable v (policeChief t) (randomCalls t).
Definition set_policeChief v (t : Table) :=
  mkTable (manager t) v (randomCalls t).
Definition set_randomCalls v (t : Table) :=
  mkTable (manager t) (policeChief t) v.

Definition TM := St Table.

(** A method of the orchestrator proper. *)
Definition onManager {A} (op : GM A) : TM A :=
  fun t => let (c, m') := op (manager t) in (c, set_manager m' t).

(** One call of [Math.random]. *)
Definition next_draw : TM nat :=
  k <- gets randomCalls ;;
  modify (set_randomCalls (S k)) ;;
  ret k.

Definition personalities : list string :=
  ["You are cautious and analytical, carefully considering each decision.";
   "You are bold and outspoken, not afraid to voice your suspicions.";
   "You are diplomatic and strategic, building alliances when possible.";
   "You are observant and quiet, speaking only when you have something important to say.";
   "You are charismatic and persuasive, good at influencing others."].

Definition getRandomPersonality (R : RandomSource) : TM string :=
  k <- next_draw ;;
  ret (nth (random_index R k (length personalities)) personalities "").

Definition createAICharacter (R : RandomSource) (pid : string)
  (role : option Role) : TM AICharacter :=
  personality <- getRandomPersonality R ;;
  let ch := mkAICharacter pid ("Player " ++ pid) role personality [] [] in
  onManager (modify (fun m =>
    set_aiCharacters (JsMap.set (aiCharacters m) pid ch) m)) ;;
  (if is_role witch role
   then onManager (modify (fun m =>
          set_witchPotions
            (JsMap.set (witchPotions m) pid (mkPotions true true)) m))
   else ret tt) ;;
  ret ch.

(** [GameManager.startGame]: the human player, then [Math.max(4, 7 - 1)]
    AI players named [ai_1], [ai_2], ..., then the game state's
    [startGame]. *)
Fixpoint addAIPlayers (todo i : nat) : GS unit :=
  match todo with
  | O => ret tt
  | S rest =>
      addPlayer ("ai_" ++ string_of_nat (i + 1)) true None ;;
      addAIPlayers rest (S i)
  end.

Definition GameManager_startGame (rnd : nat -> nat) (depth : nat)
  (humanPlayerId : string) : GM unit :=
  onState (addPlayer humanPlayerId false (Some "Human Player")) ;;
  onState (addAIPlayers (Nat.max 4 (7 - 1)) 0) ;;
  onState (startGame rnd depth).

(** The first loop of [handleGameStarted]. *)
Fixpoint createCharacters (R : RandomSource) (todo : list (string * Player))
  : TM unit :=
  match todo with
  | [] => ret tt
  | (playerId, player) :: rest =>
      (if isAI player then
         role <- gets (fun t => getPlayerRole (state (manager t)) playerId) ;;
         createAICharacter R playerId role ;;
         ret tt
       else ret tt) ;;
      createCharacters R rest
  end.

Definition role_line (player : Player) (role : option Role) : string :=
  "You are " ++ name player ++ ". Your role is " ++ role_text role ++ ".".

(** The second loop of [handleGameStarted]. *)
Fixpoint tellRoles (E : Collaborators) (todo : list (string * Player))
  : GM unit :=
  match todo with
  | [] => ret tt
  | (playerId, player) :: rest =>
      role <- gets (fun m => getPlayerRole (state m) playerId) ;;
      speak E "Moderator" (role_line player role) (Some [playerId]) ;;
      tellRoles E rest
  end.

Definition handleGameStarted (E : Collaborators) (R : RandomSource) : TM unit :=
  ps <- gets (fun t => JsMap.entries (players (state (manager t)))) ;;
  createCharacters R ps ;;
  onManager (speak E "Moderator"
    "Game has started! I will now privately tell each player their role."
    None) ;;
  ps' <- gets (fun t => JsMap.entries (players (state (manager t)))) ;;
  onManager (tellRoles E ps').

Definition handleNightStarted (E : Collaborators) (d : nat) : GM unit :=
  speak E "Moderator"
    ("Night " ++ string_of_nat d ++ " has fallen. Everyone close your eyes.")
    None.

(** [Array.prototype.map] with a callback that may throw. *)
Fixpoint mapM {S A B} (f : A -> St S B) (l : list A) : St S (list B) :=
  match l with
  | [] => ret []
  | x :: r =>
      y <- f x ;;
      r' <- mapM f r ;;
      ret (y :: r')
  end.

(** [this.state.players.get(id).name]. *)
Definition name_of (pid : string) : GM string :=
  fun m =>
    match JsMap.get (players (state m)) pid with
    | Some p => (Normal (name p), m)
    | None =>
        (Throw (TypeError "Cannot read properties of undefined (reading 'name')"), m)
    end.

Definition handleDayStarted (E : Collaborators) (d : nat) : GM unit :=
  speak E "Moderator"
    ("Day " ++ string_of_nat d ++ " has begun. Everyone open your eyes.")
    None ;;
  dead <- gets (fun m => deadPlayers (state m)) ;;
  if (0 <? JsSet.size dead)%nat then
    names <- mapM name_of dead ;;
    speak E "Moderator"
      ("Last night, " ++ String.concat ", " names ++ " were killed.") None
  else
    speak E "Moderator" "No one died last night." None.

Definition handleNextSpeaker (E : Collaborators) (P : Speakers)
  (playerId : string) : GM unit :=
  player <- gets (fun m => JsMap.get (players (state m)) playerId) ;;
  match player with
  | None => ret tt
  | Some p =>
      if isAI p then
        character <- gets (fun m => JsMap.get (aiCharacters m) playerId) ;;
        match character with
        | Some ch =>
            response <- liftC (generateResponse P ch
              "It's your turn to speak. Share your thoughts about who might be a werewolf.") ;;
            speak E playerId response None
        | None => ret tt
        end
      else speak E "Moderator" "It's your turn to speak." None
  end.

Definition handlePlayerDied (E : Collaborators) (P : Speakers)
  (playerId : string) : GM unit :=
  player <- gets (fun m => JsMap.get (players (state m)) playerId) ;;
  match player with
  | None => ret tt
  | Some _ =>
      role <- gets (fun m => getPlayerRole (state m) playerId) ;;
      if is_role hunter role then
        character <- gets (fun m => JsMap.get (aiCharacters m) playerId) ;;
        match character with
        | Some ch =>
            living <- gets getLivingPlayers ;;
            names <- liftC (call_map living name) ;;
            ctx <- gets getGameContext ;;
            target <- liftC (makeHunterKillDecision P ch names ctx) ;;
            match target with
            | Some t =>
                if truthy target then
                  onState (killPlayer t) ;;
                  victim <- name_of t ;;
                  speak E "Moderator"
                    ("The hunter has chosen to take " ++ victim ++ " with them.")
                    None
                else ret tt
            | None => ret tt
            end
        | None => ret tt
        end
      else ret tt
  end.

Definition handlePlayerEliminated (E : Collaborators) (playerId : string)
  : GM unit :=
  player <- gets (fun m => JsMap.get (players (state m)) playerId) ;;
  match player with
  | None => ret tt
  | Some p =>
      role <- gets (fun m => getPlayerRole (state m) playerId) ;;
      speak E "Moderator"
        (name p ++ " has been eliminated. They were a " ++ role_text role ++ ".")
        None
  end.

Definition winner_text (w : Winner) : string :=
  match w with
  | villagers => "villagers"
  | werewolves => "werewolves"
  end.

(** The loop of [handleGameEnded] that reveals the roles. *)
Fixpoint revealRoles (E : Collaborators) (todo : list (string * Player))
  : GM unit :=
  match todo with
  | [] => ret tt
  | (playerId, player) :: rest =>
      role <- gets (fun m => getPlayerRole (state m) playerId) ;;
      speak E "Moderator" (name player ++ " was a " ++ role_text role ++ ".")
        None ;;
      revealRoles E rest
  end.

Definition handleGameEnded (E : Collaborators) (w : Winner) : GM unit :=
  speak E "Moderator" ("Game Over! The " ++ winner_text w ++ " have won!") None ;;
  ps <- gets (fun m => JsMap.entries (players (state m))) ;;
  revealRoles E ps.

(** The loops and the body of [processPoliceNominations].  The thirty
    seconds during which a human player may answer change nothing here:
    the answer is not read. *)
Fixpoint collectNominations (E : Collaborators) (R : RandomSource)
  (todo : list (string * Player)) (nominations : JsMap.t Player)
  : TM (JsMap.t Player) :=
  match todo with
  | [] => ret nominations
  | (playerId, player) :: rest =>
      if isAI player then
        k <- next_draw ;;
        if above_half R k then
          onManager (speak E "Moderator"
            (name player ++ " has nominated themselves for police chief.")
            None) ;;
          collectNominations E R rest (JsMap.set nominations playerId player)
        else
          onManager (speak E "Moderator"
            (name player ++ " declines to nominate themselves.") None) ;;
          collectNominations E R rest nominations
      else
        onManager (speak E "Moderator"
          (name player
           ++ ", would you like to nominate yourself for police chief? Please say 'yes' or 'no'.")
          None) ;;
        collectNominations E R rest nominations
  end.

Fixpoint collectChiefVotes (E : Collaborators) (R : RandomSource)
  (nominations : JsMap.t Player) (todo : list (string * Player))
  (vs : JsMap.t string) : TM (JsMap.t string) :=
  match todo with
  | [] => ret vs
  | (voterId, voter) :: rest =>
      if isAI voter then
        k <- next_draw ;;
        let nominees := JsMap.entries nominations in
        match nth_error nominees (random_index R k (length nominees)) with
        | Some randomNominee =>
            onManager (speak E "Moderator"
              (name voter ++ " has cast their vote.") None) ;;
            collectChiefVotes E R nominations rest
              (JsMap.set vs voterId (fst randomNominee))
        | None =>
            throw (TypeError "Cannot read properties of undefined (reading '0')")
        end
      else
        onManager (speak E "Moderator"
          (name voter ++ ", please vote for one of the following players: "
           ++ String.concat ", " (map name (JsMap.values nominations)))
          None) ;;
        collectChiefVotes E R nominations rest vs
  end.

Definition processPoliceNominations (E : Collaborators) (R : RandomSource)
  : TM unit :=
  livingPlayers <- gets (fun t => livingEntries (state (manager t))) ;;
  nominations <- collectNominations E R livingPlayers JsMap.empty ;;
  if (JsMap.size nominations =? 0)%nat then
    k <- next_draw ;;
    match nth_error (JsMap.entries livingPlayers)
            (random_index R k (JsMap.size livingPlayers)) with
    | Some randomPlayer =>
        modify (set_policeChief (Some (fst randomPlayer))) ;;
        onManager (speak E "Moderator"
          ("Since no one nominated themselves, " ++ name (snd randomPlayer)
           ++ " has been randomly selected as police chief.") None)
    | None =>
        throw (TypeError "Cannot read properties of undefined (reading '0')")
    end
  else if (JsMap.size nominations =? 1)%nat then
    match JsMap.entries nominations with
    | (nomineeId, nominee) :: _ =>
        modify (set_policeChief (Some nomineeId)) ;;
        onManager (speak E "Moderator"
          (name nominee
           ++ " is the only nominee and becomes police chief by default.")
          None)
    | [] => throw (TypeError "undefined is not iterable")
    end
  else
    onManager (speak E "Moderator"
      "Multiple players have nominated themselves. We will now hold a vote."
      None) ;;
    vs <- collectChiefVotes E R nominations livingPlayers JsMap.empty ;;
    let winner := snd (mostVoted (countVotes vs)) in
    modify (set_policeChief winner) ;;
    match winner with
    | Some w =>
        match JsMap.get livingPlayers w with
        | Some p =>
            onManager (speak E "Moderator"
              (name p ++ " has been elected as police chief.") None)
        | None =>
            throw (TypeError "Cannot read properties of undefined (reading 'name')")
        end
    | None =>
        throw (TypeError "Cannot read properties of undefined (reading 'name')")
    end.

Definition handlePoliceElectionStarted (E : Collaborators) (R : RandomSource)
  : TM unit :=
  onManager (speak E "Moderator"
    "It's time to elect a police chief. Each player will have a chance to nominate themselves."
    None) ;;
  processPoliceNominations E R.

(** ** Further notions: what a handler sends *)

(** A message that is not flagged private. *)
Definition public (msg : WsMessage) : bool :=
  match msg with
  | game_log _ _ _ isPrivate => negb isPrivate
  | speaker_info _ _ _ => true
  end.

(** A step of the orchestrator that only narrates: the game state, the
    potions and the set of AI characters are as before and the connection
    has received further messages, all satisfying [ok]. *)
Record narration_step (ok : WsMessage -> bool) (m m' : GameManager) : Prop :=
  mkNarrationStep {
    ns_state : state m' = state m;
    ns_potions : witchPotions m' = witchPotions m;
    ns_cast : JsMap.keys (aiCharacters m') = JsMap.keys (aiCharacters m);
    ns_sent : exists msgs,
        ws_sent m' = ws_sent m ++ msgs /\ forallb ok msgs = true
  }.

Definition narrates {A} (ok : WsMessage -> bool) (op : GM A) : Prop :=
  forall m c m', op m = (c, m') -> narration_step ok m m'.

Definition anything (msg : WsMessage) : bool := true.

(** The game log lines among messages. *)
Definition log_lines (msgs : list WsMessage) : list (string * bool) :=
  flat_map (fun msg =>
              match msg with
              | game_log _ message _ isPrivate => [(message, isPrivate)]
              | speaker_info _ _ _ => []
              end) msgs.

(** The messages sent by a step from [m] to [m']. *)
Definition new_messages (m m' : GameManager) : list WsMessage :=
  skipn (length (ws_sent m)) (ws_sent m').

(** Speakers with fixed answers: the hunter names the human player. *)
Definition eager_speakers : Speakers :=
  mkSpeakers (fun _ _ _ => Normal (Some "human"))
             (fun _ _ => Normal "I think ai_1 is a werewolf.").

(** A night at which the hunter "ai_5" has just died. *)
Definition hunter_table : GameManager :=
  mkGameManager
    (mkGameState
       [seat "human" false true; seat "ai_1" true true; seat "ai_5" true false]
       [("human", Some villager); ("ai_1", Some werewolf); ("ai_5", Some hunter)]
       true 1 night ["ai_5"] [] None None [] true [])
    [character "ai_1" werewolf; character "ai_5" hunter] [] [] [] [] 0.

(** A random source: every other draw exceeds one half. *)
Definition sample_random : RandomSource :=
  mkRandomSource Nat.even (fun k n => k + n).

(** The lines with which [handleGameEnded] reveals the roles. *)
Definition reveal_line (s : GameState) (e : string * Player) : string :=
  name (snd e) ++ " was a " ++ role_text (getPlayerRole s (fst e)) ++ ".".

(** The day after a night in which "ai_6" died, and the same day once
    "ai_6" has been removed from the roster. *)
Definition morning_table : GameManager := seer_table.

Definition morning_after_removal : GameManager :=
  set_state (snd (removePlayer "ai_6" human_seer_night)) seer_table.

(** ** Further notions: the start of the game *)

(** Is [pid] the id of an AI player among the entries? *)
Definition is_ai_in (todo : list (string * Player)) (pid : string) : bool :=
  existsb (fun e => andb (String.eqb (fst e) pid) (isAI (snd e))) todo.

(** Is [pid] the id of an AI player among the entries who is the witch? *)
Definition is_ai_witch_in (s : GameState) (todo : list (string * Player))
  (pid : string) : bool :=
  existsb (fun e => andb (andb (String.eqb (fst e) pid) (isAI (snd e)))
                      (is_role witch (getPlayerRole s (fst e)))) todo.

Definition start_line : string :=
  "Game has started! I will now privately tell each player their role.".

(** Every line in the context buffers of the cast is the opening line or
    the role line of the character that holds it. *)
Definition told_only_own_role (s : GameState) (entries : list (string * Player))
  (cast : JsMap.t AICharacter) : Prop :=
  forall k c line,
    In (k, c) cast -> In line (ai_context c) ->
    line = ("Moderator: " ++ start_line)%string
    \/ exists p,
         In (ai_id c, p) entries
         /\ line = ("Moderator: " ++ role_line p (getPlayerRole s (ai_id c)))%string.

(** A new orchestrator on a game state. *)
Definition new_table (s : GameState) : Table :=
  mkTable (mkGameManager s [] [] [] [] [] 0) None 0.

(** The game state right after [GameState.startGame] on the lobby. *)
Definition started7 : GameState := snd (startGame sample_rnd 1 lobby7).

(** The ids of the AI players that [GameManager.startGame] adds. *)
Definition ai_ids : list string :=
  ["ai_1"; "ai_2"; "ai_3"; "ai_4"; "ai_5"; "ai_6"].


(** A new orchestrator. *)
Definition new_manager : GameManager :=
  mkGameManager newGameState [] [] [] [] [] 0.

(* ================================================================== *)
(** * Properties *)
(* ================================================================== *)

(** ** Maps *)

Module JsMapFacts.
Section Facts.
Context {V : Type}.
Implicit Types (m : JsMap.t V) (k : string) (v : V).

Lemma get_set_same m k v : JsMap.get (JsMap.set m k v) k = Some v.
Proof.
  induction m as [|[k' v'] r IH]; simpl.
  - now rewrite String.eqb_refl.
  - destruct (String.eqb k' k) eqn:E; simpl; rewrite E; auto.
Qed.

Lemma get_set_other m k k' v :
  k <> k' -> JsMap.get (JsMap.set m k v) k' = JsMap.get m k'.
Proof.
  intros Hne. induction m as [|[k0 v0] r IH]; simpl.
  - destruct (String.eqb k k') eqn:E; auto.
    apply String.eqb_eq in E. contradiction.
  - destruct (String.eqb k0 k) eqn:E; simpl.
    + apply String.eqb_eq in E. subst k0.
      destruct (String.eqb k k') eqn:E'; auto.
      apply String.eqb_eq in E'. contradiction.
    + destruct (String.eqb k0 k'); auto.
Qed.

Lemma get_none_iff m k : JsMap.get m k = None <-> ~ In k (JsMap.keys m).
Proof.
  induction m as [|[k' v'] r IH]; simpl.
  - tauto.
  - destruct (String.eqb k' k) eqn:E.
    + apply String.eqb_eq in E. split; [discriminate | tauto].
    + apply String.eqb_neq in E. rewrite IH. tauto.
Qed.

Lemma get_some_in m k v : JsMap.get m k = Some v -> In (k, v) m.
Proof.
  induction m as [|[k' v'] r IH]; simpl; [discriminate|].
  destruct (String.eqb k' k) eqn:E.
  - apply String.eqb_eq in E. intros [= ->]. subst. now left.
  - intros H. right. auto.
Qed.

Lemma in_get m k v : JsMap.wf m -> In (k, v) m -> JsMap.get m k = Some v.
Proof.
  unfold JsMap.wf, JsMap.keys.
  induction m as [|[k' v'] r IH]; simpl; [tauto|].
  intros Hnd [H|H].
  - inversion H; subst. now rewrite String.eqb_refl.
  - inversion Hnd as [|? ? Hnotin Hnd']; subst.
    destruct (String.eqb k' k) eqn:E.
    + apply String.eqb_eq in E. subst. exfalso. apply Hnotin.
      change k with (fst (k, v)). now apply in_map.
    + auto.
Qed.

Lemma keys_set_in m k v :
  In k (JsMap.keys m) -> JsMap.keys (JsMap.set m k v) = JsMap.keys m.
Proof.
  unfold JsMap.keys.
  induction m as [|[k' v'] r IH]; simpl; [tauto|].
  intros H. destruct (String.eqb k' k) eqn:E; simpl; auto.
  apply String.eqb_neq in E. f_equal. apply IH. tauto.
Qed.

Lemma keys_set_fresh m k v :
  ~ In k (JsMap.keys m) -> JsMap.keys (JsMap.set m k v) = JsMap.keys m ++ [k].
Proof.
  unfold JsMap.keys.
  induction m as [|[k' v'] r IH]; simpl; auto.
  intros H. destruct (String.eqb k' k) eqn:E; simpl.
  - apply String.eqb_eq in E. tauto.
  - f_equal. apply IH. tauto.
Qed.

Lemma wf_set m k v : JsMap.wf m -> JsMap.wf (JsMap.set m k v).
Proof.
  unfold JsMap.wf. intros H.
  destruct (in_dec string_dec k (JsMap.keys m)) as [Hin|Hout].
  - now rewrite keys_set_in.
  - rewrite keys_set_fresh by assumption.
    apply NoDup_app; auto.
    + constructor; [simpl; tauto | constructor].
    + intros x Hx [<-|[]]. contradiction.
Qed.
End Facts.
End JsMapFacts.

(** ** Role assignment *)

Lemma ceil_third_spec (n : Z) :
  (3 * (ceil_third n - 1) < n <= 3 * ceil_third n)%Z.
Proof.
  unfold ceil_third.
  destruct (Z.eqb_spec (n mod 3) 0) as [H|H];
    pose proof (Z.div_mod n 3 ltac:(lia));
    pose proof (Z.mod_pos_bound n 3 ltac:(lia)); lia.
Qed.

Lemma role_counts_sum (n : Z) :
  (numWerewolves n + numVillagers n + numSeers n + numWitches n + numHunters n = n)%Z.
Proof. unfold numVillagers. lia. Qed.

Lemma numVillagers_nonneg (n : Z) : (0 <= n -> 0 <= numVillagers n)%Z.
Proof.
  intros Hn. unfold numVillagers, numWerewolves, numSeers, numWitches, numHunters.
  pose proof (ceil_third_spec n) as Hc.
  destruct (Z.leb_spec 6 n), (Z.leb_spec 9 n); lia.
Qed.

Lemma numWerewolves_nonneg (n : Z) : (0 <= n -> 0 <= numWerewolves n)%Z.
Proof.
  intros Hn. unfold numWerewolves. pose proof (ceil_third_spec n). lia.
Qed.

Lemma rolePool_normal (n : Z) :
  (0 <= n)%Z -> rolePool n = Normal (poolList n).
Proof.
  intros Hn. unfold rolePool, array_fill, poolList.
  pose proof (numVillagers_nonneg n Hn).
  pose proof (numWerewolves_nonneg n Hn).
  assert (0 <= numSeers n)%Z by (unfold numSeers; destruct (6 <=? n)%Z; lia).
  assert (0 <= numWitches n)%Z by (unfold numWitches; destruct (6 <=? n)%Z; lia).
  assert (0 <= numHunters n)%Z by (unfold numHunters; destruct (9 <=? n)%Z; lia).
  repeat match goal with
         | |- context [(?x <? 0)%Z] =>
             destruct (Z.ltb_spec x 0); [lia|]
         end.
  reflexivity.
Qed.

Lemma poolList_length (n : Z) :
  (0 <= n)%Z -> Z.of_nat (length (poolList n)) = n.
Proof.
  intros Hn. unfold poolList.
  pose proof (numVillagers_nonneg n Hn).
  pose proof (numWerewolves_nonneg n Hn).
  assert (0 <= numSeers n)%Z by (unfold numSeers; destruct (6 <=? n)%Z; lia).
  assert (0 <= numWitches n)%Z by (unfold numWitches; destruct (6 <=? n)%Z; lia).
  assert (0 <= numHunters n)%Z by (unfold numHunters; destruct (9 <=? n)%Z; lia).
  repeat rewrite length_app. repeat rewrite repeat_length.
  pose proof (role_counts_sum n). lia.
Qed.

Lemma array_put_perm {A} (r : list A) (k : nat) (a x : A) :
  nth_error r k = Some a -> Permutation (a :: array_put r k x) (x :: r).
Proof.
  revert k. induction r as [|y r IH]; intros [|k] H; simpl in *; try discriminate.
  - injection H as ->. apply perm_swap.
  - specialize (IH k H).
    eapply perm_trans; [apply perm_swap|].
    eapply perm_trans; [apply perm_skip, IH|]. apply perm_swap.
Qed.

Lemma array_swap_perm {A} (l : list A) (i j : nat) :
  Permutation (array_swap l i j) l.
Proof.
  unfold array_swap.
  destruct (nth_error l j) as [aj|] eqn:Hj; [|reflexivity].
  destruct (nth_error l i) as [ai|] eqn:Hi; [|reflexivity].
  revert i j Hi Hj.
  induction l as [|x r IH]; intros [|i] [|j] Hi Hj; simpl in *; try discriminate.
  - injection Hi as ->. injection Hj as ->. reflexivity.
  - injection Hi as ->. now apply array_put_perm.
  - injection Hj as ->. now apply array_put_perm.
  - apply perm_skip. now apply IH.
Qed.

Lemma shuffle_from_perm {A} rnd (i : nat) (l : list A) :
  Permutation (shuffle_from rnd i l) l.
Proof.
  revert l. induction i as [|i IH]; intros l; simpl; [reflexivity|].
  eapply perm_trans; [apply IH | apply array_swap_perm].
Qed.

Lemma shuffle_perm {A} rnd (l : list A) : Permutation (shuffle rnd l) l.
Proof. apply shuffle_from_perm. Qed.

Lemma assign_each_other ids idx pool m pid :
  ~ In pid ids ->
  JsMap.get (assign_each ids idx pool m) pid = JsMap.get m pid.
Proof.
  revert idx m. induction ids as [|x r IH]; intros idx m Hn; simpl; auto.
  rewrite IH by (simpl in Hn; tauto).
  apply JsMapFacts.get_set_other. simpl in Hn. intros ->. tauto.
Qed.

Lemma assign_each_roles ids : forall idx pool m,
  NoDup ids ->
  length ids + idx <= length pool ->
  map (fun pid =>
         match JsMap.get (assign_each ids idx pool m) pid with
         | Some r => r | None => None end) ids
  = map Some (firstn (length ids) (skipn idx pool)).
Proof.
  induction ids as [|x r IH]; intros idx pool m Hnd Hlen; simpl; auto.
  inversion Hnd as [|? ? Hnotin Hnd']; subst.
  rewrite assign_each_other by assumption.
  rewrite JsMapFacts.get_set_same.
  simpl in Hlen.
  destruct (nth_error pool idx) as [role|] eqn:Hnth.
  2:{ apply nth_error_None in Hnth. lia. }
  assert (Hsk : skipn idx pool = role :: skipn (S idx) pool).
  { clear - Hnth. revert idx Hnth.
    induction pool as [|y p IHp]; intros [|idx] H; simpl in *; try discriminate.
    - now injection H as ->.
    - now apply IHp. }
  rewrite Hsk. simpl. f_equal.
  apply IH; [assumption | lia].
Qed.

Lemma distinct_NoDup (l : list string) : distinct l = true -> NoDup l.
Proof.
  induction l as [|x r IH]; simpl; [constructor|].
  intros H. apply andb_prop in H as [Hx Hr].
  constructor; auto.
  intros Hin. apply negb_true_iff in Hx.
  unfold includes in Hx.
  assert (existsb (String.eqb x) r = true) as E.
  { apply existsb_exists. exists x. split; auto. apply String.eqb_refl. }
  congruence.
Qed.

(** C4.  For a roster of N players with 3 <= N <= 20, [assignRoles]
    computes werewolves = ceil(N/3), one seer and one witch exactly when
    N >= 6, one hunter exactly when N >= 9, and villagers = N minus the
    others; the five counts sum to N and villagers is not negative; the
    call returns normally, leaves the roster as it was, and gives every
    player exactly one role, the roles handed out in roster order being a
    rearrangement of the pool. *)
Theorem assignRoles_counts_and_assignment (rnd : nat -> nat) (s : GameState) :
  JsMap.wf (players s) ->
  (3 <= Z.of_nat (JsMap.size (players s)) <= 20)%Z ->
  let n := Z.of_nat (JsMap.size (players s)) in
  (3 * (numWerewolves n - 1) < n <= 3 * numWerewolves n)%Z
  /\ (numSeers n = 1 /\ 6 <= n \/ numSeers n = 0 /\ n < 6)%Z
  /\ (numWitches n = 1 /\ 6 <= n \/ numWitches n = 0 /\ n < 6)%Z
  /\ (numHunters n = 1 /\ 9 <= n \/ numHunters n = 0 /\ n < 9)%Z
  /\ (numVillagers n
      = n - numWerewolves n - numSeers n - numWitches n - numHunters n)%Z
  /\ (numWerewolves n + numVillagers n + numSeers n + numWitches n
      + numHunters n = n)%Z
  /\ (0 <= numVillagers n)%Z
  /\ rolePool n = Normal (poolList n)
  /\ exists (s' : GameState) (assigned : list Role),
       assignRoles rnd s = (Normal tt, s')
       /\ players s' = players s
       /\ Permutation assigned (poolList n)
       /\ map (getPlayerRole s') (JsMap.keys (players s)) = map Some assigned.
Proof.
  intros Hwf Hn n.
  assert (H0 : (0 <= n)%Z) by (subst n; lia).
  split; [apply ceil_third_spec|].
  split; [unfold numSeers; destruct (Z.leb_spec 6 n); lia|].
  split; [unfold numWitches; destruct (Z.leb_spec 6 n); lia|].
  split; [unfold numHunters; destruct (Z.leb_spec 9 n); lia|].
  split; [reflexivity|].
  split; [apply role_counts_sum|].
  split; [now apply numVillagers_nonneg|].
  split; [now apply rolePool_normal|].
  pose proof (rolePool_normal n H0) as Hpool.
  pose proof (poolList_length n H0) as Hlen.
  pose proof (shuffle_perm rnd (poolList n)) as Hperm.
  unfold assignRoles.
  assert (Hk : length (JsMap.keys (players s)) = JsMap.size (players s))
    by apply length_map.
  rewrite Hk. fold n. rewrite Hpool.
  eexists. exists (shuffle rnd (poolList n)).
  split; [reflexivity|]. split; [reflexivity|]. split; [assumption|].
  unfold getPlayerRole. cbn [roles set_roles].
  assert (Hl : length (shuffle rnd (poolList n)) = JsMap.size (players s)).
  { rewrite (Permutation_length Hperm). subst n. lia. }
  rewrite assign_each_roles; [| exact Hwf | rewrite Hk; lia].
  rewrite Hk. simpl. rewrite <- Hl. now rewrite firstn_all.
Qed.

Lemma assignRoles_counts_and_assignment_witness :
  JsMap.wf (players lobby7)
  /\ (3 <= Z.of_nat (JsMap.size (players lobby7)) <= 20)%Z
  /\ (numWerewolves 7 = 3 /\ numVillagers 7 = 2)%Z
  /\ exists (s' : GameState) (assigned : list Role),
       assignRoles sample_rnd lobby7 = (Normal tt, s')
       /\ Permutation assigned (poolList 7)
       /\ map (getPlayerRole s') (JsMap.keys (players lobby7)) = map Some assigned.
Proof.
  assert (H1 : JsMap.wf (players lobby7))
    by (apply distinct_NoDup; reflexivity).
  assert (H2 : (3 <= Z.of_nat (JsMap.size (players lobby7)) <= 20)%Z)
    by (vm_compute; split; discriminate).
  split; [exact H1|]. split; [exact H2|]. split; [split; reflexivity|].
  destruct (assignRoles_counts_and_assignment sample_rnd lobby7 H1 H2)
    as (_ & _ & _ & _ & _ & _ & _ & _ & s' & assigned & Hrun & _ & Hperm & Hmap).
  exists s', assigned. repeat split; assumption.
Defined.

(** ** The win check *)

Lemma emitted_set_emitted v s : emitted (set_emitted v s) = v.
Proof. reflexivity. Qed.

Lemma checkGameEnd_cases (s : GameState) :
  checkGameEnd s =
    if (livingWerewolves s =? 0)%nat
    then (Normal true, set_emitted (emitted s ++ [gameEnded villagers]) s)
    else if (livingVillagers s =? 0)%nat
    then (Normal true, set_emitted (emitted s ++ [gameEnded werewolves]) s)
    else (Normal false, s).
Proof.
  unfold checkGameEnd.
  destruct (livingWerewolves s =? 0)%nat; [reflexivity|].
  destruct (livingVillagers s =? 0)%nat; reflexivity.
Qed.

(** C2, as the code has it.  [checkGameEnd] returns true and emits
    gameEnded('villagers') if and only if no living player is a werewolf;
    it returns true and emits gameEnded('werewolves') if and only if no
    living player is a non-werewolf while some living player is a
    werewolf; it returns false, emitting nothing, in all other states.
    Nothing but the trace changes. *)
Theorem checkGameEnd_outcomes (s : GameState) :
  (checkGameEnd s
     = (Normal true, set_emitted (emitted s ++ [gameEnded villagers]) s)
   <-> livingWerewolves s = 0)
  /\ (checkGameEnd s
        = (Normal true, set_emitted (emitted s ++ [gameEnded werewolves]) s)
      <-> livingVillagers s = 0 /\ livingWerewolves s <> 0)
  /\ (checkGameEnd s = (Normal false, s)
      <-> livingWerewolves s <> 0 /\ livingVillagers s <> 0).
Proof.
  assert (Hne : forall (w1 w2 : Winner), w1 <> w2 ->
            (Normal true, set_emitted (emitted s ++ [gameEnded w1]) s)
            <> (Normal true, set_emitted (emitted s ++ [gameEnded w2]) s)).
  { intros w1 w2 Hw He. injection He as He.
    apply app_inj_tail in He as [_ He]. congruence. }
  rewrite checkGameEnd_cases.
  destruct (Nat.eqb_spec (livingWerewolves s) 0) as [Hw|Hw];
    [|destruct (Nat.eqb_spec (livingVillagers s) 0) as [Hv|Hv]].
  - split; [tauto|]. split.
    + split; [intros He; exfalso; revert He; apply Hne; discriminate | tauto].
    + split; [discriminate | tauto].
  - split; [|split].
    + split; [intros He; exfalso; revert He; apply Hne; discriminate | tauto].
    + tauto.
    + split; [discriminate | tauto].
  - split; [|split].
    + split; [discriminate | tauto].
    + split; [discriminate | tauto].
    + tauto.
Qed.

(** C2 fails as stated when nobody is alive: the count of living
    non-werewolves is 0, yet the call announces the villagers, not the
    werewolves. *)
Lemma checkGameEnd_nobody_alive :
  livingVillagers graveyard = 0
  /\ fst (checkGameEnd graveyard) = Normal true
  /\ new_events graveyard (snd (checkGameEnd graveyard)) = [gameEnded villagers]
  /\ ~ (checkGameEnd graveyard
          = (Normal true,
             set_emitted (emitted graveyard ++ [gameEnded werewolves]) graveyard)
        <-> livingVillagers graveyard = 0).
Proof.
  repeat split; try reflexivity.
  intros [_ H]. specialize (H eq_refl). vm_compute in H. discriminate.
Qed.

(** ** Steps that do not touch roster, death set or ballot *)

Lemma phase_step_refl s : phase_step s s.
Proof.
  constructor; auto. exists []. now rewrite app_nil_r.
Qed.

Lemma phase_step_trans s1 s2 s3 :
  phase_step s1 s2 -> phase_step s2 s3 -> phase_step s1 s3.
Proof.
  intros [p1 r1 d1 v1 (e1 & E1 & Q1)] [p2 r2 d2 v2 (e2 & E2 & Q2)].
  constructor; try congruence.
  exists (e1 ++ e2). rewrite E2, E1, app_assoc. split; auto.
  rewrite forallb_app, Q1, Q2. reflexivity.
Qed.

Create HintDb frame.

Lemma preserves_ret {A} (a : A) : preserves (ret a).
Proof. intros s c s' [= <- <-]. apply phase_step_refl. Qed.

Lemma preserves_throw {A} (e : Error) : preserves (@throw GameState A e).
Proof. intros s c s' [= <- <-]. apply phase_step_refl. Qed.

Lemma preserves_gets {A} (f : GameState -> A) : preserves (gets f).
Proof. intros s c s' [= <- <-]. apply phase_step_refl. Qed.

Lemma preserves_bind {A B} (m : GS A) (f : A -> GS B) :
  preserves m -> (forall a, preserves (f a)) -> preserves (bind m f).
Proof.
  intros Hm Hf s c s'. unfold bind.
  destruct (m s) as [[a|e] s1] eqn:E; intros H.
  - eapply phase_step_trans; [eapply Hm, E | eapply Hf, H].
  - injection H as <- <-. eapply Hm, E.
Qed.

Lemma preserves_emit (e : Event) : quiet e = true -> preserves (emit e).
Proof.
  intros Hq s c s' [= <- <-]. constructor; auto.
  exists [e]. simpl. now rewrite Hq.
Qed.

Lemma preserves_modify (f : GameState -> GameState) :
  (forall s, phase_step s (f s)) -> preserves (modify f).
Proof. intros H s c s' [= <- <-]. apply H. Qed.

Lemma step_set_isNight b s : phase_step s (set_isNight b s).
Proof. constructor; auto. exists []. now rewrite app_nil_r. Qed.
Lemma step_set_phase p s : phase_step s (set_phase p s).
Proof. constructor; auto. exists []. now rewrite app_nil_r. Qed.
Lemma step_set_currentDay d s : phase_step s (set_currentDay d s).
Proof. constructor; auto. exists []. now rewrite app_nil_r. Qed.
Lemma step_set_currentSpeaker p s : phase_step s (set_currentSpeaker p s).
Proof. constructor; auto. exists []. now rewrite app_nil_r. Qed.
Lemma step_set_speakQueue q s : phase_step s (set_speakQueue q s).
Proof. constructor; auto. exists []. now rewrite app_nil_r. Qed.

#[local] Hint Resolve preserves_ret preserves_throw preserves_gets
  preserves_emit preserves_modify step_set_isNight step_set_phase
  step_set_currentSpeaker step_set_speakQueue step_set_currentDay : frame.

Lemma preserves_role_and_alive r e : preserves (role_and_alive r e).
Proof.
  intros s c s'. unfold role_and_alive.
  destruct (is_role r (snd e)); [destruct (JsMap.get (players s) (fst e))|];
    intros [= <- <-]; apply phase_step_refl.
Qed.

Lemma preserves_findM {A} (f : A -> GS bool) (l : list A) :
  (forall x, preserves (f x)) -> preserves (findM f l).
Proof.
  intros Hf. induction l as [|x r IH]; simpl; auto with frame.
  apply preserves_bind; auto. intros [|]; auto with frame.
Qed.

Lemma preserves_filterM {A} (f : A -> GS bool) (l : list A) :
  (forall x, preserves (f x)) -> preserves (filterM f l).
Proof.
  intros Hf. induction l as [|x r IH]; simpl; auto with frame.
  apply preserves_bind; auto. intros b.
  apply preserves_bind; auto with frame.
Qed.

#[local] Hint Resolve preserves_role_and_alive preserves_findM
  preserves_filterM : frame.

Ltac frame_steps :=
  repeat first
    [ apply preserves_bind; [|intros ?]
    | apply preserves_emit; reflexivity
    | solve [auto with frame]
    | apply preserves_modify; intros ? ].

Lemma preserves_startDay : preserves startDay.
Proof. unfold startDay. frame_steps. Qed.

Lemma preserves_processWitch : preserves processWitch.
Proof.
  unfold processWitch. frame_steps.
  match goal with |- preserves (match ?w with _ => _ end) => destruct w end.
  - frame_steps.
  - apply preserves_startDay.
Qed.

Lemma preserves_processSeer : preserves processSeer.
Proof.
  unfold processSeer. frame_steps.
  match goal with |- preserves (match ?w with _ => _ end) => destruct w end.
  - frame_steps.
  - apply preserves_processWitch.
Qed.

Lemma preserves_startNight_with (k : GS unit) :
  preserves k -> preserves (startNight_with k).
Proof.
  intros Hk. unfold startNight_with, processWerewolves_with. frame_steps.
Qed.

Lemma preserves_processNextSpeaker (depth : nat) :
  preserves (processNextSpeaker depth).
Proof.
  induction depth as [|d IH]; simpl; auto with frame.
  intros s c s'. destruct (speakQueue s) as [|x q] eqn:Q.
  - apply (preserves_bind (modify (set_phase night)) (fun _ => startNight_with (processNextSpeaker d))).
    + auto with frame.
    + intros _. now apply preserves_startNight_with.
  - revert s c s' Q.
    assert (P : preserves (modify (set_speakQueue q) ;;
                           modify (set_currentSpeaker (Some x)) ;;
                           emit (nextSpeaker x))) by frame_steps.
    intros s c s' _. apply P.
Qed.

Lemma preserves_startNight depth : preserves (startNight depth).
Proof. apply preserves_startNight_with, preserves_processNextSpeaker. Qed.

Lemma preserves_checkGameEnd : preserves checkGameEnd.
Proof.
  intros s c s'. rewrite checkGameEnd_cases.
  destruct (livingWerewolves s =? 0)%nat;
    [|destruct (livingVillagers s =? 0)%nat];
    intros [= <- <-]; try apply phase_step_refl;
    (constructor; auto; eexists; split; [reflexivity|reflexivity]).
Qed.

(** ** The tally *)

Lemma includes_In (l : list string) (x : string) :
  includes l x = true <-> In x l.
Proof.
  unfold includes. rewrite existsb_exists. split.
  - intros (y & Hy & E). apply String.eqb_eq in E. now subst.
  - intros H. exists x. split; auto. apply String.eqb_refl.
Qed.

Lemma countVotes_snoc vs e :
  countVotes (vs ++ [e]) = count_one (countVotes vs) (snd e).
Proof. unfold countVotes, JsMap.entries. now rewrite fold_left_app. Qed.

Lemma discovery_snoc vs e :
  discovery (vs ++ [e])
  = if includes (discovery vs) (snd e) then discovery vs
    else discovery vs ++ [snd e].
Proof. unfold discovery. now rewrite fold_left_app. Qed.

Lemma votes_for_snoc t vs e :
  votes_for t (vs ++ [e])
  = votes_for t vs + (if String.eqb (snd e) t then 1 else 0).
Proof.
  unfold votes_for. rewrite filter_app, length_app. simpl.
  destruct (String.eqb (snd e) t); reflexivity.
Qed.

Lemma votes_for_pos t vs v : In (v, t) vs -> 0 < votes_for t vs.
Proof.
  intros H. unfold votes_for.
  assert (In (v, t) (filter (fun e => String.eqb (snd e) t) vs)) as Hin.
  { apply filter_In. split; auto. apply String.eqb_refl. }
  destruct (filter _ vs); [destruct Hin | simpl; lia].
Qed.

Lemma votes_for_named t vs : 0 < votes_for t vs -> exists v, In (v, t) vs.
Proof.
  unfold votes_for. intros H.
  destruct (filter (fun e => String.eqb (snd e) t) vs) as [|[v t'] r] eqn:E;
    [simpl in H; lia|].
  assert (In (v, t') (filter (fun e => String.eqb (snd e) t) vs)) as Hin
    by (rewrite E; now left).
  apply filter_In in Hin as [Hin Ht]. simpl in Ht.
  apply String.eqb_eq in Ht. subst. now exists v.
Qed.

(** What the counting loop builds: one entry per target, in discovery
    order, holding the number of votes for it. *)
Lemma countVotes_tally (vs : JsMap.t string) :
  JsMap.wf (countVotes vs)
  /\ JsMap.keys (countVotes vs) = discovery vs
  /\ forall t,
       JsMap.get (countVotes vs) t
       = if (votes_for t vs =? 0)%nat then None else Some (votes_for t vs).
Proof.
  induction vs as [|e vs IH] using rev_ind.
  - repeat split; try reflexivity. constructor.
  - destruct IH as (Hwf & Hkeys & Hget).
    rewrite countVotes_snoc, discovery_snoc. unfold count_one.
    set (u := snd e).
    assert (Hold : match JsMap.get (countVotes vs) u with
                   | Some n => n | None => 0 end = votes_for u vs).
    { rewrite Hget. destruct (Nat.eqb_spec (votes_for u vs) 0); auto. }
    rewrite Hold.
    split; [now apply JsMapFacts.wf_set|]. split.
    + destruct (includes (discovery vs) u) eqn:Hin.
      * apply includes_In in Hin. rewrite <- Hkeys in Hin.
        now rewrite JsMapFacts.keys_set_in.
      * assert (~ In u (JsMap.keys (countVotes vs))) as Hout.
        { rewrite Hkeys. intros H. apply includes_In in H. congruence. }
        rewrite JsMapFacts.keys_set_fresh by assumption. now rewrite Hkeys.
    + intros t. rewrite votes_for_snoc. fold u.
      destruct (String.eqb_spec u t) as [->|Hne].
      * rewrite JsMapFacts.get_set_same.
        destruct (Nat.eqb_spec (votes_for t vs + 1) 0); [lia|reflexivity].
      * rewrite JsMapFacts.get_set_other by assumption.
        rewrite Nat.add_0_r. apply Hget.
Qed.

(** What the selection loop returns, started from [(m, o)]: either no
    entry beats [m], or the result is the first entry holding the largest
    count. *)
Lemma pick_first_max (l : list (string * nat)) : forall (m : nat) (o : option string),
  let r := fold_left pick_step l (m, o) in
  (fst r = m /\ snd r = o /\ forall t n, In (t, n) l -> n <= m)
  \/ (exists l1 w l2,
        l = l1 ++ (w, fst r) :: l2
        /\ snd r = Some w
        /\ m < fst r
        /\ (forall t n, In (t, n) l1 -> n < fst r)
        /\ (forall t n, In (t, n) l2 -> n <= fst r)).
Proof.
  induction l as [|[t0 n0] l IH]; intros m o; simpl.
  - left. repeat split; auto. intros ? ? [].
  - assert (Hstep : pick_step (m, o) (t0, n0)
                    = if (m <? n0)%nat then (n0, Some t0) else (m, o))
      by reflexivity.
    rewrite Hstep. clear Hstep.
    destruct (Nat.ltb_spec m n0) as [Hlt|Hge].
    + specialize (IH n0 (Some t0)). simpl in IH.
      destruct IH as [(Hf & Hs & Hall) | (l1 & w & l2 & Hl & Hs & Hm & H1 & H2)].
      * right. exists [], t0, l. rewrite Hf. simpl.
        repeat split; auto. intros ? ? [].
      * right. exists ((t0, n0) :: l1), w, l2. simpl. rewrite <- Hl.
        repeat split; auto; try lia.
        intros t n [H|H]; [injection H as <- <-; lia | eauto].
    + specialize (IH m o). simpl in IH.
      destruct IH as [(Hf & Hs & Hall) | (l1 & w & l2 & Hl & Hs & Hm & H1 & H2)].
      * left. repeat split; auto.
        intros t n [H|H]; [injection H as <- <-; lia | eauto].
      * right. exists ((t0, n0) :: l1), w, l2. simpl. rewrite <- Hl.
        repeat split; auto.
        intros t n [H|H]; [injection H as <- <-; lia | eauto].
Qed.

Lemma in_keys_entry {V} (m : JsMap.t V) k :
  In k (JsMap.keys m) -> exists v, In (k, v) m.
Proof.
  unfold JsMap.keys. intros H. apply in_map_iff in H as ([k' v] & E & H).
  simpl in E. subst. now exists v.
Qed.

(** The two loops together pick the plurality winner, first-seen on
    ties, of any non-empty ballot. *)
Lemma mostVoted_winner (vs : JsMap.t string) :
  vs <> [] ->
  exists w,
    snd (mostVoted (countVotes vs)) = Some w /\ plurality_winner vs w.
Proof.
  intros Hne.
  destruct (countVotes_tally vs) as (Hwf & Hkeys & Hget).
  assert (Hentry : forall t n, In (t, n) (countVotes vs) -> n = votes_for t vs /\ 0 < n).
  { intros t n H. apply (JsMapFacts.in_get _ _ _ Hwf) in H.
    rewrite Hget in H. destruct (Nat.eqb_spec (votes_for t vs) 0); [discriminate|].
    injection H as <-. lia. }
  assert (Hnamed : forall t, 0 < votes_for t vs ->
                     In (t, votes_for t vs) (countVotes vs)).
  { intros t H. apply JsMapFacts.get_some_in. rewrite Hget.
    destruct (Nat.eqb_spec (votes_for t vs) 0); [lia|reflexivity]. }
  unfold mostVoted, JsMap.entries.
  destruct (pick_first_max (countVotes vs) 0 None)
    as [(_ & _ & Hall) | (l1 & w & l2 & Hl & Hs & Hm & H1 & H2)].
  - exfalso. destruct vs as [|[v t] vs]; [congruence|].
    assert (0 < votes_for t ((v, t) :: vs)) as Hp
      by (eapply votes_for_pos; now left).
    specialize (Hall _ _ (Hnamed _ Hp)). lia.
  - set (c := fst (fold_left pick_step (countVotes vs) (0, None))) in *.
    exists w. split; [exact Hs|].
    assert (Hw : c = votes_for w vs).
    { apply Hentry. rewrite Hl. apply in_or_app. right. now left. }
    assert (Hd : discovery vs = JsMap.keys l1 ++ w :: JsMap.keys l2).
    { rewrite <- Hkeys, Hl. unfold JsMap.keys. now rewrite map_app. }
    split; [|split].
    + rewrite Hd. apply in_or_app. right. now left.
    + intros t. destruct (Nat.eq_dec (votes_for t vs) 0) as [E|E]; [lia|].
      assert (In (t, votes_for t vs) (countVotes vs)) as Hin
        by (apply Hnamed; lia).
      rewrite Hl in Hin. apply in_app_or in Hin as [Hin|[Hin|Hin]].
      * specialize (H1 _ _ Hin). lia.
      * injection Hin as _ Hin. lia.
      * specialize (H2 _ _ Hin). lia.
    + exists (JsMap.keys l1), (JsMap.keys l2). split; [exact Hd|].
      intros t Ht. apply in_keys_entry in Ht as (n & Hn).
      assert (In (t, n) (countVotes vs)) as Hin
        by (rewrite Hl; apply in_or_app; now left).
      apply Hentry in Hin as [-> _]. rewrite <- Hw. eauto.
Qed.

Lemma mostVoted_names_target (vs : JsMap.t string) (w : string) :
  snd (mostVoted (countVotes vs)) = Some w -> exists v, In (v, w) vs.
Proof.
  intros H. destruct vs as [|e vs]; [discriminate|].
  destruct (mostVoted_winner (e :: vs)) as (w' & Hw & Hin & Hmax & _);
    [discriminate|].
  rewrite H in Hw. injection Hw as <-.
  apply votes_for_named.
  destruct e as [v t].
  pose proof (Hmax t) as Hle.
  assert (0 < votes_for t ((v, t) :: vs)) by (eapply votes_for_pos; now left).
  lia.
Qed.

(** ** Resolving a ballot *)

Lemma preserves_afterVotes depth : preserves (afterVotes depth).
Proof.
  unfold afterVotes. apply preserves_bind; [apply preserves_checkGameEnd|].
  intros [|]; [auto with frame|].
  apply preserves_bind; [auto with frame|].
  intros [|]; [apply preserves_processSeer | apply preserves_startNight].
Qed.



Lemma new_events_app s s' evs :
  emitted s' = emitted s ++ evs -> new_events s s' = evs.
Proof.
  intros H. unfold new_events. rewrite H, skipn_app, skipn_all, Nat.sub_diag.
  reflexivity.
Qed.

Lemma quiet_no_casualties evs :
  forallb quiet evs = true -> eliminations evs = [] /\ deaths evs = [].
Proof.
  induction evs as [|e evs IH]; simpl; auto.
  intros H. apply andb_prop in H as [He Hr].
  destruct (IH Hr) as [-> ->].
  destruct e; simpl in *; try discriminate; auto.
Qed.

Lemma eliminations_app a b : eliminations (a ++ b) = eliminations a ++ eliminations b.
Proof. apply flat_map_app. Qed.

Lemma deaths_app a b : deaths (a ++ b) = deaths a ++ deaths b.
Proof. apply flat_map_app. Qed.



(** On [tied_ballot] the winner is "b": it ties with "c" at two votes and
    is discovered first. *)
Example processVotes_tie_first_seen :
  snd (mostVoted (countVotes (votes tied_ballot))) = Some "b"
  /\ discovery (votes tied_ballot) = ["b"; "c"]
  /\ votes_for "b" (votes tied_ballot) = 2
  /\ votes_for "c" (votes tied_ballot) = 2
  /\ isPlayerAlive (snd (processVotes 3 tied_ballot)) "b" = false
  /\ isPlayerAlive (snd (processVotes 3 tied_ballot)) "c" = true.
Proof. repeat split; reflexivity. Qed.

(** ** Narration *)

(** The narration-only allow-list on the messages the orchestrator sends. *)
Example shouldSkipTTS_samples :
  shouldSkipTTS "Game has started! I will now privately tell each player their role."
  = true
  /\ shouldSkipTTS "You are Player ai_1. Your role is seer." = true
  /\ shouldSkipTTS "YOU ARE x. YOUR ROLE IS" = true
  /\ shouldSkipTTS "You are . Your role is villager." = false
  /\ shouldSkipTTS "It's time to elect a police chief. Each player will have a chance to nominate themselves."
     = true
  /\ shouldSkipTTS "Night 1 has fallen. Everyone close your eyes." = false
  /\ shouldSkipTTS "Witch, open your eyes." = false.
Proof. repeat split; reflexivity. Qed.

(** Everything one call of [speak] does. *)
Lemma speak_effects (E : Collaborators) (speaker message : string)
  (targetPlayers : option (list string)) (m : GameManager) :
  let m' := snd (speak E speaker message targetPlayers m) in
  fst (speak E speaker message targetPlayers m) = Normal tt
  /\ state m' = state m
  /\ witchPotions m' = witchPotions m
  /\ clock m' = S (clock m)
  /\ ws_sent m'
     = ws_sent m
       ++ [speaker_info speaker (speaker_name (state m) speaker)
             (speaker_role (state m) speaker);
           game_log (speaker_name (state m) speaker) message (clock m)
             (match targetPlayers with Some _ => true | None => false end)]
  /\ tts_requests m'
     = tts_requests m ++ (if shouldSkipTTS message then [] else [message])
  /\ console_errors m'
     = console_errors m
       ++ (if narration_delivered E message then []
           else [PlainError "speech synthesis failed"])
  /\ aiCharacters m'
     = if narration_delivered E message
       then map (fun e => (fst e,
                           tell targetPlayers (speaker ++ ": " ++ message) (snd e)))
              (aiCharacters m)
       else aiCharacters m.
Proof.
  unfold speak, speak_body, narration_delivered, speaker_name, speaker_role,
    ws_send, bind, gets, modify, ret, throw.
  cbn [fst snd state set_ws_sent set_clock clock ws_sent aiCharacters
       witchPotions tts_requests console_errors].
  destruct (shouldSkipTTS message) eqn:Hskip;
    cbn [fst snd orb state set_ws_sent set_clock clock ws_sent aiCharacters
         witchPotions tts_requests console_errors set_aiCharacters
         set_tts_requests set_console_errors].
  - rewrite <- !app_assoc, !app_nil_r. repeat split; reflexivity.
  - destruct (synthesizeAndStreamAudio E message) eqn:Hsyn;
      cbn [fst snd orb state set_ws_sent set_clock clock ws_sent aiCharacters
           witchPotions tts_requests console_errors set_aiCharacters
           set_tts_requests set_console_errors];
      rewrite <- !app_assoc, ?app_nil_r; repeat split; reflexivity.
Qed.

Lemma speak_normal E speaker message tp m :
  speak E speaker message tp m
  = (Normal tt, snd (speak E speaker message tp m)).
Proof.
  pose proof (speak_effects E speaker message tp m) as (H & _).
  destruct (speak E speaker message tp m) as [c m']. simpl in *. now subst.
Qed.

Lemma get_map_values {A} (f : string * A -> A) (l : JsMap.t A) (k : string) :
  JsMap.get (map (fun e => (fst e, f e)) l) k
  = match JsMap.get l k with
    | Some v => Some (f (k, v))
    | None => None
    end.
Proof.
  induction l as [|[k' v] r IH]; simpl; auto.
  destruct (String.eqb_spec k' k) as [->|]; auto.
Qed.

(** [speak] neither adds nor removes an AI character. *)
Lemma speak_keeps_characters E speaker message tp m k :
  JsMap.get (aiCharacters (snd (speak E speaker message tp m))) k = None
  <-> JsMap.get (aiCharacters m) k = None.
Proof.
  pose proof (speak_effects E speaker message tp m) as (_ & _ & _ & _ & _ & _ & _ & H).
  simpl in H. rewrite H.
  destruct (narration_delivered E message); [|tauto].
  rewrite (get_map_values (fun e => tell tp (speaker ++ ": " ++ message) (snd e))).
  destruct (JsMap.get (aiCharacters m) k); split; congruence.
Qed.

(** C10.  Two calls of [speak] that differ only in the audience send the
    connection the same speaker_info and game_log messages but for the
    isPrivate field: the full message text goes out in both, isPrivate
    tells whether an audience was given, the synthesis request, the clock,
    the error log and the game state are the same, and the audience
    decides only which AI characters' context buffers get the line. *)
Theorem speak_audience_gates_only_privacy_flag
  (E : Collaborators) (speaker message : string)
  (audience1 audience2 : option (list string)) (m : GameManager) :
  let m1 := snd (speak E speaker message audience1 m) in
  let m2 := snd (speak E speaker message audience2 m) in
  map erase_private (ws_sent m1) = map erase_private (ws_sent m2)
  /\ (exists nm rl, forall audience,
        ws_sent (snd (speak E speaker message audience m))
        = ws_sent m
          ++ [speaker_info speaker nm rl;
              game_log nm message (clock m)
                (match audience with Some _ => true | None => false end)])
  /\ tts_requests m1 = tts_requests m2
  /\ console_errors m1 = console_errors m2
  /\ clock m1 = clock m2
  /\ state m1 = state m2
  /\ witchPotions m1 = witchPotions m2
  /\ fst (speak E speaker message audience1 m)
     = fst (speak E speaker message audience2 m)
  /\ (forall audience,
        aiCharacters (snd (speak E speaker message audience m))
        = if narration_delivered E message
          then map (fun e =>
                      (fst e,
                       if in_audience audience (snd e)
                       then updateGameContext (speaker ++ ": " ++ message) (snd e)
                       else snd e))
                 (aiCharacters m)
          else aiCharacters m).
Proof.
  intros m1 m2.
  pose proof (speak_effects E speaker message audience1 m)
    as (Hc1 & Hs1 & Hp1 & Hk1 & Hw1 & Ht1 & He1 & Ha1).
  pose proof (speak_effects E speaker message audience2 m)
    as (Hc2 & Hs2 & Hp2 & Hk2 & Hw2 & Ht2 & He2 & Ha2).
  fold m1 in Hs1, Hp1, Hk1, Hw1, Ht1, He1, Ha1.
  fold m2 in Hs2, Hp2, Hk2, Hw2, Ht2, He2, Ha2.
  split; [rewrite Hw1, Hw2, !map_app; reflexivity|].
  split.
  { exists (speaker_name (state m) speaker), (speaker_role (state m) speaker).
    intros audience. apply (speak_effects E speaker message audience m). }
  repeat split; try congruence.
  intros audience.
  apply (speak_effects E speaker message audience m).
Qed.

(** ** Human input *)

Lemma onState_run {A} (op : GS A) (m : GameManager) :
  onState op m = (fst (op (state m)), set_state (snd (op (state m))) m).
Proof. unfold onState. now destruct (op (state m)). Qed.

Lemma processNextSpeaker_pop depth s x q :
  speakQueue s = x :: q ->
  processNextSpeaker (S depth) s
  = (Normal tt,
     set_emitted (emitted s ++ [nextSpeaker x])
       (set_currentSpeaker (Some x) (set_speakQueue q s))).
Proof. intros H. simpl. rewrite H. reflexivity. Qed.



(** ** Monad bookkeeping *)

Lemma bind_gets {S A B} (f : S -> A) (k : A -> St S B) (s : S) :
  bind (gets f) k s = k (f s) s.
Proof. reflexivity. Qed.

Lemma bind_ret {S A B} (a : A) (k : A -> St S B) (s : S) :
  bind (ret a) k s = k a s.
Proof. reflexivity. Qed.

Lemma bind_normal {S A B} (c : St S A) (k : A -> St S B) (s s' : S) (a : A) :
  c s = (Normal a, s') -> bind c k s = k a s'.
Proof. intros H. unfold bind. now rewrite H. Qed.

Lemma bind_thrown {S A B} (c : St S A) (k : A -> St S B) (s s' : S) (e : Error) :
  c s = (Throw e, s') -> bind c k s = (Throw e, s').
Proof. intros H. unfold bind. now rewrite H. Qed.

Lemma bind_speak {B} E speaker message tp (k : unit -> GM B) (m : GameManager) :
  bind (speak E speaker message tp) k m
  = k tt (snd (speak E speaker message tp m)).
Proof. apply bind_normal, speak_normal. Qed.

(** ** The night handlers *)



(** The messages of one narration by the moderator to an audience. *)
Lemma speak_moderator_sent E message tp m :
  ws_sent (snd (speak E "Moderator" message tp m))
  = ws_sent m
    ++ [speaker_info "Moderator" (Some "Moderator") (Some "Moderator");
        game_log (Some "Moderator") message (clock m)
          (match tp with Some _ => true | None => false end)].
Proof. apply (speak_effects E "Moderator" message tp m). Qed.

Lemma speak_state E speaker message tp m :
  state (snd (speak E speaker message tp m)) = state m.
Proof. apply (speak_effects E speaker message tp m). Qed.

Lemma speak_potions E speaker message tp m :
  witchPotions (snd (speak E speaker message tp m)) = witchPotions m.
Proof. apply (speak_effects E speaker message tp m). Qed.





(** ** The witch *)




(** With both potions unused and a death this night the handler does not
    reach the decision either: [map] is looked up on the Map of living
    players, which is a TypeError; both potions stay unused and the victim
    stays in the death set. *)
Lemma witch_phase_type_error
  (E : Collaborators) (witchId : string) (m : GameManager)
  (ch : AICharacter) (potions : WitchPotions) (killedPlayer : string)
  (rest : list string) :
  JsMap.get (aiCharacters m) witchId = Some ch ->
  JsMap.get (witchPotions m) witchId = Some potions ->
  antidote potions = true ->
  deadPlayers (state m) = killedPlayer :: rest ->
  let r := handleWitchPhase E witchId m in
  fst r = Throw (TypeError "livingPlayers.map is not a function")
  /\ state (snd r) = state m
  /\ witchPotions (snd r) = witchPotions m.
Proof.
  intros Hch Hpot Hanti Hdead r. subst r. unfold handleWitchPhase.
  rewrite bind_gets, Hch, bind_gets, Hpot, !bind_speak, bind_gets.
  rewrite speak_state, Hdead, Hanti.
  set (m1 := snd (speak E "Moderator" "Witch, open your eyes." (Some [witchId]) m)).
  erewrite bind_thrown; [|reflexivity].
  cbn [fst snd]. split; [reflexivity|].
  split; [apply speak_state | apply speak_potions].
Qed.

Example witch_phase_type_error_fresh_potions :
  fst (handleWitchPhase eager "ai_4" fresh_witch_table)
  = Throw (TypeError "livingPlayers.map is not a function")
  /\ witchPotions (snd (handleWitchPhase eager "ai_4" fresh_witch_table))
     = [("ai_4", mkPotions true true)]
  /\ deadPlayers (state (snd (handleWitchPhase eager "ai_4" fresh_witch_table)))
     = ["ai_6"].
Proof. repeat split; reflexivity. Qed.

(** ** Casting a vote *)

Lemma bind_modify {S B} (f : S -> S) (k : unit -> St S B) (s : S) :
  bind (modify f) k s = k tt (f s).
Proof. reflexivity. Qed.

Lemma bind_emit {B} (e : Event) (k : unit -> GS B) (s : GameState) :
  bind (emit e) k s = k tt (set_emitted (emitted s ++ [e]) s).
Proof. reflexivity. Qed.

(** A voter who is dead, or not on the roster, is refused with an error
    and the state is left as it was. *)
Lemma vote_rejects_ineligible_voter depth voterId targetId s :
  isPlayerAlive s voterId = false ->
  exists e, vote depth voterId targetId s = (Throw e, s).
Proof.
  unfold isPlayerAlive, vote. rewrite bind_gets.
  destruct (JsMap.get (players s) voterId) as [p|]; intros H.
  - rewrite H. simpl. eexists. reflexivity.
  - eexists. reflexivity.
Qed.

(** A living voter's choice is recorded over any earlier one, and the
    ballot is resolved when the number of recorded voters equals the
    number of living players. *)
Lemma vote_records_then_compares_counts depth voterId targetId s p :
  JsMap.get (players s) voterId = Some p ->
  isAlive p = true ->
  let s1 := set_emitted (emitted s ++ [vote_ev voterId targetId])
              (set_votes (JsMap.set (votes s) voterId targetId) s) in
  JsMap.get (votes s1) voterId = Some targetId
  /\ (forall v, v <> voterId -> JsMap.get (votes s1) v = JsMap.get (votes s) v)
  /\ vote depth voterId targetId s
     = if (length (JsMap.keys (votes s1)) =? length (livingIds s1))%nat
       then processVotes depth s1
       else (Normal tt, s1).
Proof.
  intros Hp Ha s1. split; [apply JsMapFacts.get_set_same|].
  split; [intros v Hv; apply JsMapFacts.get_set_other; congruence|].
  unfold vote. rewrite bind_gets, Hp, Ha.
  change (negb true) with false. cbv iota.
  rewrite bind_modify, bind_emit, !bind_gets.
  change (set_emitted _ (set_votes (JsMap.set (votes s) voterId targetId) s))
    with s1.
  destruct (length (JsMap.keys (votes s1)) =? length (livingIds s1))%nat;
    reflexivity.
Qed.

Lemma NoDup_keys_filter {V} (f : string * V -> bool) (l : JsMap.t V) :
  JsMap.wf l -> NoDup (map fst (filter f l)).
Proof.
  unfold JsMap.wf, JsMap.keys. induction l as [|[k v] r IH]; simpl; intros H.
  - constructor.
  - inversion H as [|? ? Hnotin Hnd]; subst.
    destruct (f (k, v)); simpl; auto.
    constructor; auto. intros Hin. apply Hnotin.
    apply in_map_iff in Hin as (e & He & Hin).
    apply filter_In in Hin as [Hin _].
    apply in_map_iff. now exists e.
Qed.

Lemma livingIds_NoDup s : JsMap.wf (players s) -> NoDup (livingIds s).
Proof. apply NoDup_keys_filter. Qed.

Lemma livingIds_alive s pid :
  JsMap.wf (players s) ->
  (In pid (livingIds s) <-> isPlayerAlive s pid = true).
Proof.
  intros Hwf. unfold livingIds, livingEntries, isPlayerAlive, JsMap.entries.
  split.
  - intros H. apply in_map_iff in H as ([k p] & E & H). simpl in E. subst k.
    apply filter_In in H as [H Ha]. simpl in Ha.
    now rewrite (JsMapFacts.in_get _ _ _ Hwf H).
  - destruct (JsMap.get (players s) pid) as [p|] eqn:E; [|discriminate].
    intros Ha. apply JsMapFacts.get_some_in in E.
    apply in_map_iff. exists (pid, p). split; auto.
    apply filter_In. split; auto.
Qed.

(** While every recorded voter is still alive, the comparison of counts
    holds exactly when every living player has a recorded vote. *)
Lemma count_test_when_voters_alive s :
  JsMap.wf (players s) ->
  JsMap.wf (votes s) ->
  (forall v, In v (JsMap.keys (votes s)) -> In v (livingIds s)) ->
  (length (JsMap.keys (votes s)) = length (livingIds s)
   <-> forall pid, In pid (livingIds s) -> In pid (JsMap.keys (votes s))).
Proof.
  intros Hp Hv Hsub. pose proof (livingIds_NoDup s Hp) as Hl. split.
  - intros Hlen. apply (NoDup_length_incl Hv); [lia | exact Hsub].
  - intros Hall. apply Nat.le_antisymm.
    + apply NoDup_incl_length; assumption.
    + apply NoDup_incl_length; assumption.
Qed.

(** C5 at a ballot holding the vote of a player who died after voting.
    "a" voted and was then killed; "b" and "c" are alive and "c" has no
    recorded vote.  When "b" votes, the ballot holds two voters and two
    players are alive, so the round is resolved, and "c" is eliminated,
    although not every living player has voted. *)
Theorem vote_resolves_with_a_stale_voter :
  livingIds stale_ballot = ["b"; "c"]
  /\ JsMap.keys (votes stale_ballot) = ["a"]
  /\ isPlayerAlive stale_ballot "a" = false
  /\ JsMap.has (JsMap.set (votes stale_ballot) "b" "c") "c" = false
  /\ fst (vote 1 "b" "c" stale_ballot) = Normal tt
  /\ votes (snd (vote 1 "b" "c" stale_ballot)) = JsMap.empty
  /\ new_events stale_ballot (snd (vote 1 "b" "c" stale_ballot))
     = [vote_ev "b" "c"; playerDied "c"; playerEliminated "c";
        gameEnded werewolves].
Proof. repeat split; reflexivity. Qed.

(** ** After the end of the game *)

Lemma role_and_alive_known r e s :
  In (fst e) (JsMap.keys (players s)) ->
  role_and_alive r e s
  = (Normal (andb (is_role r (snd e)) (isPlayerAlive s (fst e))), s).
Proof.
  intros Hin. unfold role_and_alive, isPlayerAlive.
  destruct (is_role r (snd e)); [|reflexivity].
  destruct (JsMap.get (players s) (fst e)) eqn:E; [reflexivity|].
  apply JsMapFacts.get_none_iff in E. contradiction.
Qed.

Lemma filterM_role_and_alive r rs s :
  (forall pid ro, In (pid, ro) rs -> In pid (JsMap.keys (players s))) ->
  filterM (role_and_alive r) rs s
  = (Normal (filter (fun e => andb (is_role r (snd e)) (isPlayerAlive s (fst e))) rs),
     s).
Proof.
  induction rs as [|[pid ro] rs IH]; intros H; [reflexivity|].
  simpl filterM.
  rewrite (bind_normal _ _ _ _ _
             (role_and_alive_known r (pid, ro) s (H pid ro (or_introl eq_refl)))).
  rewrite (bind_normal _ _ _ _ _ (IH (fun p q Hin => H p q (or_intror Hin)))).
  simpl. destruct (is_role r ro && isPlayerAlive s pid); reflexivity.
Qed.

Lemma filterM_role_and_alive_state r rs s :
  snd (filterM (role_and_alive r) rs s) = s.
Proof.
  induction rs as [|e rs IH]; [reflexivity|].
  simpl filterM. unfold bind at 1.
  assert (Hs : snd (role_and_alive r e s) = s).
  { unfold role_and_alive. destruct (is_role r (snd e)); [|reflexivity].
    destruct (JsMap.get (players s) (fst e)); reflexivity. }
  destruct (role_and_alive r e s) as [[b|err] s0]; simpl in Hs; subst s0;
    [|reflexivity].
  unfold bind at 1.
  destruct (filterM (role_and_alive r) rs s) as [[l|err] s0]; simpl in IH;
    subst s0; reflexivity.
Qed.






(** ** The speaker queue *)

Lemma processWerewolves_with_night (k : GS unit) (s : GameState) :
  (forall s0, phase s0 = night -> isNight s0 = true ->
     phase (snd (k s0)) = night /\ isNight (snd (k s0)) = true) ->
  phase s = night -> isNight s = true ->
  phase (snd (processWerewolves_with k s)) = night
  /\ isNight (snd (processWerewolves_with k s)) = true.
Proof.
  intros Hk Hp Hn. unfold processWerewolves_with.
  rewrite bind_gets.
  pose proof (filterM_role_and_alive_state werewolf (JsMap.entries (roles s)) s) as Hs.
  destruct (filterM (role_and_alive werewolf) (JsMap.entries (roles s)) s)
    as [[wolves|e] s0] eqn:E; simpl in Hs; subst s0.
  - rewrite (bind_normal _ _ _ _ _ E), bind_modify, bind_emit.
    apply Hk; assumption.
  - rewrite (bind_thrown _ _ _ _ _ E). simpl. auto.
Qed.

Lemma startNight_with_night (k : GS unit) (s : GameState) :
  (forall s0, phase s0 = night -> isNight s0 = true ->
     phase (snd (k s0)) = night /\ isNight (snd (k s0)) = true) ->
  phase (snd (startNight_with k s)) = night
  /\ isNight (snd (startNight_with k s)) = true.
Proof.
  intros Hk. unfold startNight_with.
  rewrite !bind_modify, bind_gets, bind_emit.
  apply processWerewolves_with_night; auto.
Qed.

Lemma night_stays (depth : nat) : forall s,
  phase s = night -> isNight s = true ->
  phase (snd (processNextSpeaker depth s)) = night
  /\ isNight (snd (processNextSpeaker depth s)) = true.
Proof.
  induction depth as [|d IH]; intros s Hp Hn; [simpl; auto|].
  simpl. destruct (speakQueue s) as [|x q].
  - unfold processAllPlayersSpoken_with. rewrite bind_modify.
    apply startNight_with_night. exact IH.
  - simpl. auto.
Qed.

Lemma drained_queue_starts_night depth s :
  speakQueue s = [] ->
  let s' := snd (processNextSpeaker (S depth) s) in
  phase s' = night
  /\ isNight s' = true
  /\ exists evs, new_events s s' = nightStarted (currentDay s) :: evs.
Proof.
  intros Hq s'. subst s'. simpl. rewrite Hq.
  unfold processAllPlayersSpoken_with. rewrite bind_modify.
  destruct (startNight_with_night (processNextSpeaker depth) (set_phase night s)
              (night_stays depth)) as [Hp Hn].
  split; [exact Hp|]. split; [exact Hn|].
  unfold startNight_with. rewrite !bind_modify, bind_gets, bind_emit.
  set (s1 := set_emitted _ _).
  assert (Hpres : preserves (processWerewolves_with (processNextSpeaker depth))).
  { unfold processWerewolves_with. frame_steps.
    apply preserves_processNextSpeaker. }
  destruct (processWerewolves_with (processNextSpeaker depth) s1) as [c s2] eqn:E.
  destruct (Hpres _ _ _ E) as [_ _ _ _ (evs & He & _)].
  exists evs. apply new_events_app. simpl. rewrite He. subst s1. simpl.
  now rewrite <- app_assoc.
Qed.

(** C7, as the code has it.  No operation writes [hasSpoken]:
    [processNextSpeaker] leaves the roster as it was.  A pop makes the
    front id the current speaker and emits nextSpeaker; on an empty queue
    [processNextSpeaker] moves to the night phase and emits nightStarted,
    with no voting round in between.  The one roster-wide queue, built by
    [startPoliceElection], lists each living player exactly once whatever
    the flag; [startDay] builds no queue: it ends in the TypeError of the
    undefined [announceDeaths], the queue untouched. *)
Theorem speaker_queue_pop_and_drain (depth : nat) (s : GameState) :
  players (snd (processNextSpeaker depth s)) = players s
  /\ (forall x q,
        speakQueue s = x :: q ->
        processNextSpeaker (S depth) s
        = (Normal tt,
           set_emitted (emitted s ++ [nextSpeaker x])
             (set_currentSpeaker (Some x) (set_speakQueue q s))))
  /\ (speakQueue s = [] ->
      let s' := snd (processNextSpeaker (S depth) s) in
      phase s' = night
      /\ isNight s' = true
      /\ exists evs, new_events s s' = nightStarted (currentDay s) :: evs)
  /\ (JsMap.wf (players s) ->
      NoDup (livingIds s)
      /\ (forall pid, In pid (livingIds s) <-> isPlayerAlive s pid = true)
      /\ startPoliceElection depth s
         = processNextSpeaker depth
             (set_emitted (emitted s ++ [policeElectionStarted])
                (set_speakQueue (livingIds s) (set_phase policeElection s))))
  /\ startDay s
     = (Throw (TypeError "this.announceDeaths is not a function"),
        set_emitted (emitted s ++ [dayStarted (S (currentDay s))])
          (set_currentDay (S (currentDay s))
             (set_phase day (set_isNight false s)))).
Proof.
  split.
  { destruct (processNextSpeaker depth s) as [c s'] eqn:E.
    apply (preserves_processNextSpeaker depth _ _ _ E). }
  split; [intros x q Hq; now apply processNextSpeaker_pop|].
  split; [apply drained_queue_starts_night|].
  split; [|reflexivity].
  intros Hwf. split; [now apply livingIds_NoDup|].
  split; [intros pid; now apply livingIds_alive | reflexivity].
Qed.

Lemma speaker_queue_pop_and_drain_witness :
  speakQueue speakers_waiting = ["a"; "b"]
  /\ speakQueue speakers_done = []
  /\ JsMap.wf (players speakers_waiting)
  /\ currentSpeaker (snd (processNextSpeaker 1 speakers_waiting)) = Some "a"
  /\ phase (snd (processNextSpeaker 1 speakers_done)) = night
  /\ NoDup (livingIds speakers_waiting).
Proof.
  destruct (speaker_queue_pop_and_drain 0 speakers_waiting)
    as (_ & Hpop & _ & Hq & _).
  destruct (speaker_queue_pop_and_drain 0 speakers_done)
    as (_ & _ & Hdrain & _).
  assert (Hwf : JsMap.wf (players speakers_waiting))
    by (apply distinct_NoDup; reflexivity).
  split; [reflexivity|]. split; [reflexivity|]. split; [exact Hwf|].
  split; [rewrite (Hpop "a" ["b"] eq_refl); reflexivity|].
  split; [apply (Hdrain eq_refl) | apply (Hq Hwf)].
Defined.

(** C7 fails as stated: popping "a" from the queue leaves "a" with
    [hasSpoken] false, and once the queue is empty the next call starts
    the night and calls the werewolf; no voting round takes place. *)
Lemma pop_keeps_hasSpoken_and_drained_queue_starts_night :
  currentSpeaker (snd (processNextSpeaker 1 speakers_waiting)) = Some "a"
  /\ option_map hasSpoken
       (JsMap.get (players (snd (processNextSpeaker 1 speakers_waiting))) "a")
     = Some false
  /\ speakQueue speakers_done = []
  /\ phase (snd (processNextSpeaker 2 speakers_done)) = night
  /\ new_events speakers_done (snd (processNextSpeaker 2 speakers_done))
     = [nightStarted 1; werewolvesPhaseStarted ["w"]; nextSpeaker "w"].
Proof. repeat split; reflexivity. Qed.

(* ================================================================== *)
(** * Further properties of the game state *)
(* ================================================================== *)

(** ** More on Maps and Sets *)

Lemma keys_set_iff {V} (m : JsMap.t V) k v k' :
  In k' (JsMap.keys (JsMap.set m k v)) <-> In k' (JsMap.keys m) \/ k' = k.
Proof.
  destruct (in_dec string_dec k (JsMap.keys m)) as [Hin|Hout].
  - rewrite JsMapFacts.keys_set_in by assumption.
    split; [tauto | intros [H| ->]; assumption].
  - rewrite JsMapFacts.keys_set_fresh by assumption.
    rewrite in_app_iff. simpl. split; [intros [H|[H|[]]] | intros [H|H]]; auto.
Qed.

Lemma delete_absent {V} (m : JsMap.t V) k :
  ~ In k (JsMap.keys m) -> JsMap.delete m k = m.
Proof.
  unfold JsMap.keys. induction m as [|[k0 v0] r IH]; simpl; auto.
  intros H. destruct (String.eqb_spec k0 k) as [->|]; [tauto|].
  f_equal. apply IH. tauto.
Qed.

Lemma delete_set_fresh {V} (m : JsMap.t V) k v :
  ~ In k (JsMap.keys m) -> JsMap.delete (JsMap.set m k v) k = m.
Proof.
  unfold JsMap.keys. induction m as [|[k0 v0] r IH]; simpl.
  - now rewrite String.eqb_refl.
  - intros H. destruct (String.eqb_spec k0 k) as [->|Hne]; [tauto|].
    simpl. destruct (String.eqb_spec k0 k); [contradiction|].
    f_equal. apply IH. tauto.
Qed.

Lemma keys_delete_incl {V} (m : JsMap.t V) k k' :
  In k' (JsMap.keys (JsMap.delete m k)) -> In k' (JsMap.keys m).
Proof.
  unfold JsMap.keys. induction m as [|[k0 v0] r IH]; simpl; auto.
  destruct (String.eqb k0 k); simpl; tauto.
Qed.

Lemma keys_delete_wf {V} (m : JsMap.t V) k k' :
  JsMap.wf m ->
  (In k' (JsMap.keys (JsMap.delete m k)) <-> In k' (JsMap.keys m) /\ k' <> k).
Proof.
  unfold JsMap.wf, JsMap.keys. induction m as [|[k0 v0] r IH]; simpl.
  - tauto.
  - intros Hnd. inversion Hnd as [|? ? Hnotin Hnd']; subst.
    destruct (String.eqb_spec k0 k) as [->|Hne]; simpl.
    + split.
      * intros H. split; [now right|]. intros ->. contradiction.
      * intros [[H|H] Hneq]; [congruence | assumption].
    + rewrite (IH Hnd'). split.
      * intros [<-|[H1 H2]]; auto.
      * intros [[<-|H1] H2]; auto.
Qed.

Lemma wf_delete {V} (m : JsMap.t V) k : JsMap.wf m -> JsMap.wf (JsMap.delete m k).
Proof.
  unfold JsMap.wf, JsMap.keys. induction m as [|[k0 v0] r IH]; simpl; auto.
  intros Hnd. inversion Hnd as [|? ? Hnotin Hnd']; subst.
  destruct (String.eqb k0 k); simpl; auto.
  constructor; auto. intros H. apply Hnotin.
  now apply (keys_delete_incl r k k0).
Qed.

Lemma in_delete {V} (m : JsMap.t V) k e :
  In e (JsMap.delete m k) -> In e m.
Proof.
  induction m as [|[k0 v0] r IH]; simpl; auto.
  destruct (String.eqb k0 k); simpl; tauto.
Qed.

Lemma set_set {V} (m : JsMap.t V) k v v' :
  JsMap.set (JsMap.set m k v) k v' = JsMap.set m k v'.
Proof.
  induction m as [|[k0 v0] r IH]; simpl.
  - now rewrite String.eqb_refl.
  - destruct (String.eqb k0 k) eqn:E; simpl; rewrite E; [reflexivity|].
    now rewrite IH.
Qed.

Lemma jsset_has_In (l : JsSet.t) x : JsSet.has l x = true <-> In x l.
Proof. apply includes_In. Qed.

Lemma jsset_add_In (l : JsSet.t) x y :
  In y (JsSet.add l x) <-> In y l \/ y = x.
Proof.
  unfold JsSet.add. destruct (JsSet.has l x) eqn:E.
  - apply jsset_has_In in E. split; [tauto | intros [H| ->]; assumption].
  - rewrite in_app_iff. simpl. split; [intros [H|[H|[]]] | intros [H|H]]; auto.
Qed.

Lemma jsset_add_NoDup (l : JsSet.t) x : NoDup l -> NoDup (JsSet.add l x).
Proof.
  intros H. unfold JsSet.add. destruct (JsSet.has l x) eqn:E; auto.
  apply NoDup_app; auto.
  - constructor; [simpl; tauto | constructor].
  - intros y Hy [<-|[]]. apply jsset_has_In in Hy. congruence.
Qed.

Lemma jsset_add_twice (l : JsSet.t) x :
  JsSet.add (JsSet.add l x) x = JsSet.add l x.
Proof.
  unfold JsSet.add at 1.
  assert (JsSet.has (JsSet.add l x) x = true) as ->; [|reflexivity].
  apply jsset_has_In, jsset_add_In. now right.
Qed.

(** ** The roster operations *)

Lemma assign_each_keys ids : forall idx pool m k,
  In k (JsMap.keys (assign_each ids idx pool m)) ->
  In k (JsMap.keys m) \/ In k ids.
Proof.
  induction ids as [|x r IH]; intros idx pool m k H; simpl in *; auto.
  apply IH in H as [H|H]; [|tauto].
  apply keys_set_iff in H as [H| ->]; auto.
Qed.

Lemma assign_each_wf ids : forall idx pool m,
  JsMap.wf m -> JsMap.wf (assign_each ids idx pool m).
Proof.
  induction ids as [|x r IH]; intros idx pool m H; simpl; auto.
  apply IH. now apply JsMapFacts.wf_set.
Qed.

Lemma roles_known_keys s :
  roles_known s <-> (forall pid, In pid (JsMap.keys (roles s)) ->
                                 In pid (JsMap.keys (players s))).
Proof.
  unfold roles_known. split.
  - intros H pid Hin. apply in_keys_entry in Hin as (r & Hr). eauto.
  - intros H pid r Hin. apply H. unfold JsMap.keys.
    change pid with (fst (pid, r)). now apply in_map.
Qed.

Lemma assignRoles_run rnd s :
  assignRoles rnd s
  = (Normal tt,
     set_roles
       (assign_each (JsMap.keys (players s)) 0
          (shuffle rnd (poolList (Z.of_nat (length (JsMap.keys (players s))))))
          (roles s)) s).
Proof.
  unfold assignRoles. rewrite rolePool_normal by lia. reflexivity.
Qed.

Lemma roster_ok_addPlayer s pid ai nm :
  roster_ok s -> roster_ok (snd (addPlayer pid ai nm s)).
Proof.
  intros (Hp & Hr & Hk). split; [|split]; simpl.
  - now apply JsMapFacts.wf_set.
  - exact Hr.
  - intros q r Hin. simpl. apply keys_set_iff. left. eauto.
Qed.

Lemma roster_ok_removePlayer s pid :
  roster_ok s -> roster_ok (snd (removePlayer pid s)).
Proof.
  intros (Hp & Hr & Hk).
  pose proof (proj1 (roles_known_keys s) Hk) as Hk'.
  split; [|split]; simpl.
  - now apply wf_delete.
  - now apply wf_delete.
  - apply roles_known_keys. simpl. intros q Hq.
    apply (keys_delete_wf _ _ _ Hr) in Hq as [Hq Hne].
    apply (keys_delete_wf _ _ _ Hp). split; auto.
Qed.

Lemma roster_ok_assignRoles s rnd :
  roster_ok s -> roster_ok (snd (assignRoles rnd s)).
Proof.
  intros (Hp & Hr & Hk).
  pose proof (proj1 (roles_known_keys s) Hk) as Hk'.
  rewrite assignRoles_run. split; [|split]; simpl.
  - exact Hp.
  - now apply assign_each_wf.
  - apply roles_known_keys. simpl. intros q Hq.
    apply assign_each_keys in Hq as [Hq|Hq]; auto.
Qed.

Lemma roster_ok_killPlayer s pid :
  roster_ok s -> roster_ok (snd (killPlayer pid s)).
Proof.
  intros (Hp & Hr & Hk). unfold killPlayer.
  destruct (JsMap.get (players s) pid) as [p|] eqn:E; simpl.
  - split; [|split]; simpl.
    + now apply JsMapFacts.wf_set.
    + exact Hr.
    + intros q r Hin. simpl. apply keys_set_iff. left. eauto.
  - repeat split; assumption.
Qed.

(** The states built by the roster operations keep the roster and the
    role map well formed and every role holder on the roster: this holds
    of a new game, and [addPlayer], [removePlayer], [assignRoles] and
    [killPlayer] each keep it.  On such states reading [isAlive] of a role
    holder never fails. *)
Theorem roster_ok_kept_by_roster_operations :
  roster_ok newGameState
  /\ forall s, roster_ok s ->
       (forall pid ai nm, roster_ok (snd (addPlayer pid ai nm s)))
       /\ (forall pid, roster_ok (snd (removePlayer pid s)))
       /\ (forall rnd, roster_ok (snd (assignRoles rnd s)))
       /\ (forall pid, roster_ok (snd (killPlayer pid s)))
       /\ (forall r e, In e (roles s) ->
             is_normal (fst (role_and_alive r e s)) = true).
Proof.
  split.
  { repeat split; try constructor. intros pid r []. }
  intros s H.
  split; [intros; now apply roster_ok_addPlayer|].
  split; [intros; now apply roster_ok_removePlayer|].
  split; [intros; now apply roster_ok_assignRoles|].
  split; [intros; now apply roster_ok_killPlayer|].
  destruct H as (_ & _ & Hk). intros r [pid ro] Hin.
  rewrite (role_and_alive_known r (pid, ro) s (Hk pid ro Hin)). reflexivity.
Qed.

Lemma roster_ok_kept_by_roster_operations_witness :
  roster_ok human_seer_night
  /\ roster_ok (snd (removePlayer "ai_6" human_seer_night))
  /\ roster_ok (snd (assignRoles sample_rnd human_seer_night)).
Proof.
  assert (H : roster_ok human_seer_night).
  { split; [apply distinct_NoDup; reflexivity|].
    split; [apply distinct_NoDup; reflexivity|].
    intros pid r Hin. simpl in Hin.
    repeat (destruct Hin as [Hin|Hin]; [injection Hin as <- _; simpl; tauto|]).
    destruct Hin. }
  destruct roster_ok_kept_by_roster_operations as [_ Hkeep].
  destruct (Hkeep _ H) as (_ & Hrem & Has & _).
  split; [exact H|]. split; [apply Hrem | apply Has].
Defined.

(** Adding a player and looking the id up gives a living player who has
    not spoken, whatever was stored under the id before; for an id that is
    new to a well-formed state, removing the player again restores the
    state. *)
Theorem addPlayer_lookup_and_removal (pid : string) (ai : bool)
  (nm : option string) (s : GameState) :
  let s1 := snd (addPlayer pid ai nm s) in
  JsMap.get (players s1) pid = Some (newcomer pid ai nm)
  /\ isPlayerAlive s1 pid = true
  /\ (forall q, q <> pid -> JsMap.get (players s1) q = JsMap.get (players s) q)
  /\ deadPlayers s1 = deadPlayers s
  /\ (roles_known s -> ~ In pid (JsMap.keys (players s)) ->
      snd (removePlayer pid s1) = s).
Proof.
  intros s1. subst s1. simpl.
  split; [apply JsMapFacts.get_set_same|].
  split; [unfold isPlayerAlive; simpl; now rewrite JsMapFacts.get_set_same|].
  split; [intros q Hq; apply JsMapFacts.get_set_other; congruence|].
  split; [reflexivity|].
  intros Hk Hfresh. unfold removePlayer, modify, set_roles, set_players. simpl.
  rewrite delete_set_fresh by assumption.
  rewrite delete_absent.
  - destruct s; reflexivity.
  - intros Hin. apply Hfresh. now apply (proj1 (roles_known_keys s) Hk).
Qed.

Lemma addPlayer_lookup_and_removal_witness :
  roles_known human_seer_night
  /\ ~ In "ai_7" (JsMap.keys (players human_seer_night))
  /\ snd (removePlayer "ai_7" (snd (addPlayer "ai_7" true None human_seer_night)))
     = human_seer_night.
Proof.
  assert (H1 : roles_known human_seer_night).
  { intros pid r Hin. simpl in Hin.
    repeat (destruct Hin as [Hin|Hin]; [injection Hin as <- _; simpl; tauto|]).
    destruct Hin. }
  assert (H2 : ~ In "ai_7" (JsMap.keys (players human_seer_night))).
  { simpl. intros H.
    repeat (destruct H as [H|H]; [discriminate|]). destruct H. }
  split; [exact H1|]. split; [exact H2|].
  apply (addPlayer_lookup_and_removal "ai_7" true None human_seer_night);
    assumption.
Defined.

(** ** Killing *)

Lemma mark_dead_twice p : mark_dead (mark_dead p) = mark_dead p.
Proof. reflexivity. Qed.

Lemma killPlayer_known pid s p :
  JsMap.get (players s) pid = Some p ->
  killPlayer pid s
  = (Normal tt,
     set_emitted (emitted s ++ [playerDied pid])
       (set_deadPlayers (JsSet.add (deadPlayers s) pid)
          (set_players (JsMap.set (players s) pid (mark_dead p)) s))).
Proof. intros H. unfold killPlayer. rewrite H. reflexivity. Qed.

Lemma killPlayer_unknown pid s :
  JsMap.get (players s) pid = None -> killPlayer pid s = (Normal tt, s).
Proof. intros H. unfold killPlayer. now rewrite H. Qed.

(** [killPlayer] does nothing at all for an id that is not on the roster.
    For a roster player it clears [isAlive], touches no other player, puts
    the id in the death set without repeating it, and emits playerDied; a
    second kill of the same player changes neither roster nor death set
    but emits playerDied again. *)
Theorem killPlayer_effects (pid : string) (s : GameState) :
  let s1 := snd (killPlayer pid s) in
  let s2 := snd (killPlayer pid s1) in
  fst (killPlayer pid s) = Normal tt
  /\ (JsMap.get (players s) pid = None -> s1 = s)
  /\ (JsMap.get (players s) pid <> None ->
      isPlayerAlive s1 pid = false
      /\ (forall q, q <> pid ->
            JsMap.get (players s1) q = JsMap.get (players s) q)
      /\ JsMap.keys (players s1) = JsMap.keys (players s)
      /\ (forall d, In d (deadPlayers s1) <-> In d (deadPlayers s) \/ d = pid)
      /\ (NoDup (deadPlayers s) -> NoDup (deadPlayers s1))
      /\ new_events s s1 = [playerDied pid]
      /\ players s2 = players s1
      /\ deadPlayers s2 = deadPlayers s1
      /\ new_events s1 s2 = [playerDied pid])
  /\ roles s1 = roles s
  /\ votes s1 = votes s
  /\ phase s1 = phase s.
Proof.
  intros s1 s2. subst s2 s1.
  destruct (JsMap.get (players s) pid) as [p|] eqn:E.
  - rewrite (killPlayer_known pid s p E). cbn [fst snd].
    set (s1 := set_emitted _ _).
    assert (Hg : JsMap.get (players s1) pid = Some (mark_dead p))
      by apply JsMapFacts.get_set_same.
    rewrite (killPlayer_known pid s1 (mark_dead p) Hg). cbn [fst snd].
    split; [reflexivity|]. split; [discriminate|].
    split; [|repeat split].
    intros _.
    split; [unfold isPlayerAlive; now rewrite Hg|].
    split; [intros q Hq; apply JsMapFacts.get_set_other; congruence|].
    split.
    { apply JsMapFacts.keys_set_in. apply JsMapFacts.get_some_in in E.
      unfold JsMap.keys. change pid with (fst (pid, p)). now apply in_map. }
    split; [intros d; apply jsset_add_In|].
    split; [apply jsset_add_NoDup|].
    split; [now apply new_events_app|].
    split; [|split].
    + subst s1. simpl. now rewrite set_set.
    + subst s1. simpl. apply jsset_add_twice.
    + now apply new_events_app.
  - unfold killPlayer. rewrite E. cbn [fst snd]. rewrite E.
    split; [reflexivity|]. split; [reflexivity|].
    split; [congruence|]. repeat split.
Qed.

Lemma killPlayer_effects_witness :
  JsMap.get (players human_seer_night) "ai_5" <> None
  /\ JsMap.get (players human_seer_night) "nobody" = None
  /\ isPlayerAlive (snd (killPlayer "ai_5" human_seer_night)) "ai_5" = false
  /\ snd (killPlayer "nobody" human_seer_night) = human_seer_night.
Proof.
  destruct (killPlayer_effects "ai_5" human_seer_night) as (_ & _ & Hk & _).
  destruct (killPlayer_effects "nobody" human_seer_night) as (_ & Hn & _).
  split; [discriminate|]. split; [reflexivity|].
  split; [apply Hk; discriminate | apply Hn; reflexivity].
Defined.

(** ** Resolving any ballot *)

Lemma processVotes_run depth s :
  processVotes depth s
  = afterVotes depth (set_votes JsMap.empty (after_elimination s)).
Proof.
  unfold processVotes, after_elimination. rewrite bind_gets.
  destruct (snd (mostVoted (countVotes (votes s)))) as [w|]; [|reflexivity].
  destruct (truthy (Some w)); [|reflexivity].
  unfold bind at 1. unfold bind at 1.
  unfold killPlayer. destruct (JsMap.get (players s) w); reflexivity.
Qed.

Lemma processVotes_tail depth s :
  phase_step (set_votes JsMap.empty (after_elimination s))
    (snd (processVotes depth s)).
Proof.
  rewrite processVotes_run.
  destruct (afterVotes depth (set_votes JsMap.empty (after_elimination s)))
    as [c s'] eqn:E.
  apply (preserves_afterVotes depth _ _ _ E).
Qed.

Lemma isPlayerAlive_after_kill w s q :
  isPlayerAlive s q = false ->
  isPlayerAlive (snd (killPlayer w s)) q = false.
Proof.
  intros H. destruct (JsMap.get (players s) w) as [p|] eqn:E.
  - rewrite (killPlayer_known w s p E). unfold isPlayerAlive in *. simpl.
    destruct (String.eqb_spec w q) as [->|Hne].
    + now rewrite JsMapFacts.get_set_same.
    + now rewrite JsMapFacts.get_set_other.
  - now rewrite (killPlayer_unknown w s E).
Qed.

(** Whatever the ballot holds, [processVotes] leaves it empty, keeps the
    ids of the roster and the roles, brings nobody back to life, and
    reports at most one death and at most one elimination; who dies has
    been reported eliminated, is not alive afterwards and is the
    plurality winner of the ballot. *)
Theorem processVotes_at_most_one_death (depth : nat) (s : GameState) :
  let s' := snd (processVotes depth s) in
  votes s' = JsMap.empty
  /\ JsMap.keys (players s') = JsMap.keys (players s)
  /\ roles s' = roles s
  /\ (forall q, isPlayerAlive s q = false -> isPlayerAlive s' q = false)
  /\ length (deaths (new_events s s')) <= 1
  /\ length (eliminations (new_events s s')) <= 1
  /\ (forall w, In w (deaths (new_events s s')) ->
        eliminations (new_events s s') = [w]
        /\ isPlayerAlive s' w = false
        /\ plurality_winner (votes s) w).
Proof.
  intros s'. pose proof (processVotes_tail depth s) as Hstep. fold s' in Hstep.
  destruct Hstep as [Hpl Hro _ Hvo (evs & He & Hq)]. simpl in *.
  apply quiet_no_casualties in Hq as [Hq1 Hq2].
  split; [exact Hvo|].
  unfold after_elimination in *.
  destruct (snd (mostVoted (countVotes (votes s)))) as [w|] eqn:Hw.
  2:{ rewrite (new_events_app s s' evs He), Hq1, Hq2, Hpl, Hro.
      split; [reflexivity|]. split; [reflexivity|].
      split; [intros q Hq; unfold isPlayerAlive; now rewrite Hpl|].
      split; [simpl; lia|]. split; [simpl; lia|]. intros w0 []. }
  destruct (truthy (Some w)) eqn:Ht.
  2:{ rewrite (new_events_app s s' evs He), Hq1, Hq2, Hpl, Hro.
      split; [reflexivity|]. split; [reflexivity|].
      split; [intros q Hq; unfold isPlayerAlive; now rewrite Hpl|].
      split; [simpl; lia|]. split; [simpl; lia|]. intros w0 []. }
  simpl in *.
  assert (Hplur : plurality_winner (votes s) w).
  { destruct (votes s) as [|e vs] eqn:Hvs; [discriminate|].
    destruct (mostVoted_winner (e :: vs)) as (w' & Hw' & Hp'); [discriminate|].
    congruence. }
  destruct (JsMap.get (players s) w) as [p|] eqn:Hp.
  - rewrite (killPlayer_known w s p Hp) in *. simpl in *.
    assert (Hev : new_events s s' = [playerDied w; playerEliminated w] ++ evs).
    { apply new_events_app. rewrite He. now rewrite <- !app_assoc. }
    rewrite Hev, deaths_app, eliminations_app, Hq1, Hq2, Hpl, Hro. simpl.
    split.
    { apply JsMapFacts.keys_set_in. apply JsMapFacts.get_some_in in Hp.
      unfold JsMap.keys. change w with (fst (w, p)). now apply in_map. }
    split; [reflexivity|]. split.
    { intros q Hq. unfold isPlayerAlive in *. rewrite Hpl.
      destruct (String.eqb_spec w q) as [->|Hne].
      - now rewrite JsMapFacts.get_set_same.
      - now rewrite JsMapFacts.get_set_other. }
    split; [lia|]. split; [lia|].
    intros w0 [<-|[]]. split; [reflexivity|]. split; [|exact Hplur].
    unfold isPlayerAlive. now rewrite Hpl, JsMapFacts.get_set_same.
  - rewrite (killPlayer_unknown w s Hp) in *. simpl in *.
    assert (Hev : new_events s s' = [playerEliminated w] ++ evs).
    { apply new_events_app. rewrite He. now rewrite <- !app_assoc. }
    rewrite Hev, deaths_app, eliminations_app, Hq1, Hq2, Hpl, Hro. simpl.
    split; [reflexivity|]. split; [reflexivity|].
    split; [intros q Hq; unfold isPlayerAlive; now rewrite Hpl|].
    split; [lia|]. split; [lia|]. intros w0 [].
Qed.

(** [vote] does not check the target.  When the winner of a non-empty
    ballot is an id that is not on the roster, [processVotes] reports the
    elimination of that id although nobody dies and roster and death set
    stay as they were; when the winner is the empty string, which is
    falsy, nothing is reported at all. *)
Theorem processVotes_winner_off_roster (depth : nat) (s : GameState) :
  votes s <> [] ->
  let s' := snd (processVotes depth s) in
  exists w,
    plurality_winner (votes s) w
    /\ (w = "" ->
        players s' = players s /\ deadPlayers s' = deadPlayers s
        /\ deaths (new_events s s') = []
        /\ eliminations (new_events s s') = [])
    /\ (w <> "" -> JsMap.get (players s) w = None ->
        players s' = players s /\ deadPlayers s' = deadPlayers s
        /\ deaths (new_events s s') = []
        /\ eliminations (new_events s s') = [w]).
Proof.
  intros Hne s'. pose proof (processVotes_tail depth s) as Hstep.
  fold s' in Hstep.
  destruct Hstep as [Hpl _ Hd _ (evs & He & Hq)]. simpl in *.
  apply quiet_no_casualties in Hq as [Hq1 Hq2].
  destruct (mostVoted_winner (votes s) Hne) as (w & Hw & Hplur).
  exists w. split; [exact Hplur|].
  unfold after_elimination in *. rewrite Hw in *. split.
  - intros ->. simpl in *.
    rewrite (new_events_app s s' evs He). auto.
  - intros Hnz Hp.
    assert (Ht : truthy (Some w) = true)
      by (simpl; apply negb_true_iff; now apply String.eqb_neq).
    rewrite Ht in *. rewrite (killPlayer_unknown w s Hp) in *. simpl in *.
    assert (Hev : new_events s s' = [playerEliminated w] ++ evs).
    { apply new_events_app. rewrite He. now rewrite <- !app_assoc. }
    rewrite Hev, deaths_app, eliminations_app, Hq1, Hq2. auto.
Qed.

Lemma processVotes_winner_off_roster_witness :
  votes stray_ballot <> []
  /\ exists w,
       plurality_winner (votes stray_ballot) w
       /\ (w <> "" -> JsMap.get (players stray_ballot) w = None ->
           players (snd (processVotes 1 stray_ballot)) = players stray_ballot
           /\ eliminations
                (new_events stray_ballot (snd (processVotes 1 stray_ballot)))
              = [w]).
Proof.
  assert (H : votes stray_ballot <> []) by discriminate.
  split; [exact H|].
  destruct (processVotes_winner_off_roster 1 stray_ballot H)
    as (w & Hp & _ & Hoff).
  exists w. split; [exact Hp|].
  intros H1 H2. destruct (Hoff H1 H2) as (Ha & _ & _ & Hb). now split.
Defined.

(** ** The night without werewolves *)

Lemma no_living_werewolf_entries s :
  roster_ok s ->
  livingWerewolves s = 0 ->
  filter (fun e => andb (is_role werewolf (snd e)) (isPlayerAlive s (fst e)))
    (roles s) = [].
Proof.
  intros (Hp & Hr & Hk) Hz.
  destruct (filter _ (roles s)) as [|[pid ro] rest] eqn:E; [reflexivity|].
  exfalso.
  assert (Hin : In (pid, ro)
                  (filter (fun e => is_role werewolf (snd e)
                                    && isPlayerAlive s (fst e)) (roles s)))
    by (rewrite E; now left).
  apply filter_In in Hin as [Hin Hc]. simpl in Hc.
  apply andb_prop in Hc as [Hrole Halive].
  unfold livingWerewolves in Hz.
  apply (livingIds_alive s pid Hp) in Halive.
  unfold livingIds in Halive. apply in_map_iff in Halive as ([k p] & Ek & Hl).
  simpl in Ek. subst k.
  assert (In (pid, p)
            (filter (fun e => is_role werewolf (getPlayerRole s (fst e)))
               (livingEntries s))) as Hf.
  { apply filter_In. split; [exact Hl|]. simpl. unfold getPlayerRole.
    now rewrite (JsMapFacts.in_get _ _ _ Hr Hin). }
  destruct (filter _ (livingEntries s)); [destruct Hf | discriminate].
Qed.

Lemma startNight_idle_frames depth : forall s,
  roles_known s ->
  filter (fun e => andb (is_role werewolf (snd e)) (isPlayerAlive s (fst e)))
    (roles s) = [] ->
  exists s',
    startNight depth s = (Throw stack_overflow, s')
    /\ emitted s' = emitted s ++ concat (repeat (idle_night s) (S depth))
    /\ players s' = players s /\ roles s' = roles s
    /\ deadPlayers s' = deadPlayers s /\ votes s' = votes s.
Proof.
  induction depth as [|d IH]; intros s Hk Hnone.
  - eexists. unfold startNight, startNight_with, processWerewolves_with.
    rewrite !bind_modify, bind_gets, bind_emit, bind_gets.
    erewrite bind_normal;
      [|apply filterM_role_and_alive; exact Hk].
    simpl isPlayerAlive.
    change (filter _ _) with
      (filter (fun e => is_role werewolf (snd e) && isPlayerAlive s (fst e))
         (roles s)).
    rewrite Hnone. simpl map. rewrite bind_modify, bind_emit.
    split; [reflexivity|]. simpl. rewrite <- app_assoc.
    repeat split; reflexivity.
  - unfold startNight, startNight_with, processWerewolves_with.
    rewrite !bind_modify, bind_gets, bind_emit, bind_gets.
    erewrite bind_normal;
      [|apply filterM_role_and_alive; exact Hk].
    change (filter _ _) with
      (filter (fun e => is_role werewolf (snd e) && isPlayerAlive s (fst e))
         (roles s)).
    rewrite Hnone. simpl map. rewrite bind_modify, bind_emit.
    set (s2 := set_emitted _ _).
    change (processNextSpeaker (S d) s2)
      with (processAllPlayersSpoken_with (processNextSpeaker d) s2).
    unfold processAllPlayersSpoken_with. rewrite bind_modify.
    destruct (IH (set_phase night s2) Hk Hnone)
      as (s' & Hrun & He & Hp & Hr & Hd & Hv).
    exists s'. split; [exact Hrun|].
    split; [|repeat split; assumption].
    rewrite He. subst s2. simpl. rewrite <- !app_assoc. reflexivity.
Qed.

(** With no living werewolf, [startNight] never comes back: the empty
    queue sends [processNextSpeaker] to [processAllPlayersSpoken] and from
    there to [startNight] again, until the call stack is exhausted.  Every
    frame emits nightStarted and werewolvesPhaseStarted with no werewolf;
    roster, roles, death set and ballot are untouched. *)
Theorem startNight_without_werewolves_overflows (depth : nat) (s : GameState) :
  roster_ok s ->
  livingWerewolves s = 0 ->
  let s' := snd (startNight depth s) in
  fst (startNight depth s) = Throw stack_overflow
  /\ new_events s s' = concat (repeat (idle_night s) (S depth))
  /\ players s' = players s
  /\ deadPlayers s' = deadPlayers s
  /\ votes s' = votes s.
Proof.
  intros Hok Hz s'.
  destruct (startNight_idle_frames depth s (proj2 (proj2 Hok))
              (no_living_werewolf_entries s Hok Hz))
    as (s1 & Hrun & He & Hp & _ & Hd & Hv).
  subst s'. rewrite Hrun. simpl.
  split; [reflexivity|]. split; [now apply new_events_app|]. auto.
Qed.

Lemma startNight_without_werewolves_overflows_witness :
  roster_ok wolves_gone
  /\ livingWerewolves wolves_gone = 0
  /\ fst (startNight 3 wolves_gone) = Throw stack_overflow
  /\ length (new_events wolves_gone (snd (startNight 3 wolves_gone))) = 8.
Proof.
  assert (H1 : roster_ok wolves_gone).
  { split; [apply distinct_NoDup; reflexivity|].
    split; [apply distinct_NoDup; reflexivity|].
    intros pid r [E|[E|[]]]; injection E as <- _; simpl; tauto. }
  assert (H2 : livingWerewolves wolves_gone = 0) by reflexivity.
  destruct (startNight_without_werewolves_overflows 3 wolves_gone H1 H2)
    as (Ha & Hb & _).
  split; [exact H1|]. split; [exact H2|]. split; [exact Ha|].
  rewrite Hb. reflexivity.
Defined.

(** ** The order of the night *)

Lemma findM_role_and_alive r rs s :
  (forall pid ro, In (pid, ro) rs -> In pid (JsMap.keys (players s))) ->
  findM (role_and_alive r) rs s
  = (Normal (find (fun e => andb (is_role r (snd e)) (isPlayerAlive s (fst e))) rs),
     s).
Proof.
  induction rs as [|[pid ro] rs IH]; intros H; [reflexivity|].
  simpl findM.
  rewrite (bind_normal _ _ _ _ _
             (role_and_alive_known r (pid, ro) s (H pid ro (or_introl eq_refl)))).
  simpl. destruct (is_role r ro && isPlayerAlive s pid); [reflexivity|].
  apply IH. intros p q Hin. apply (H p q). now right.
Qed.

Lemma startDay_run s :
  startDay s
  = (Throw (TypeError "this.announceDeaths is not a function"), day_broken s).
Proof. reflexivity. Qed.

Lemma processWitch_run s :
  roles_known s ->
  processWitch s
  = match first_living witch s with
    | Some e =>
        (Normal tt,
         set_emitted (emitted s ++ [witchPhaseStarted (fst e)])
           (set_currentSpeaker (Some (fst e)) s))
    | None =>
        (Throw (TypeError "this.announceDeaths is not a function"), day_broken s)
    end.
Proof.
  intros Hk. unfold processWitch, first_living. rewrite bind_gets.
  rewrite (bind_normal _ _ _ _ _ (findM_role_and_alive witch (roles s) s Hk)).
  destruct (find _ (roles s)); reflexivity.
Qed.

(** The night after the werewolves: [processSeer] calls the first living
    seer of the role map if there is one, otherwise the first living
    witch, and calls nobody else; a role nobody alive holds is skipped.
    When neither is alive it goes on to [startDay], which counts the day,
    emits dayStarted and then fails with the TypeError of the undefined
    [announceDeaths]. *)
Theorem processSeer_night_order (s : GameState) :
  roles_known s ->
  processSeer s
  = match first_living seer s, first_living witch s with
    | Some e, _ =>
        (Normal tt,
         set_emitted (emitted s ++ [seerPhaseStarted (fst e)])
           (set_currentSpeaker (Some (fst e)) s))
    | None, Some e =>
        (Normal tt,
         set_emitted (emitted s ++ [witchPhaseStarted (fst e)])
           (set_currentSpeaker (Some (fst e)) s))
    | None, None =>
        (Throw (TypeError "this.announceDeaths is not a function"),
         day_broken s)
    end.
Proof.
  intros Hk. unfold processSeer. rewrite bind_gets.
  rewrite (bind_normal _ _ _ _ _ (findM_role_and_alive seer (roles s) s Hk)).
  fold (first_living seer s).
  destruct (first_living seer s); [reflexivity|].
  now apply processWitch_run.
Qed.

Lemma processSeer_night_order_witness :
  roles_known human_seer_night
  /\ first_living seer human_seer_night = Some ("human", Some seer)
  /\ fst (processSeer human_seer_night) = Normal tt
  /\ roles_known wolves_gone
  /\ fst (processSeer wolves_gone)
     = Throw (TypeError "this.announceDeaths is not a function").
Proof.
  assert (H1 : roles_known human_seer_night).
  { intros pid r Hin. simpl in Hin.
    repeat (destruct Hin as [Hin|Hin]; [injection Hin as <- _; simpl; tauto|]).
    destruct Hin. }
  assert (H2 : roles_known wolves_gone).
  { intros pid r [E|[E|[]]]; injection E as <- _; simpl; tauto. }
  split; [exact H1|]. split; [reflexivity|].
  split; [rewrite (processSeer_night_order _ H1); reflexivity|].
  split; [exact H2|].
  rewrite (processSeer_night_order _ H2). reflexivity.
Defined.

(** ** Counting the living *)

Lemma filter_split_length {A} (f : A -> bool) (l : list A) :
  length (filter f l) + length (filter (fun x => negb (f x)) l) = length l.
Proof.
  induction l as [|x l IH]; simpl; auto.
  destruct (f x); simpl; lia.
Qed.

(** The two counts of [checkGameEnd] split the living players: a living
    player without a role counts as a villager.  Hence the game goes on
    only while at least two players are alive, and with at most one
    living player [checkGameEnd] always ends the game. *)
Theorem living_counts_split (s : GameState) :
  livingWerewolves s + livingVillagers s = length (livingIds s)
  /\ (forall pid p,
        In (pid, p) (livingEntries s) -> getPlayerRole s pid = None ->
        0 < livingVillagers s)
  /\ (fst (checkGameEnd s) = Normal false -> 2 <= length (livingIds s))
  /\ (length (livingIds s) <= 1 -> fst (checkGameEnd s) = Normal true).
Proof.
  assert (Hsplit : livingWerewolves s + livingVillagers s = length (livingIds s)).
  { unfold livingWerewolves, livingVillagers, livingIds.
    rewrite length_map. apply filter_split_length. }
  split; [exact Hsplit|]. split.
  { intros pid p Hin Hno. unfold livingVillagers.
    assert (In (pid, p)
              (filter (fun e => negb (is_role werewolf (getPlayerRole s (fst e))))
                 (livingEntries s))) as Hf.
    { apply filter_In. split; auto. simpl. now rewrite Hno. }
    destruct (filter _ (livingEntries s)); [destruct Hf | simpl; lia]. }
  rewrite checkGameEnd_cases.
  destruct (Nat.eqb_spec (livingWerewolves s) 0) as [Hw|Hw];
    [|destruct (Nat.eqb_spec (livingVillagers s) 0) as [Hv|Hv]]; simpl.
  - split; [discriminate | reflexivity].
  - split; [discriminate | reflexivity].
  - split; [intros _; lia | intros; lia].
Qed.

Lemma living_counts_split_witness :
  length (livingIds wolves_won) <= 1
  /\ fst (checkGameEnd wolves_won) = Normal true
  /\ fst (checkGameEnd speakers_waiting) = Normal false
  /\ 2 <= length (livingIds speakers_waiting).
Proof.
  destruct (living_counts_split wolves_won) as (_ & _ & _ & H1).
  destruct (living_counts_split speakers_waiting) as (_ & _ & H2 & _).
  assert (Hl : length (livingIds wolves_won) <= 1) by (simpl; lia).
  split; [exact Hl|]. split; [exact (H1 Hl)|].
  split; [reflexivity | exact (H2 eq_refl)].
Defined.

(** ** A day ballot never fails *)






(** ** Voting while every voter is alive *)

Lemma alive_in_livingIds s v p :
  JsMap.wf (players s) ->
  JsMap.get (players s) v = Some p -> isAlive p = true ->
  In v (livingIds s).
Proof.
  intros Hwf Hp Ha. apply livingIds_alive; auto.
  unfold isPlayerAlive. now rewrite Hp.
Qed.

(** As long as every recorded voter is alive, a living voter's [vote]
    resolves the round exactly when, with this vote, every living player
    has voted, and otherwise only records the vote; either way every
    recorded voter is alive afterwards, so the same holds for the next
    vote. *)
Theorem vote_resolves_when_all_living_voted
  (depth : nat) (voterId targetId : string) (s : GameState) (p : Player) :
  JsMap.wf (players s) ->
  JsMap.wf (votes s) ->
  ballot_fresh s ->
  JsMap.get (players s) voterId = Some p ->
  isAlive p = true ->
  let s1 := vote_recorded voterId targetId s in
  ((forall pid, In pid (livingIds s) -> In pid (JsMap.keys (votes s1))) ->
   vote depth voterId targetId s = processVotes depth s1)
  /\ (forall pid, In pid (livingIds s) -> ~ In pid (JsMap.keys (votes s1)) ->
      vote depth voterId targetId s = (Normal tt, s1))
  /\ ballot_fresh (snd (vote depth voterId targetId s))
  /\ JsMap.wf (votes (snd (vote depth voterId targetId s))).
Proof.
  intros Hwp Hwv Hfresh Hp Ha s1.
  destruct (vote_records_then_compares_counts depth voterId targetId s p Hp Ha)
    as (_ & _ & Hrun).
  fold (vote_recorded voterId targetId s) in Hrun. fold s1 in Hrun.
  assert (Hwv1 : JsMap.wf (votes s1)) by (now apply JsMapFacts.wf_set).
  assert (Hfresh1 : ballot_fresh s1).
  { intros v Hv. change (livingIds s1) with (livingIds s).
    apply keys_set_iff in Hv as [Hv| ->]; [now apply Hfresh|].
    eapply alive_in_livingIds; eauto. }
  pose proof (count_test_when_voters_alive s1 Hwp Hwv1 Hfresh1) as Hcount.
  change (livingIds s1) with (livingIds s) in *.
  split; [|split].
  - intros Hall. rewrite Hrun.
    destruct (Nat.eqb_spec (length (JsMap.keys (votes s1))) (length (livingIds s)));
      [reflexivity|].
    exfalso. apply n. now apply Hcount.
  - intros pid Hliving Hnot. rewrite Hrun.
    destruct (Nat.eqb_spec (length (JsMap.keys (votes s1))) (length (livingIds s)))
      as [Heq|]; [|reflexivity].
    exfalso. apply Hnot. now apply (proj1 Hcount Heq).
  - rewrite Hrun.
    destruct (length (JsMap.keys (votes s1)) =? length (livingIds s))%nat.
    + destruct (processVotes_tail depth s1) as [_ _ _ Hv _]. simpl in Hv.
      split; [intros v Hin; rewrite Hv in Hin; destruct Hin|].
      rewrite Hv. constructor.
    + split; assumption.
Qed.

Lemma vote_resolves_when_all_living_voted_witness :
  JsMap.wf (players speakers_waiting)
  /\ JsMap.wf (votes speakers_waiting)
  /\ ballot_fresh speakers_waiting
  /\ vote 1 "a" "w" speakers_waiting
     = (Normal tt, vote_recorded "a" "w" speakers_waiting).
Proof.
  assert (H1 : JsMap.wf (players speakers_waiting))
    by (apply distinct_NoDup; reflexivity).
  assert (H2 : JsMap.wf (votes speakers_waiting)) by constructor.
  assert (H3 : ballot_fresh speakers_waiting) by (intros v []).
  split; [exact H1|]. split; [exact H2|]. split; [exact H3|].
  destruct (vote_resolves_when_all_living_voted 1 "a" "w" speakers_waiting
              (snd (seat "a" true true)) H1 H2 H3 eq_refl eq_refl)
    as (_ & Hrec & _).
  apply (Hrec "b").
  - simpl. tauto.
  - simpl. intros [H|[]]. discriminate.
Defined.

(** ** The census of roles *)

Lemma filter_repeat {A} (f : A -> bool) (x : A) (n : nat) :
  filter f (repeat x n) = if f x then repeat x n else [].
Proof.
  induction n as [|n IH]; simpl; [now destruct (f x)|].
  rewrite IH. now destruct (f x).
Qed.

Lemma perm_filter_length {A} (f : A -> bool) (l l' : list A) :
  Permutation l l' -> length (filter f l) = length (filter f l').
Proof.
  induction 1; simpl; auto.
  - destruct (f x); simpl; auto.
  - destruct (f x), (f y); reflexivity.
  - congruence.
Qed.

Lemma filter_map_length {A B} (f : B -> bool) (g : A -> B) (l : list A) :
  length (filter (fun x => f (g x)) l) = length (filter f (map g l)).
Proof.
  induction l as [|x l IH]; simpl; auto.
  destruct (f (g x)); simpl; auto.
Qed.

Lemma poolList_count (r : Role) (n : Z) :
  (0 <= n)%Z ->
  length (filter (fun x => Role_eqb x r) (poolList n))
  = Z.to_nat (role_count r n).
Proof.
  intros Hn. unfold poolList.
  rewrite !filter_app, !length_app, !filter_repeat.
  destruct r; simpl; rewrite ?repeat_length; lia.
Qed.

Lemma assigned_roles_shuffled rnd s :
  JsMap.wf (players s) ->
  map (getPlayerRole (snd (assignRoles rnd s))) (JsMap.keys (players s))
  = map Some (shuffle rnd (poolList (Z.of_nat (JsMap.size (players s))))).
Proof.
  intros Hwf. rewrite assignRoles_run. cbn [snd].
  assert (Hk : length (JsMap.keys (players s)) = JsMap.size (players s))
    by apply length_map.
  rewrite Hk. set (n := Z.of_nat (JsMap.size (players s))).
  assert (H0 : (0 <= n)%Z) by (subst n; lia).
  pose proof (shuffle_perm rnd (poolList n)) as Hperm.
  pose proof (poolList_length n H0) as Hlen.
  assert (Hl : length (shuffle rnd (poolList n)) = JsMap.size (players s)).
  { rewrite (Permutation_length Hperm). subst n. lia. }
  unfold getPlayerRole. cbn [roles set_roles].
  rewrite assign_each_roles; [| exact Hwf | rewrite Hk; lia].
  rewrite Hk. simpl. rewrite <- Hl. now rewrite firstn_all.
Qed.

Lemma census_after_assignRoles rnd s r :
  JsMap.wf (players s) ->
  census r (snd (assignRoles rnd s))
  = Z.to_nat (role_count r (Z.of_nat (JsMap.size (players s)))).
Proof.
  intros Hwf. unfold census.
  assert (Hp : players (snd (assignRoles rnd s)) = players s)
    by (rewrite assignRoles_run; reflexivity).
  rewrite Hp.
  rewrite (filter_map_length (is_role r) (getPlayerRole (snd (assignRoles rnd s)))).
  rewrite (assigned_roles_shuffled rnd s Hwf).
  rewrite <- (filter_map_length (is_role r) Some). simpl.
  rewrite (perm_filter_length _ _ _ (shuffle_perm rnd _)).
  apply poolList_count. lia.
Qed.

(** [assignRoles] never fails, whatever the size of the roster (the
    villager count cannot be negative), and hands out exactly the computed
    number of each role: among the players, ceil(N/3) are werewolves, and
    so on for the other roles; every player ends up with a role. *)
Theorem assignRoles_census (rnd : nat -> nat) (s : GameState) :
  JsMap.wf (players s) ->
  let n := Z.of_nat (JsMap.size (players s)) in
  let s' := snd (assignRoles rnd s) in
  fst (assignRoles rnd s) = Normal tt
  /\ (forall r, census r s' = Z.to_nat (role_count r n))
  /\ (census werewolf s' + census villager s' + census seer s'
      + census witch s' + census hunter s' = JsMap.size (players s))
  /\ (forall pid, In pid (JsMap.keys (players s)) ->
        getPlayerRole s' pid <> None).
Proof.
  intros Hwf n s'.
  assert (H0 : (0 <= n)%Z) by (subst n; lia).
  split; [rewrite assignRoles_run; reflexivity|].
  split; [intros r; now apply census_after_assignRoles|]. split.
  - subst s'. rewrite !census_after_assignRoles by assumption.
    fold n. simpl role_count.
    pose proof (role_counts_sum n). pose proof (numVillagers_nonneg n H0).
    pose proof (numWerewolves_nonneg n H0).
    assert (0 <= numSeers n)%Z by (unfold numSeers; destruct (6 <=? n)%Z; lia).
    assert (0 <= numWitches n)%Z by (unfold numWitches; destruct (6 <=? n)%Z; lia).
    assert (0 <= numHunters n)%Z by (unfold numHunters; destruct (9 <=? n)%Z; lia).
    subst n. lia.
  - intros pid Hin Hnone.
    assert (In (getPlayerRole s' pid)
              (map (getPlayerRole s') (JsMap.keys (players s))))
      by (now apply in_map).
    subst s'. rewrite (assigned_roles_shuffled rnd s Hwf), Hnone in H.
    apply in_map_iff in H as (x & Hx & _). discriminate.
Qed.

Lemma assignRoles_census_witness :
  JsMap.wf (players lobby2)
  /\ census werewolf (snd (assignRoles sample_rnd lobby2)) = 1
  /\ census villager (snd (assignRoles sample_rnd lobby2)) = 1
  /\ census hunter (snd (assignRoles sample_rnd lobby7)) = 0.
Proof.
  assert (H2 : JsMap.wf (players lobby2)) by (apply distinct_NoDup; reflexivity).
  assert (H7 : JsMap.wf (players lobby7)) by (apply distinct_NoDup; reflexivity).
  destruct (assignRoles_census sample_rnd lobby2 H2) as (_ & Ha & _).
  destruct (assignRoles_census sample_rnd lobby7 H7) as (_ & Hb & _).
  split; [exact H2|].
  split; [rewrite Ha; reflexivity|].
  split; [rewrite Ha; reflexivity | rewrite Hb; reflexivity].
Defined.

(** ** Starting the game *)

Lemma startGame_run rnd depth s first rest :
  3 <= JsMap.size (players s) ->
  livingIds s = first :: rest ->
  startGame rnd (S depth) s
  = (Normal tt,
     set_emitted
       (emitted s ++ [gameStarted_ev; policeElectionStarted; nextSpeaker first])
       (set_currentSpeaker (Some first)
          (set_speakQueue rest
             (set_phase policeElection
                (set_isNight false
                   (set_currentDay 1
                      (set_roles (roles (snd (assignRoles rnd s)))
                         (set_gameStarted true s))))))))  .
Proof.
  intros Hge Hliving. unfold startGame. rewrite bind_gets.
  destruct (Nat.ltb_spec (JsMap.size (players s)) 3); [lia|].
  rewrite bind_modify.
  rewrite (bind_normal _ _ _ _ _ (assignRoles_run rnd (set_gameStarted true s))).
  rewrite !bind_modify, bind_emit.
  unfold startPoliceElection. rewrite !bind_modify, bind_emit.
  set (s1 := set_emitted _ _).
  assert (Hq : speakQueue s1 = first :: rest).
  { subst s1. cbn [speakQueue set_emitted set_speakQueue].
    rewrite <- Hliving. reflexivity. }
  rewrite (processNextSpeaker_pop depth s1 first rest Hq).
  rewrite (assignRoles_run rnd s). subst s1. cbn.
  rewrite <- !app_assoc. reflexivity.
Qed.

(** [GameState.startGame] refuses fewer than three players and changes
    nothing then.  With three or more and somebody alive it returns
    normally with the game at the police election of day 1 (it passes
    through the day phase without stopping there): the first living
    player of the roster is the current speaker, the others wait in the
    queue in roster order, and gameStarted, policeElectionStarted and
    nextSpeaker are emitted in this order. *)
Theorem startGame_opens_police_election
  (rnd : nat -> nat) (depth : nat) (s : GameState) :
  (JsMap.size (players s) < 3 ->
   startGame rnd depth s
   = (Throw (PlainError "Not enough players to start the game"), s))
  /\ (3 <= JsMap.size (players s) ->
      forall first rest,
        livingIds s = first :: rest ->
        let s' := snd (startGame rnd (S depth) s) in
        fst (startGame rnd (S depth) s) = Normal tt
        /\ phase s' = policeElection
        /\ currentDay s' = 1
        /\ isNight s' = false
        /\ gameStarted s' = true
        /\ currentSpeaker s' = Some first
        /\ speakQueue s' = rest
        /\ players s' = players s
        /\ roles s' = roles (snd (assignRoles rnd s))
        /\ new_events s s'
           = [gameStarted_ev; policeElectionStarted; nextSpeaker first]).
Proof.
  split.
  - intros Hlt. unfold startGame. rewrite bind_gets.
    destruct (Nat.ltb_spec (JsMap.size (players s)) 3); [reflexivity | lia].
  - intros Hge first rest Hliving s'. subst s'.
    rewrite (startGame_run rnd depth s first rest Hge Hliving).
    cbn [fst snd]. split; [reflexivity|].
    repeat (split; [reflexivity|]).
    now apply new_events_app.
Qed.

Lemma startGame_opens_police_election_witness :
  JsMap.size (players lobby2) < 3
  /\ startGame sample_rnd 1 lobby2
     = (Throw (PlainError "Not enough players to start the game"), lobby2)
  /\ 3 <= JsMap.size (players lobby7)
  /\ currentSpeaker (snd (startGame sample_rnd 1 lobby7)) = Some "human"
  /\ phase (snd (startGame sample_rnd 1 lobby7)) = policeElection.
Proof.
  destruct (startGame_opens_police_election sample_rnd 1 lobby2) as (Hfew & _).
  destruct (startGame_opens_police_election sample_rnd 0 lobby7) as (_ & Hgo).
  assert (H2 : JsMap.size (players lobby2) < 3) by (simpl; lia).
  assert (H7 : 3 <= JsMap.size (players lobby7)) by (simpl; lia).
  split; [exact H2|]. split; [exact (Hfew H2)|]. split; [exact H7|].
  destruct (Hgo H7 "human" ["ai_1"; "ai_2"; "ai_3"; "ai_4"; "ai_5"; "ai_6"]
              eq_refl) as (_ & Hph & _ & _ & _ & Hcur & _).
  split; [exact Hcur | exact Hph].
Defined.

(* ================================================================== *)
(** * Further properties of the orchestrator *)
(* ================================================================== *)

(** ** Steps that only narrate *)

Lemma narration_step_refl ok m : narration_step ok m m.
Proof.
  constructor; auto. exists []. now rewrite app_nil_r.
Qed.

Lemma narration_step_trans ok m1 m2 m3 :
  narration_step ok m1 m2 -> narration_step ok m2 m3 ->
  narration_step ok m1 m3.
Proof.
  intros [s1 p1 c1 (e1 & E1 & Q1)] [s2 p2 c2 (e2 & E2 & Q2)].
  constructor; try congruence.
  exists (e1 ++ e2). rewrite E2, E1, app_assoc. split; auto.
  rewrite forallb_app, Q1, Q2. reflexivity.
Qed.

Lemma narration_step_weaken (ok : WsMessage -> bool) m m' :
  narration_step ok m m' -> narration_step anything m m'.
Proof.
  intros [s1 p1 c1 (e1 & E1 & Q1)]. constructor; auto.
  exists e1. split; auto. clear. induction e1; simpl; auto.
Qed.

Lemma narrates_ret ok {A} (a : A) : narrates ok (ret a).
Proof. intros m c m' [= <- <-]. apply narration_step_refl. Qed.

Lemma narrates_throw ok {A} (e : Error) : narrates ok (@throw GameManager A e).
Proof. intros m c m' [= <- <-]. apply narration_step_refl. Qed.

Lemma narrates_gets ok {A} (f : GameManager -> A) : narrates ok (gets f).
Proof. intros m c m' [= <- <-]. apply narration_step_refl. Qed.

Lemma narrates_liftC ok {A} (c0 : Completion A) : narrates ok (liftC c0).
Proof. intros m c m' [= <- <-]. apply narration_step_refl. Qed.

Lemma narrates_name_of ok pid : narrates ok (name_of pid).
Proof.
  intros m c m'. unfold name_of.
  destruct (JsMap.get (players (state m)) pid); intros [= <- <-];
    apply narration_step_refl.
Qed.

Lemma narrates_bind ok {A B} (op : GM A) (k : A -> GM B) :
  narrates ok op -> (forall a, narrates ok (k a)) -> narrates ok (bind op k).
Proof.
  intros Hm Hf m c m'. unfold bind.
  destruct (op m) as [[a|e] m1] eqn:E; intros H.
  - eapply narration_step_trans; [eapply Hm, E | eapply Hf, H].
  - injection H as <- <-. eapply Hm, E.
Qed.

Lemma keys_map_values {A} (f : string * A -> A) (l : JsMap.t A) :
  JsMap.keys (map (fun e => (fst e, f e)) l) = JsMap.keys l.
Proof.
  unfold JsMap.keys. rewrite map_map. reflexivity.
Qed.

Lemma speak_cast E speaker message tp m :
  JsMap.keys (aiCharacters (snd (speak E speaker message tp m)))
  = JsMap.keys (aiCharacters m).
Proof.
  pose proof (speak_effects E speaker message tp m) as (_ & _ & _ & _ & _ & _ & _ & H).
  simpl in H. rewrite H. destruct (narration_delivered E message); auto.
  apply (keys_map_values (fun e => tell tp (speaker ++ ": " ++ message) (snd e))).
Qed.

Lemma narrates_speak_public E speaker message :
  narrates public (speak E speaker message None).
Proof.
  intros m c m' H. rewrite speak_normal in H. injection H as <- <-.
  constructor.
  - apply speak_state.
  - apply speak_potions.
  - apply speak_cast.
  - eexists. split; [apply (speak_effects E speaker message None m)|].
    reflexivity.
Qed.

Lemma narrates_speak E speaker message tp :
  narrates anything (speak E speaker message tp).
Proof.
  intros m c m' H. rewrite speak_normal in H. injection H as <- <-.
  constructor.
  - apply speak_state.
  - apply speak_potions.
  - apply speak_cast.
  - eexists. split; [apply (speak_effects E speaker message tp m)|].
    reflexivity.
Qed.

Lemma narrates_mapM ok {A B} (f : A -> GM B) (l : list A) :
  (forall x, narrates ok (f x)) -> narrates ok (mapM f l).
Proof.
  intros Hf. induction l as [|x r IH]; simpl; [apply narrates_ret|].
  apply narrates_bind; auto. intros y.
  apply narrates_bind; auto. intros ys. apply narrates_ret.
Qed.

Lemma new_messages_app m m' msgs :
  ws_sent m' = ws_sent m ++ msgs -> new_messages m m' = msgs.
Proof.
  intros H. unfold new_messages. rewrite H, skipn_app, skipn_all, Nat.sub_diag.
  reflexivity.
Qed.

Lemma narrates_revealRoles E todo : narrates public (revealRoles E todo).
Proof.
  induction todo as [|[pid p] rest IH]; simpl; [apply narrates_ret|].
  apply narrates_bind; [apply narrates_gets|]. intros role.
  apply narrates_bind; [apply narrates_speak_public|]. intros _. exact IH.
Qed.

Lemma narrates_handleGameEnded E w : narrates public (handleGameEnded E w).
Proof.
  unfold handleGameEnded.
  apply narrates_bind; [apply narrates_speak_public|]. intros _.
  apply narrates_bind; [apply narrates_gets|]. intros ps.
  apply narrates_revealRoles.
Qed.

Lemma narrates_handlePlayerEliminated E pid :
  narrates public (handlePlayerEliminated E pid).
Proof.
  unfold handlePlayerEliminated.
  apply narrates_bind; [apply narrates_gets|]. intros [p|]; [|apply narrates_ret].
  apply narrates_bind; [apply narrates_gets|]. intros role.
  apply narrates_speak_public.
Qed.

Lemma narrates_handleDayStarted E d : narrates public (handleDayStarted E d).
Proof.
  unfold handleDayStarted.
  apply narrates_bind; [apply narrates_speak_public|]. intros _.
  apply narrates_bind; [apply narrates_gets|]. intros dead.
  destruct (0 <? JsSet.size dead)%nat; [|apply narrates_speak_public].
  apply narrates_bind; [apply narrates_mapM; intros; apply narrates_name_of|].
  intros names. apply narrates_speak_public.
Qed.

Lemma narrates_handleNextSpeaker E P pid :
  narrates public (handleNextSpeaker E P pid).
Proof.
  unfold handleNextSpeaker.
  apply narrates_bind; [apply narrates_gets|]. intros [p|]; [|apply narrates_ret].
  destruct (isAI p); [|apply narrates_speak_public].
  apply narrates_bind; [apply narrates_gets|]. intros [ch|]; [|apply narrates_ret].
  apply narrates_bind; [apply narrates_liftC|]. intros response.
  apply narrates_speak_public.
Qed.

(** ** The hunter *)

(** [handlePlayerDied] never kills anybody.  When the dead player is on
    the roster, is the hunter and has an AI character, the handler fails
    with a TypeError ([map] is looked up on the Map of living players)
    before the hunter is asked; in every other case it returns at once.
    Either way the orchestrator, the game state included, is exactly as it
    was. *)
Theorem hunter_revenge_never_happens
  (E : Collaborators) (P : Speakers) (playerId : string) (m : GameManager) :
  snd (handlePlayerDied E P playerId m) = m
  /\ (JsMap.get (players (state m)) playerId <> None ->
      getPlayerRole (state m) playerId = Some hunter ->
      JsMap.get (aiCharacters m) playerId <> None ->
      fst (handlePlayerDied E P playerId m)
      = Throw (TypeError "livingPlayers.map is not a function"))
  /\ (JsMap.get (players (state m)) playerId = None
      \/ getPlayerRole (state m) playerId <> Some hunter
      \/ JsMap.get (aiCharacters m) playerId = None ->
      fst (handlePlayerDied E P playerId m) = Normal tt).
Proof.
  unfold handlePlayerDied. rewrite bind_gets.
  destruct (JsMap.get (players (state m)) playerId) as [p|] eqn:Hp.
  2:{ split; [reflexivity|]. split; [congruence | reflexivity]. }
  rewrite bind_gets.
  destruct (getPlayerRole (state m) playerId) as [[| | | |]|] eqn:Hr;
    cbn [is_role Role_eqb];
    try (split; [reflexivity|]; split; [congruence | reflexivity]).
  rewrite bind_gets.
  destruct (JsMap.get (aiCharacters m) playerId) as [ch|] eqn:Hc.
  - split; [reflexivity|]. split; [reflexivity|].
    intros [H|[H|H]]; congruence.
  - split; [reflexivity|]. split; [congruence | reflexivity].
Qed.

Lemma hunter_revenge_never_happens_witness :
  JsMap.get (players (state hunter_table)) "ai_5" <> None
  /\ getPlayerRole (state hunter_table) "ai_5" = Some hunter
  /\ JsMap.get (aiCharacters hunter_table) "ai_5" <> None
  /\ makeHunterKillDecision eager_speakers (snd (character "ai_5" hunter)) []
       (getGameContext hunter_table) = Normal (Some "human")
  /\ fst (handlePlayerDied eager eager_speakers "ai_5" hunter_table)
     = Throw (TypeError "livingPlayers.map is not a function")
  /\ isPlayerAlive
       (state (snd (handlePlayerDied eager eager_speakers "ai_5" hunter_table)))
       "human" = true.
Proof.
  destruct (hunter_revenge_never_happens eager eager_speakers "ai_5" hunter_table)
    as (Hsame & Hthrow & _).
  split; [discriminate|]. split; [reflexivity|]. split; [discriminate|].
  split; [reflexivity|].
  split; [apply Hthrow; [discriminate | reflexivity | discriminate]|].
  rewrite Hsame. reflexivity.
Defined.

(** ** Speaking turns *)

Lemma bind_liftC_normal {S A B} (a : A) (k : A -> St S B) (s : S) :
  bind (liftC (Normal a)) k s = k a s.
Proof. reflexivity. Qed.

Lemma speak_new_messages E speaker message tp m :
  new_messages m (snd (speak E speaker message tp m))
  = [speaker_info speaker (speaker_name (state m) speaker)
       (speaker_role (state m) speaker);
     game_log (speaker_name (state m) speaker) message (clock m)
       (match tp with Some _ => true | None => false end)].
Proof.
  apply new_messages_app. apply (speak_effects E speaker message tp m).
Qed.

Lemma narrates_public_messages {A} (op : GM A) m :
  narrates public op ->
  state (snd (op m)) = state m
  /\ forallb public (new_messages m (snd (op m))) = true.
Proof.
  intros H. destruct (op m) as [c m'] eqn:E.
  destruct (H _ _ _ E) as [Hs _ _ (msgs & Hm & Hq)]. simpl.
  split; [exact Hs|]. now rewrite (new_messages_app _ _ _ Hm).
Qed.

(** [handleNextSpeaker] never touches the game state: after an AI player
    has spoken the speaker queue and the current speaker are as before
    (only [handleHumanInput] moves the queue on).  What it sends is
    public.  An AI player with a character speaks its generated response
    under its own id, and the speaker_info that goes with it carries the
    player's role; a human player gets the moderator's prompt; for an id
    that is not on the roster nothing happens. *)
Theorem handleNextSpeaker_speaks_and_keeps_queue
  (E : Collaborators) (P : Speakers) (playerId : string) (m : GameManager) :
  let r := handleNextSpeaker E P playerId m in
  state (snd r) = state m
  /\ forallb public (new_messages m (snd r)) = true
  /\ (forall p ch response,
        JsMap.get (players (state m)) playerId = Some p ->
        isAI p = true ->
        JsMap.get (aiCharacters m) playerId = Some ch ->
        generateResponse P ch
          "It's your turn to speak. Share your thoughts about who might be a werewolf."
        = Normal response ->
        fst r = Normal tt
        /\ new_messages m (snd r)
           = [speaker_info playerId (speaker_name (state m) playerId)
                (speaker_role (state m) playerId);
              game_log (speaker_name (state m) playerId) response (clock m)
                false]
        /\ (playerId <> "Moderator" ->
            forall role, getPlayerRole (state m) playerId = Some role ->
            In (speaker_info playerId (Some (name p)) (Some (role_string role)))
              (new_messages m (snd r))))
  /\ (forall p,
        JsMap.get (players (state m)) playerId = Some p ->
        isAI p = false ->
        fst r = Normal tt
        /\ log_lines (new_messages m (snd r))
           = [("It's your turn to speak.", false)])
  /\ (JsMap.get (players (state m)) playerId = None -> r = (Normal tt, m)).
Proof.
  intros r.
  destruct (narrates_public_messages (handleNextSpeaker E P playerId) m
              (narrates_handleNextSpeaker E P playerId)) as [Hs Hpub].
  split; [exact Hs|]. split; [exact Hpub|].
  subst r. unfold handleNextSpeaker. rewrite bind_gets.
  split; [|split].
  - intros p ch response Hp Hai Hch Hresp.
    rewrite Hp, Hai, bind_gets, Hch, Hresp, bind_liftC_normal.
    rewrite speak_normal. cbn [fst snd].
    split; [reflexivity|]. rewrite speak_new_messages.
    split; [reflexivity|].
    intros Hmod role Hrole. left.
    unfold speaker_name, speaker_role.
    apply String.eqb_neq in Hmod. rewrite Hmod, Hp, Hrole. reflexivity.
  - intros p Hp Hai. rewrite Hp, Hai, speak_normal. cbn [fst snd].
    split; [reflexivity|]. rewrite speak_new_messages. reflexivity.
  - intros Hp. rewrite Hp. reflexivity.
Qed.

Lemma handleNextSpeaker_speaks_and_keeps_queue_witness :
  JsMap.get (players (state human_turn)) "ai_1"
  = Some (snd (seat "ai_1" true true))
  /\ JsMap.get (aiCharacters human_turn) "ai_1"
     = Some (snd (character "ai_1" werewolf))
  /\ In (speaker_info "ai_1" (Some "Player ai_1") (Some "werewolf"))
       (new_messages human_turn
          (snd (handleNextSpeaker eager eager_speakers "ai_1" human_turn)))
  /\ speakQueue (state (snd (handleNextSpeaker eager eager_speakers "ai_1" human_turn)))
     = ["ai_1"; "ai_2"].
Proof.
  destruct (handleNextSpeaker_speaks_and_keeps_queue eager eager_speakers
              "ai_1" human_turn) as (Hs & _ & Hai & _).
  destruct (Hai (snd (seat "ai_1" true true)) (snd (character "ai_1" werewolf))
              "I think ai_1 is a werewolf." eq_refl eq_refl eq_refl eq_refl)
    as (_ & _ & Hleak).
  split; [reflexivity|]. split; [reflexivity|].
  split; [apply (Hleak ltac:(discriminate) werewolf eq_refl)|].
  rewrite Hs. reflexivity.
Defined.

(** ** Public reveals *)

Lemma log_lines_app a b : log_lines (a ++ b) = log_lines a ++ log_lines b.
Proof. apply flat_map_app. Qed.

Lemma revealRoles_run E todo : forall m,
  exists m' msgs,
    revealRoles E todo m = (Normal tt, m')
    /\ state m' = state m
    /\ ws_sent m' = ws_sent m ++ msgs
    /\ length msgs = 2 * length todo
    /\ log_lines msgs = map (fun e => (reveal_line (state m) e, false)) todo.
Proof.
  induction todo as [|[pid p] rest IH]; intros m.
  - exists m, []. rewrite app_nil_r. repeat split; reflexivity.
  - simpl revealRoles. rewrite bind_gets, bind_speak.
    set (m1 := snd (speak E "Moderator" _ None m)).
    destruct (IH m1) as (m' & msgs & Hrun & Hs & Hw & Hl & Hlog).
    assert (Hs1 : state m1 = state m) by apply speak_state.
    exists m'. eexists. split; [exact Hrun|]. split; [congruence|].
    split.
    { rewrite Hw. subst m1. rewrite speak_moderator_sent, <- app_assoc.
      reflexivity. }
    split; [simpl length; lia|].
    simpl. rewrite Hlog, Hs1. reflexivity.
Qed.

(** The announcements of an elimination and of the end of the game are
    public and change nothing in the game.  [handlePlayerEliminated] says
    nothing for an id that is not on the roster and otherwise names the
    player and the role.  [handleGameEnded] never fails: it announces the
    winner and then reveals the role of every player of the roster, in
    roster order, two messages for each line. *)
Theorem eliminations_and_game_end_are_revealed_publicly
  (E : Collaborators) (m : GameManager) :
  (forall pid,
     JsMap.get (players (state m)) pid = None ->
     handlePlayerEliminated E pid m = (Normal tt, m))
  /\ (forall pid p,
        JsMap.get (players (state m)) pid = Some p ->
        let r := handlePlayerEliminated E pid m in
        fst r = Normal tt
        /\ state (snd r) = state m
        /\ log_lines (new_messages m (snd r))
           = [((name p ++ " has been eliminated. They were a "
                ++ role_text (getPlayerRole (state m) pid) ++ ".")%string,
               false)])
  /\ (forall w,
        let r := handleGameEnded E w m in
        fst r = Normal tt
        /\ state (snd r) = state m
        /\ forallb public (new_messages m (snd r)) = true
        /\ length (new_messages m (snd r))
           = 2 + 2 * JsMap.size (players (state m))
        /\ log_lines (new_messages m (snd r))
           = (("Game Over! The " ++ winner_text w ++ " have won!")%string, false)
             :: map (fun e => (reveal_line (state m) e, false))
                  (players (state m))).
Proof.
  split; [|split].
  - intros pid Hp. unfold handlePlayerEliminated. rewrite bind_gets, Hp.
    reflexivity.
  - intros pid p Hp r. subst r. unfold handlePlayerEliminated.
    rewrite bind_gets, Hp, bind_gets, speak_normal. cbn [fst snd].
    split; [reflexivity|]. split; [apply speak_state|].
    rewrite speak_new_messages. reflexivity.
  - intros w r.
    destruct (narrates_public_messages (handleGameEnded E w) m
                (narrates_handleGameEnded E w)) as [Hs Hpub].
    fold r in Hs, Hpub.
    subst r. unfold handleGameEnded in *. rewrite bind_speak, bind_gets in *.
    set (m1 := snd (speak E "Moderator" _ None m)) in *.
    assert (Hs1 : state m1 = state m) by apply speak_state.
    destruct (revealRoles_run E (JsMap.entries (players (state m1))) m1)
      as (m' & msgs & Hrun & _ & Hw & Hl & Hlog).
    rewrite Hrun in *. cbn [fst snd] in *.
    split; [reflexivity|]. split; [exact Hs|]. split; [exact Hpub|].
    assert (Hnew : new_messages m m'
                   = [speaker_info "Moderator" (Some "Moderator") (Some "Moderator");
                      game_log (Some "Moderator")
                        ("Game Over! The " ++ winner_text w ++ " have won!")%string
                        (clock m) false] ++ msgs).
    { apply new_messages_app. rewrite Hw. subst m1.
      rewrite speak_moderator_sent, <- app_assoc. reflexivity. }
    rewrite Hnew. split.
    + simpl. rewrite Hl, Hs1. unfold JsMap.entries, JsMap.size. lia.
    + rewrite log_lines_app, Hlog, Hs1. reflexivity.
Qed.

Lemma eliminations_and_game_end_are_revealed_publicly_witness :
  JsMap.get (players (state hunter_table)) "nobody" = None
  /\ handlePlayerEliminated eager "nobody" hunter_table = (Normal tt, hunter_table)
  /\ JsMap.get (players (state hunter_table)) "ai_5"
     = Some (snd (seat "ai_5" true false))
  /\ log_lines (new_messages hunter_table
                  (snd (handlePlayerEliminated eager "ai_5" hunter_table)))
     = [("Player ai_5 has been eliminated. They were a hunter.", false)].
Proof.
  destruct (eliminations_and_game_end_are_revealed_publicly eager hunter_table)
    as (Hno & Hyes & _).
  split; [reflexivity|]. split; [apply Hno; reflexivity|].
  split; [reflexivity|].
  destruct (Hyes "ai_5" (snd (seat "ai_5" true false)) eq_refl) as (_ & _ & H).
  exact H.
Defined.

(** ** The morning announcement *)

Lemma mapM_name_of_known dead : forall m names,
  map (fun pid => option_map name (JsMap.get (players (state m)) pid)) dead
  = map Some names ->
  mapM name_of dead m = (Normal names, m).
Proof.
  induction dead as [|pid rest IH]; intros m names H.
  - destruct names; [reflexivity | discriminate].
  - destruct names as [|n names]; [discriminate|].
    simpl in H. injection H as Hn Hrest.
    simpl mapM. unfold bind at 1. unfold name_of at 1.
    destruct (JsMap.get (players (state m)) pid) as [p|]; [|discriminate].
    simpl in Hn. injection Hn as <-.
    rewrite (bind_normal _ _ _ _ _ (IH m names Hrest)). reflexivity.
Qed.

Lemma mapM_name_of_missing dead : forall m pid,
  In pid dead ->
  JsMap.get (players (state m)) pid = None ->
  mapM name_of dead m
  = (Throw (TypeError "Cannot read properties of undefined (reading 'name')"), m).
Proof.
  induction dead as [|x rest IH]; intros m pid Hin Hnone; [destruct Hin|].
  simpl mapM. unfold bind at 1. unfold name_of at 1.
  destruct (JsMap.get (players (state m)) x) as [p|] eqn:Hx; [|reflexivity].
  destruct Hin as [->|Hin]; [congruence|].
  rewrite (bind_thrown _ _ _ _ _ (IH m pid Hin Hnone)). reflexivity.
Qed.

(** [handleDayStarted] changes nothing in the game and speaks publicly.
    After the opening line it names everybody in the death set, whenever
    they died: the death set is never emptied.  With an empty death set it
    says that no one died.  When somebody in the death set is no longer on
    the roster, it fails with a TypeError after the opening line. *)
Theorem handleDayStarted_names_the_whole_death_set
  (E : Collaborators) (d : nat) (m : GameManager) :
  let r := handleDayStarted E d m in
  let opening :=
    (("Day " ++ string_of_nat d ++ " has begun. Everyone open your eyes.")%string,
     false) in
  state (snd r) = state m
  /\ forallb public (new_messages m (snd r)) = true
  /\ (deadPlayers (state m) = [] ->
      fst r = Normal tt
      /\ log_lines (new_messages m (snd r))
         = [opening; ("No one died last night.", false)])
  /\ (forall names,
        deadPlayers (state m) <> [] ->
        map (fun pid => option_map name (JsMap.get (players (state m)) pid))
          (deadPlayers (state m))
        = map Some names ->
        fst r = Normal tt
        /\ log_lines (new_messages m (snd r))
           = [opening;
              (("Last night, " ++ String.concat ", " names
                ++ " were killed.")%string, false)])
  /\ (forall pid,
        In pid (deadPlayers (state m)) ->
        JsMap.get (players (state m)) pid = None ->
        fst r
        = Throw (TypeError "Cannot read properties of undefined (reading 'name')")
        /\ log_lines (new_messages m (snd r)) = [opening]).
Proof.
  intros r opening.
  destruct (narrates_public_messages (handleDayStarted E d) m
              (narrates_handleDayStarted E d)) as [Hs Hpub].
  split; [exact Hs|]. split; [exact Hpub|].
  subst r. unfold handleDayStarted. rewrite bind_speak, bind_gets.
  set (m1 := snd (speak E "Moderator" _ None m)).
  assert (Hs1 : state m1 = state m) by apply speak_state.
  assert (Hw1 : ws_sent m1
                = ws_sent m
                  ++ [speaker_info "Moderator" (Some "Moderator") (Some "Moderator");
                      game_log (Some "Moderator") (fst opening) (clock m) false])
    by apply speak_moderator_sent.
  rewrite Hs1.
  split; [|split].
  - intros Hdead. rewrite Hdead. simpl. rewrite speak_normal. cbn [fst snd].
    split; [reflexivity|].
    erewrite new_messages_app;
      [|rewrite speak_moderator_sent, Hw1, <- app_assoc; reflexivity].
    reflexivity.
  - intros names Hne Hnames.
    destruct (deadPlayers (state m)) as [|x rest] eqn:Hdead; [congruence|].
    cbn [JsSet.size length Nat.ltb Nat.leb].
    rewrite <- Hs1 in Hnames.
    rewrite (bind_normal _ _ _ _ _ (mapM_name_of_known _ m1 names Hnames)).
    rewrite speak_normal. cbn [fst snd]. split; [reflexivity|].
    erewrite new_messages_app;
      [|rewrite speak_moderator_sent, Hw1, <- app_assoc; reflexivity].
    reflexivity.
  - intros pid Hin Hnone.
    destruct (deadPlayers (state m)) as [|x rest] eqn:Hdead; [destruct Hin|].
    cbn [JsSet.size length Nat.ltb Nat.leb].
    rewrite <- Hs1 in Hnone.
    rewrite (bind_thrown _ _ _ _ _ (mapM_name_of_missing _ m1 pid Hin Hnone)).
    cbn [fst snd]. split; [reflexivity|].
    erewrite new_messages_app; [|exact Hw1]. reflexivity.
Qed.

Lemma handleDayStarted_names_the_whole_death_set_witness :
  deadPlayers (state morning_table) <> []
  /\ log_lines (new_messages morning_table
                  (snd (handleDayStarted eager 2 morning_table)))
     = [("Day 2 has begun. Everyone open your eyes.", false);
        ("Last night, Player ai_6 were killed.", false)]
  /\ In "ai_6" (deadPlayers (state morning_after_removal))
  /\ JsMap.get (players (state morning_after_removal)) "ai_6" = None
  /\ fst (handleDayStarted eager 2 morning_after_removal)
     = Throw (TypeError "Cannot read properties of undefined (reading 'name')").
Proof.
  destruct (handleDayStarted_names_the_whole_death_set eager 2 morning_table)
    as (_ & _ & _ & Hnames & _).
  destruct (handleDayStarted_names_the_whole_death_set eager 2
              morning_after_removal) as (_ & _ & _ & _ & Hmissing).
  assert (H1 : deadPlayers (state morning_table) <> []) by discriminate.
  assert (H2 : In "ai_6" (deadPlayers (state morning_after_removal)))
    by (simpl; tauto).
  assert (H3 : JsMap.get (players (state morning_after_removal)) "ai_6" = None)
    by reflexivity.
  split; [exact H1|].
  split; [apply (Hnames ["Player ai_6"] H1 eq_refl)|].
  split; [exact H2|]. split; [exact H3|].
  apply (Hmissing "ai_6" H2 H3).
Defined.

(** ** The start of the game *)

Lemma onManager_run {A} (op : GM A) (t : Table) :
  onManager op t = (fst (op (manager t)), set_manager (snd (op (manager t))) t).
Proof. unfold onManager. now destruct (op (manager t)). Qed.

Lemma bind_onManager_speak {B} E speaker message tp (k : unit -> TM B) t :
  bind (onManager (speak E speaker message tp)) k t
  = k tt (set_manager (snd (speak E speaker message tp (manager t))) t).
Proof.
  apply bind_normal. rewrite onManager_run, speak_normal. reflexivity.
Qed.

Lemma createAICharacter_run R pid role t :
  createAICharacter R pid role t
  = let ch := mkAICharacter pid ("Player " ++ pid) role
                (nth (random_index R (randomCalls t) (length personalities))
                   personalities "") [] [] in
    (Normal ch,
     mkTable
       ((if is_role witch role
         then set_witchPotions
                (JsMap.set (witchPotions (manager t)) pid (mkPotions true true))
         else fun m => m)
          (set_aiCharacters (JsMap.set (aiCharacters (manager t)) pid ch)
             (manager t)))
       (policeChief t) (S (randomCalls t))).
Proof.
  unfold createAICharacter, getRandomPersonality, next_draw.
  destruct (is_role witch role); reflexivity.
Qed.

Lemma is_ai_in_cons q p rest pid :
  is_ai_in ((q, p) :: rest) pid
  = orb (andb (String.eqb q pid) (isAI p)) (is_ai_in rest pid).
Proof. reflexivity. Qed.

Lemma createCharacters_run R todo : forall t,
  JsMap.wf (aiCharacters (manager t)) ->
  exists t',
    createCharacters R todo t = (Normal tt, t')
    /\ state (manager t') = state (manager t)
    /\ ws_sent (manager t') = ws_sent (manager t)
    /\ clock (manager t') = clock (manager t)
    /\ policeChief t' = policeChief t
    /\ randomCalls t'
       = randomCalls t + length (filter (fun e => isAI (snd e)) todo)
    /\ JsMap.wf (aiCharacters (manager t'))
    /\ (forall pid,
          is_ai_in todo pid = false ->
          JsMap.get (aiCharacters (manager t')) pid
          = JsMap.get (aiCharacters (manager t)) pid)
    /\ (forall pid,
          is_ai_in todo pid = true ->
          exists ch,
            JsMap.get (aiCharacters (manager t')) pid = Some ch
            /\ ai_id ch = pid
            /\ ai_name ch = ("Player " ++ pid)%string
            /\ ai_role ch = getPlayerRole (state (manager t)) pid
            /\ ai_context ch = []
            /\ In (ai_personality ch) personalities)
    /\ (forall pid,
          is_ai_witch_in (state (manager t)) todo pid = false ->
          JsMap.get (witchPotions (manager t')) pid
          = JsMap.get (witchPotions (manager t)) pid)
    /\ (forall pid,
          is_ai_witch_in (state (manager t)) todo pid = true ->
          JsMap.get (witchPotions (manager t')) pid = Some (mkPotions true true)).
Proof.
  induction todo as [|[q p] rest IH]; intros t Hwf.
  - exists t. simpl. rewrite Nat.add_0_r.
    repeat split; auto; intros; discriminate.
  - simpl createCharacters. destruct (isAI p) eqn:Hai.
    + set (role := getPlayerRole (state (manager t)) q).
      assert (Hstep : forall k : unit -> TM unit,
                bind (role0 <- gets (fun t0 => getPlayerRole (state (manager t0)) q) ;;
                      createAICharacter R q role0 ;; ret tt) k t
                = k tt (snd (createAICharacter R q role t))).
      { intros k. unfold bind, gets, ret. fold role.
        rewrite createAICharacter_run. reflexivity. }
      rewrite Hstep. clear Hstep. rewrite createAICharacter_run. cbv zeta.
      cbn [snd].
      set (ch := mkAICharacter q _ role _ [] []).
      set (t1 := mkTable _ (policeChief t) (S (randomCalls t))).
      assert (Hst1 : state (manager t1) = state (manager t))
        by (subst t1; simpl; destruct (is_role witch role); reflexivity).
      assert (Hcast1 : aiCharacters (manager t1)
                       = JsMap.set (aiCharacters (manager t)) q ch)
        by (subst t1; simpl; destruct (is_role witch role); reflexivity).
      assert (Hpot1 : witchPotions (manager t1)
                      = if is_role witch role
                        then JsMap.set (witchPotions (manager t)) q
                               (mkPotions true true)
                        else witchPotions (manager t))
        by (subst t1; simpl; destruct (is_role witch role); reflexivity).
      assert (Hws1 : ws_sent (manager t1) = ws_sent (manager t))
        by (subst t1; simpl; destruct (is_role witch role); reflexivity).
      assert (Hck1 : clock (manager t1) = clock (manager t))
        by (subst t1; simpl; destruct (is_role witch role); reflexivity).
      assert (Hwf1 : JsMap.wf (aiCharacters (manager t1)))
        by (rewrite Hcast1; now apply JsMapFacts.wf_set).
      destruct (IH t1 Hwf1)
        as (t' & Hrun & Hs & Hw & Hck & Hpc & Hrc & Hwf' & Hno & Hyes & Hpno & Hpyes).
      exists t'. split; [exact Hrun|]. split; [congruence|].
      split; [congruence|]. split; [congruence|]. split; [exact Hpc|].
      split; [rewrite Hrc; simpl; rewrite Hai; simpl; lia|].
      split; [exact Hwf'|].
      assert (Hin_pers : In (ai_personality ch) personalities).
      { subst ch. cbn [ai_personality]. apply nth_In.
        unfold random_index. simpl length. apply Nat.mod_upper_bound. lia. }
      split; [|split; [|split]].
      * intros pid Hpid. rewrite is_ai_in_cons, Hai, andb_true_r in Hpid.
        apply orb_false_iff in Hpid as [Hq Hrest].
        rewrite (Hno pid Hrest), Hcast1.
        apply JsMapFacts.get_set_other. now apply String.eqb_neq.
      * intros pid Hpid.
        destruct (is_ai_in rest pid) eqn:Hrest.
        { destruct (Hyes pid Hrest) as (c & Hc). exists c.
          rewrite <- Hst1. exact Hc. }
        rewrite is_ai_in_cons, Hai, andb_true_r, Hrest, orb_false_r in Hpid.
        apply String.eqb_eq in Hpid. subst pid.
        exists ch. rewrite (Hno q Hrest), Hcast1, JsMapFacts.get_set_same.
        repeat split; auto.
      * intros pid Hpid. simpl in Hpid. rewrite Hai, andb_true_r in Hpid.
        apply orb_false_iff in Hpid as [Hq Hrest].
        rewrite <- Hst1 in Hrest. rewrite (Hpno pid Hrest), Hpot1.
        fold role in Hq.
        destruct (is_role witch role); [|reflexivity].
        rewrite andb_true_r in Hq.
        apply JsMapFacts.get_set_other. now apply String.eqb_neq.
      * intros pid Hpid.
        destruct (is_ai_witch_in (state (manager t)) rest pid) eqn:Hrest.
        { rewrite <- Hst1 in Hrest. exact (Hpyes pid Hrest). }
        simpl in Hpid. fold (is_ai_witch_in (state (manager t)) rest pid) in Hpid.
        rewrite Hrest, orb_false_r, Hai, andb_true_r in Hpid.
        apply andb_prop in Hpid as [Hq Hwitch]. apply String.eqb_eq in Hq.
        subst pid. rewrite <- Hst1 in Hrest. rewrite (Hpno q Hrest), Hpot1.
        fold role in Hwitch. rewrite Hwitch. apply JsMapFacts.get_set_same.
    + rewrite bind_ret.
      destruct (IH t Hwf)
        as (t' & Hrun & Hs & Hw & Hck & Hpc & Hrc & Hwf' & Hno & Hyes & Hpno & Hpyes).
      exists t'. split; [exact Hrun|]. split; [exact Hs|].
      split; [exact Hw|]. split; [exact Hck|]. split; [exact Hpc|].
      split; [rewrite Hrc; simpl; rewrite Hai; reflexivity|].
      split; [exact Hwf'|].
      split; [|split; [|split]]; intros pid Hpid.
      * apply Hno. rewrite is_ai_in_cons, Hai, andb_false_r in Hpid. exact Hpid.
      * apply Hyes. rewrite is_ai_in_cons, Hai, andb_false_r in Hpid. exact Hpid.
      * apply Hpno. simpl in Hpid. rewrite Hai, andb_false_r in Hpid. exact Hpid.
      * apply Hpyes. simpl in Hpid. rewrite Hai, andb_false_r in Hpid. exact Hpid.
Qed.

Lemma speak_cast_entries E speaker message tp m k c' :
  In (k, c') (aiCharacters (snd (speak E speaker message tp m))) ->
  exists c,
    In (k, c) (aiCharacters m)
    /\ ai_id c' = ai_id c
    /\ (ai_context c' = ai_context c
        \/ (in_audience tp c = true
            /\ ai_context c' = ai_context c ++ [(speaker ++ ": " ++ message)%string])).
Proof.
  pose proof (speak_effects E speaker message tp m) as (_ & _ & _ & _ & _ & _ & _ & H).
  simpl in H. rewrite H. destruct (narration_delivered E message).
  - intros Hin. apply in_map_iff in Hin as ([k0 c] & Heq & Hin).
    simpl in Heq. injection Heq as -> <-. exists c. split; [exact Hin|].
    unfold tell. destruct (in_audience tp c); simpl; auto.
  - intros Hin. exists c'. auto.
Qed.

Lemma told_after_start_line E s entries m :
  told_only_own_role s entries (aiCharacters m) ->
  told_only_own_role s entries
    (aiCharacters (snd (speak E "Moderator" start_line None m))).
Proof.
  intros Hold k c' line Hin Hline.
  apply speak_cast_entries in Hin as (c & Hin & Hid & [Hctx|[_ Hctx]]).
  - rewrite Hid. rewrite Hctx in Hline. eauto.
  - rewrite Hid. rewrite Hctx in Hline.
    apply in_app_or in Hline as [Hline|[<-|[]]]; [eauto | now left].
Qed.

Lemma told_after_role_line E s entries m q p :
  In (q, p) entries ->
  told_only_own_role s entries (aiCharacters m) ->
  told_only_own_role s entries
    (aiCharacters
       (snd (speak E "Moderator" (role_line p (getPlayerRole s q)) (Some [q]) m))).
Proof.
  intros Hqp Hold k c' line Hin Hline.
  apply speak_cast_entries in Hin as (c & Hin & Hid & [Hctx|[Haud Hctx]]).
  - rewrite Hid. rewrite Hctx in Hline. eauto.
  - rewrite Hid. rewrite Hctx in Hline.
    apply in_app_or in Hline as [Hline|[<-|[]]]; [eauto|].
    right. simpl in Haud. rewrite orb_false_r in Haud.
    apply String.eqb_eq in Haud. rewrite Haud. exists p. auto.
Qed.

Lemma tellRoles_run E entries todo : forall m,
  incl todo entries ->
  told_only_own_role (state m) entries (aiCharacters m) ->
  exists m' msgs,
    tellRoles E todo m = (Normal tt, m')
    /\ state m' = state m
    /\ witchPotions m' = witchPotions m
    /\ (forall k, JsMap.get (aiCharacters m') k = None
                  <-> JsMap.get (aiCharacters m) k = None)
    /\ ws_sent m' = ws_sent m ++ msgs
    /\ log_lines msgs
       = map (fun e => (role_line (snd e) (getPlayerRole (state m) (fst e)), true))
           todo
    /\ told_only_own_role (state m) entries (aiCharacters m').
Proof.
  induction todo as [|[q p] rest IH]; intros m Hincl Htold.
  - exists m, []. rewrite app_nil_r. repeat split; auto.
  - simpl tellRoles. rewrite bind_gets, bind_speak.
    set (m1 := snd (speak E "Moderator" _ (Some [q]) m)).
    assert (Hs1 : state m1 = state m) by apply speak_state.
    assert (Htold1 : told_only_own_role (state m1) entries (aiCharacters m1)).
    { rewrite Hs1. apply told_after_role_line; auto.
      apply Hincl. now left. }
    destruct (IH m1 (fun e He => Hincl e (or_intror He)) Htold1)
      as (m' & msgs & Hrun & Hs & Hp & Hk & Hw & Hlog & Htold').
    exists m'. eexists. split; [exact Hrun|]. split; [congruence|].
    split; [rewrite Hp; apply speak_potions|].
    split; [intros k; rewrite Hk; apply speak_keeps_characters|].
    split.
    { rewrite Hw. subst m1. rewrite speak_moderator_sent, <- app_assoc.
      reflexivity. }
    split; [simpl; rewrite Hlog, Hs1; reflexivity|].
    now rewrite <- Hs1.
Qed.

(** [handleGameStarted] on a new orchestrator never fails and leaves the
    game state alone.  It creates an AI character for exactly the AI
    players of the roster and a pair of unused potions for exactly the AI
    players whose role is witch, so a human player has neither.  It sends
    the connection the public opening line and then, flagged private, the
    role line of every player of the roster, whoever is connected;
    whereas the context buffer of an AI character receives the opening
    line and at most its own role line. *)
Theorem handleGameStarted_casts_and_tells_roles
  (E : Collaborators) (R : RandomSource) (t : Table) :
  aiCharacters (manager t) = [] ->
  witchPotions (manager t) = [] ->
  let s := state (manager t) in
  let r := handleGameStarted E R t in
  let m' := manager (snd r) in
  fst r = Normal tt
  /\ state m' = s
  /\ policeChief (snd r) = policeChief t
  /\ (forall pid,
        JsMap.get (aiCharacters m') pid <> None
        <-> is_ai_in (players s) pid = true)
  /\ (forall pid,
        JsMap.get (witchPotions m') pid
        = if is_ai_witch_in s (players s) pid
          then Some (mkPotions true true) else None)
  /\ log_lines (new_messages (manager t) m')
     = (start_line, false)
       :: map (fun e => (role_line (snd e) (getPlayerRole s (fst e)), true))
            (players s)
  /\ told_only_own_role s (players s) (aiCharacters m').
Proof.
  intros Hcast Hpot s r m'. subst m' r.
  unfold handleGameStarted. rewrite bind_gets.
  assert (Hwf : JsMap.wf (aiCharacters (manager t)))
    by (rewrite Hcast; constructor).
  destruct (createCharacters_run R (JsMap.entries (players s)) t Hwf)
    as (t1 & Hrun1 & Hs1 & Hw1 & Hck1 & Hpc1 & _ & Hwf1 & Hno & Hyes & Hpno & Hpyes).
  rewrite (bind_normal _ _ _ _ _ Hrun1), bind_onManager_speak, bind_gets.
  fold start_line.
  set (m2 := snd (speak E "Moderator" start_line None (manager t1))).
  assert (Hs2 : state m2 = s) by (subst m2; rewrite speak_state; exact Hs1).
  assert (Htold1 : told_only_own_role s (players s) (aiCharacters (manager t1))).
  { intros k c line Hin Hline. exfalso.
    pose proof (JsMapFacts.in_get _ _ _ Hwf1 Hin) as Hget.
    destruct (is_ai_in (JsMap.entries (players s)) k) eqn:Hk.
    - destruct (Hyes k Hk) as (ch & Hch & _ & _ & _ & Hctx & _).
      rewrite Hget in Hch. injection Hch as ->. rewrite Hctx in Hline.
      destruct Hline.
    - rewrite (Hno k Hk), Hcast in Hget. discriminate. }
  assert (Htold2 : told_only_own_role (state m2) (players s) (aiCharacters m2)).
  { rewrite Hs2. subst m2. now apply told_after_start_line. }
  cbn [manager set_manager]. rewrite Hs2.
  destruct (tellRoles_run E (players s) (JsMap.entries (players s)) m2
              (fun e He => He) Htold2)
    as (m3 & msgs & Hrun3 & Hs3 & Hp3 & Hk3 & Hw3 & Hlog3 & Htold3).
  rewrite onManager_run. cbn [manager set_manager]. rewrite Hrun3.
  cbn [fst snd manager set_manager policeChief].
  split; [reflexivity|]. split; [congruence|]. split; [exact Hpc1|].
  split; [|split; [|split]].
  - intros pid. rewrite Hk3. subst m2. rewrite speak_keeps_characters.
    destruct (is_ai_in (players s) pid) eqn:Hk.
    + destruct (Hyes pid Hk) as (ch & Hch & _). rewrite Hch.
      split; [reflexivity | discriminate].
    + rewrite (Hno pid Hk), Hcast. simpl. split; [congruence | discriminate].
  - intros pid. rewrite Hp3. subst m2. rewrite speak_potions.
    destruct (is_ai_witch_in s (players s) pid) eqn:Hk.
    + now apply Hpyes.
    + rewrite (Hpno pid Hk), Hpot. reflexivity.
  - erewrite new_messages_app;
      [|rewrite Hw3; subst m2; rewrite speak_moderator_sent, Hw1, <- app_assoc;
        reflexivity].
    simpl. rewrite Hlog3, Hs2. reflexivity.
  - rewrite Hs2 in Htold3. exact Htold3.
Qed.

Lemma handleGameStarted_casts_and_tells_roles_witness :
  aiCharacters (manager (new_table started7)) = []
  /\ witchPotions (manager (new_table started7)) = []
  /\ fst (handleGameStarted eager sample_random (new_table started7)) = Normal tt
  /\ JsMap.get
       (aiCharacters
          (manager (snd (handleGameStarted eager sample_random
                           (new_table started7)))))
       "human" = None
  /\ length
       (log_lines
          (new_messages (manager (new_table started7))
             (manager (snd (handleGameStarted eager sample_random
                              (new_table started7))))))
     = 8.
Proof.
  destruct (handleGameStarted_casts_and_tells_roles eager sample_random
              (new_table started7) eq_refl eq_refl)
    as (Hn & _ & _ & Hcast & _ & Hlog & _).
  split; [reflexivity|]. split; [reflexivity|]. split; [exact Hn|].
  split.
  - destruct (JsMap.get _ "human") eqn:E; [|reflexivity].
    exfalso.
    assert (Hne : JsMap.get
              (aiCharacters
                 (manager (snd (handleGameStarted eager sample_random
                                  (new_table started7))))) "human" <> None)
      by (rewrite E; discriminate).
    apply Hcast in Hne. vm_compute in Hne. discriminate.
  - rewrite Hlog. reflexivity.
Defined.

(** ** Seating the players *)



Lemma GameManager_startGame_run rnd depth h (m : GameManager) :
  GameManager_startGame rnd depth h m
  = (fst (startGame rnd depth
            (snd (addAIPlayers (Nat.max 4 (7 - 1)) 0
                    (snd (addPlayer h false (Some "Human Player") (state m)))))),
     set_state
       (snd (startGame rnd depth
               (snd (addAIPlayers (Nat.max 4 (7 - 1)) 0
                       (snd (addPlayer h false (Some "Human Player")
                               (state m)))))))
       m).
Proof.
  unfold GameManager_startGame, bind. rewrite onState_run.
  change (fst (addPlayer h false (Some "Human Player") (state m)))
    with (@Normal unit tt).
  cbv iota. rewrite onState_run.
  cbn [state set_state].
  change (fst (addAIPlayers (Nat.max 4 (7 - 1)) 0
                 (snd (addPlayer h false (Some "Human Player") (state m)))))
    with (@Normal unit tt).
  cbv iota. rewrite onState_run. cbn [state set_state].
  destruct m; reflexivity.
Qed.



(** When the human player's id is one of [ai_1] ... [ai_6], the AI player
    of that name takes the human player's seat: six players are seated,
    every one an AI, so no turn is ever left to the human player. *)
Theorem GameManager_startGame_id_clash
  (rnd : nat -> nat) (depth : nat) (humanPlayerId : string) (m : GameManager) :
  state m = newGameState ->
  In humanPlayerId ai_ids ->
  let s' := state (snd (GameManager_startGame rnd (S depth) humanPlayerId m)) in
  fst (GameManager_startGame rnd (S depth) humanPlayerId m) = Normal tt
  /\ JsMap.size (players s') = 6
  /\ (forall pid p, In (pid, p) (players s') -> isAI p = true)
  /\ currentSpeaker s' = Some humanPlayerId
  /\ census werewolf s' = 2
  /\ census hunter s' = 0.
Proof.
  intros Hnew Hin s'. subst s'. rewrite GameManager_startGame_run, Hnew.
  set (s0 := snd (addAIPlayers (Nat.max 4 (7 - 1)) 0
                    (snd (addPlayer humanPlayerId false (Some "Human Player")
                            newGameState)))).
  assert (Hfacts : JsMap.wf (players s0)
                   /\ JsMap.size (players s0) = 6
                   /\ (forall pid p, In (pid, p) (players s0) -> isAI p = true)
                   /\ exists rest, livingIds s0 = humanPlayerId :: rest).
  { subst s0. unfold ai_ids in Hin. simpl in Hin.
    repeat (destruct Hin as [<-|Hin];
            [split; [apply distinct_NoDup; reflexivity|];
             split; [reflexivity|];
             split; [|eexists; reflexivity];
             intros pid p Hp; cbn in Hp;
             repeat (destruct Hp as [Hp|Hp]; [injection Hp as <- <-; reflexivity|]);
             destruct Hp|]).
    destruct Hin. }
  destruct Hfacts as (Hwf & Hsize & Hai & rest & Hliving).
  assert (Hrun := startGame_run rnd depth s0 humanPlayerId rest
                    ltac:(lia) Hliving).
  rewrite Hrun. cbn [fst snd state set_state].
  split; [reflexivity|]. split; [exact Hsize|]. split; [exact Hai|].
  split; [reflexivity|].
  assert (Hcensus : forall r0,
            census r0
              (set_emitted
                 (emitted s0 ++ [gameStarted_ev; policeElectionStarted;
                                 nextSpeaker humanPlayerId])
                 (set_currentSpeaker (Some humanPlayerId)
                    (set_speakQueue rest
                       (set_phase policeElection
                          (set_isNight false
                             (set_currentDay 1
                                (set_roles (roles (snd (assignRoles rnd s0)))
                                   (set_gameStarted true s0))))))))
            = Z.to_nat (role_count r0 6)).
  { intros r0. transitivity (census r0 (snd (assignRoles rnd s0))).
    - rewrite assignRoles_run. reflexivity.
    - rewrite (census_after_assignRoles rnd s0 r0 Hwf), Hsize. reflexivity. }
  rewrite !Hcensus. split; reflexivity.
Qed.

Lemma GameManager_startGame_id_clash_witness :
  state new_manager = newGameState
  /\ In "ai_3" ai_ids
  /\ JsMap.size
       (players (state (snd (GameManager_startGame sample_rnd 1 "ai_3"
                               new_manager)))) = 6.
Proof.
  assert (H : In "ai_3" ai_ids) by (unfold ai_ids; simpl; tauto).
  destruct (GameManager_startGame_id_clash sample_rnd 0 "ai_3" new_manager
              eq_refl H) as (_ & Hs & _).
  split; [reflexivity|]. split; [exact H | exact Hs].
Defined.

(** ** The police election *)

Lemma in_set_entries {V} (m : JsMap.t V) k v e :
  In e (JsMap.set m k v) -> e = (k, v) \/ In e m.
Proof.
  induction m as [|[k' v'] m IH]; simpl.
  - intros [<-|[]]. now left.
  - destruct (String.eqb_spec k' k) as [->|Hne]; simpl.
    + intros [<-|H]; auto.
    + intros [<-|H]; auto. destruct (IH H); auto.
Qed.

Lemma set_not_empty {V} (m : JsMap.t V) k v : JsMap.set m k v <> [].
Proof.
  destruct m as [|[k' v'] m]; simpl; [discriminate|].
  destruct (String.eqb k' k); discriminate.
Qed.

Lemma in_keys_get {V} (m : JsMap.t V) k :
  In k (JsMap.keys m) -> exists v, JsMap.get m k = Some v /\ In (k, v) m.
Proof.
  intros H. destruct (JsMap.get m k) as [v|] eqn:E.
  - exists v. split; [reflexivity|]. now apply JsMapFacts.get_some_in.
  - apply JsMapFacts.get_none_iff in E. contradiction.
Qed.

Lemma bind_next_draw {B} (k : nat -> TM B) (t : Table) :
  bind next_draw k t = k (randomCalls t) (set_randomCalls (S (randomCalls t)) t).
Proof. reflexivity. Qed.

Lemma speak_step_public E message (t : Table) :
  narration_step public (manager t)
    (manager (set_manager (snd (speak E "Moderator" message None (manager t))) t)).
Proof.
  simpl. apply (narrates_speak_public E "Moderator" message (manager t) (Normal tt)).
  apply speak_normal.
Qed.

Lemma collectNominations_run E R todo : forall nominations t,
  exists nominations' t',
    collectNominations E R todo nominations t = (Normal nominations', t')
    /\ narration_step public (manager t) (manager t')
    /\ policeChief t' = policeChief t
    /\ (forall e, In e nominations' ->
          In e nominations \/ (In e todo /\ isAI (snd e) = true))
    /\ (nominations <> [] -> nominations' <> []).
Proof.
  induction todo as [|[playerId player] rest IH]; intros nominations t.
  - exists nominations, t. simpl. split; [reflexivity|].
    split; [apply narration_step_refl|]. split; [reflexivity|].
    split; [now left | auto].
  - simpl. destruct (isAI player) eqn:Hai.
    + rewrite bind_next_draw.
      destruct (above_half R (randomCalls t)).
      * rewrite bind_onManager_speak.
        match goal with
        | |- context [collectNominations E R rest ?n ?t1] =>
            destruct (IH n t1) as (n' & t' & Hrun & Hstep & Hchief & Hin & Hne)
        end.
        exists n', t'. split; [exact Hrun|].
        split.
        { eapply narration_step_trans; [|exact Hstep].
          apply (speak_step_public E _ (set_randomCalls _ t)). }
        split; [rewrite Hchief; reflexivity|].
        split.
        { intros e He. destruct (Hin e He) as [H|[H H']].
          - apply in_set_entries in H as [->|H]; [|now left].
            right. split; [now left | exact Hai].
          - right. split; [now right | exact H']. }
        intros _. apply Hne. apply set_not_empty.
      * rewrite bind_onManager_speak.
        match goal with
        | |- context [collectNominations E R rest ?n ?t1] =>
            destruct (IH n t1) as (n' & t' & Hrun & Hstep & Hchief & Hin & Hne)
        end.
        exists n', t'. split; [exact Hrun|].
        split.
        { eapply narration_step_trans; [|exact Hstep].
          apply (speak_step_public E _ (set_randomCalls _ t)). }
        split; [rewrite Hchief; reflexivity|].
        split; [|exact Hne].
        intros e He. destruct (Hin e He) as [H|[H H']]; [now left|].
        right. split; [now right | exact H'].
    + rewrite bind_onManager_speak.
      match goal with
      | |- context [collectNominations E R rest ?n ?t1] =>
          destruct (IH n t1) as (n' & t' & Hrun & Hstep & Hchief & Hin & Hne)
      end.
      exists n', t'. split; [exact Hrun|].
      split.
      { eapply narration_step_trans; [|exact Hstep].
        apply (speak_step_public E _ t). }
      split; [rewrite Hchief; reflexivity|].
      split; [|exact Hne].
      intros e He. destruct (Hin e He) as [H|[H H']]; [now left|].
      right. split; [now right | exact H'].
Qed.

Lemma random_index_bound R k n : 0 < n -> random_index R k n < n.
Proof.
  intros H. unfold random_index. destruct n; [lia|].
  apply Nat.mod_upper_bound. lia.
Qed.

Lemma collectChiefVotes_run E R nominations todo :
  nominations <> [] ->
  forall vs t,
  exists vs' t',
    collectChiefVotes E R nominations todo vs t = (Normal vs', t')
    /\ narration_step public (manager t) (manager t')
    /\ policeChief t' = policeChief t
    /\ (forall e, In e vs' -> In e vs \/ In (snd e) (JsMap.keys nominations))
    /\ (vs <> [] \/ (exists e, In e todo /\ isAI (snd e) = true) -> vs' <> []).
Proof.
  intros Hnom. induction todo as [|[voterId voter] rest IH]; intros vs t.
  - exists vs, t. simpl. split; [reflexivity|].
    split; [apply narration_step_refl|]. split; [reflexivity|].
    split; [now left|].
    intros [H|(e & [] & _)]. exact H.
  - simpl. destruct (isAI voter) eqn:Hai.
    + rewrite bind_next_draw. unfold JsMap.entries.
      destruct (nth_error nominations
                  (random_index R (randomCalls t) (length nominations)))
        as [randomNominee|] eqn:Hnth.
      * rewrite bind_onManager_speak.
        match goal with
        | |- context [collectChiefVotes E R nominations rest ?v ?t1] =>
            destruct (IH v t1) as (vs' & t' & Hrun & Hstep & Hchief & Hin & Hne)
        end.
        exists vs', t'. split; [exact Hrun|].
        split.
        { eapply narration_step_trans; [|exact Hstep].
          apply (speak_step_public E _ (set_randomCalls _ t)). }
        split; [rewrite Hchief; reflexivity|].
        split.
        { intros e He. destruct (Hin e He) as [H|H]; [|now right].
          apply in_set_entries in H as [->|H]; [|now left].
          right. simpl. apply in_map. eapply nth_error_In. exact Hnth. }
        intros _. apply Hne. left. apply set_not_empty.
      * exfalso. apply nth_error_None in Hnth.
        assert (0 < length nominations)
          by (destruct nominations; [congruence | simpl; lia]).
        pose proof (random_index_bound R (randomCalls t) (length nominations)).
        lia.
    + rewrite bind_onManager_speak.
      match goal with
      | |- context [collectChiefVotes E R nominations rest ?v ?t1] =>
          destruct (IH v t1) as (vs' & t' & Hrun & Hstep & Hchief & Hin & Hne)
      end.
      exists vs', t'. split; [exact Hrun|].
      split.
      { eapply narration_step_trans; [|exact Hstep].
        apply (speak_step_public E _ t). }
      split; [rewrite Hchief; reflexivity|].
      split; [exact Hin|].
      intros [H|(e & [He|He] & He')].
      * apply Hne. now left.
      * subst e. simpl in He'. congruence.
      * apply Hne. right. eauto.
Qed.

(** The police election, [processPoliceNominations], with at least one
    living player: it returns normally and stores a living player's id in
    [policeChief]; only living AI players are ever nominees (the answer a
    human player is asked for is not read), and when there is a nominee the
    chief is one of them, so a human player becomes chief only by the
    random draw made when nobody is nominated.  The game state, whose own
    field [police] is the one declared, is left as it was, and every line
    sent is public. *)
Theorem police_election_elects_a_living_player
  (E : Collaborators) (R : RandomSource) (t : Table) :
  livingEntries (state (manager t)) <> [] ->
  exists nominations t',
    fst (collectNominations E R (livingEntries (state (manager t)))
           JsMap.empty t) = Normal nominations
    /\ processPoliceNominations E R t = (Normal tt, t')
    /\ (forall e, In e nominations ->
          In e (livingEntries (state (manager t))) /\ isAI (snd e) = true)
    /\ (exists c p,
          policeChief t' = Some c
          /\ In (c, p) (livingEntries (state (manager t)))
          /\ (nominations <> [] -> In c (JsMap.keys nominations)))
    /\ narration_step public (manager t) (manager t').
Proof.
  intros Hliving. unfold processPoliceNominations. rewrite bind_gets.
  set (living := livingEntries (state (manager t))) in *.
  destruct (collectNominations_run E R living JsMap.empty t)
    as (noms & t1 & Hrun & Hstep1 & Hchief1 & Hin & _).
  assert (Hnoms : forall e, In e noms -> In e living /\ isAI (snd e) = true).
  { intros e He. destruct (Hin e He) as [[]|H]. exact H. }
  exists noms. rewrite (bind_normal _ _ _ _ _ Hrun). rewrite Hrun.
  unfold JsMap.size, JsMap.entries.
  destruct noms as [|[nomineeId nominee] [|second more]]; cbn [length Nat.eqb].
  - (* nobody nominated: a random living player *)
    rewrite bind_next_draw.
    destruct (nth_error living
                (random_index R (randomCalls t1) (length living)))
      as [[c p]|] eqn:Hnth.
    + rewrite bind_modify.
      eexists. split; [reflexivity|].
      split; [rewrite onManager_run, speak_normal; reflexivity|].
      split; [exact Hnoms|]. split.
      * exists c, p. split; [reflexivity|].
        split; [eapply nth_error_In; exact Hnth | congruence].
      * eapply narration_step_trans; [exact Hstep1|].
        apply (speak_step_public E _
                 (set_policeChief (Some c) (set_randomCalls _ t1))).
    + exfalso. apply nth_error_None in Hnth.
      assert (0 < length living)
        by (destruct living; [congruence | simpl; lia]).
      pose proof (random_index_bound R (randomCalls t1) (length living)).
      lia.
  - (* one nominee *)
    rewrite bind_modify.
    eexists. split; [reflexivity|].
    split; [rewrite onManager_run, speak_normal; reflexivity|].
    split; [exact Hnoms|]. split.
    + exists nomineeId, nominee. split; [reflexivity|].
      split; [apply Hnoms; now left | intros _; now left].
    + eapply narration_step_trans; [exact Hstep1|].
      apply (speak_step_public E _ (set_policeChief (Some nomineeId) t1)).
  - (* a vote among the nominees *)
    set (noms := (nomineeId, nominee) :: second :: more) in *.
    rewrite bind_onManager_speak.
    match goal with
    | |- context [bind (collectChiefVotes E R noms living ?v) _ ?t2] =>
        destruct (collectChiefVotes_run E R noms living
                    ltac:(discriminate) v t2)
          as (vs & t3 & Hvotes & Hstep3 & Hchief3 & Hvs & Hne);
        pose proof (speak_step_public E
                      "Multiple players have nominated themselves. We will now hold a vote."
                      t1) as Hstep2
    end.
    rewrite (bind_normal _ _ _ _ _ Hvotes).
    assert (Hvoter : vs <> []).
    { apply Hne. right. exists (nomineeId, nominee).
      apply Hnoms. now left. }
    destruct (mostVoted_winner vs Hvoter) as (w & Hw & _).
    destruct (mostVoted_names_target vs w Hw) as (v & Hv).
    assert (Hwnom : In w (JsMap.keys noms)).
    { destruct (Hvs _ Hv) as [[]|H]. exact H. }
    assert (Hwliving : In w (JsMap.keys living)).
    { unfold JsMap.keys in *. apply in_map_iff in Hwnom as ([w' p] & <- & Hp).
      apply in_map. now apply Hnoms. }
    destruct (in_keys_get living w Hwliving) as (p & Hget & Hp).
    cbv zeta. rewrite Hw, bind_modify, Hget.
    eexists. split; [reflexivity|].
    split; [rewrite onManager_run, speak_normal; reflexivity|].
    split; [exact Hnoms|]. split.
    + exists w, p. split; [reflexivity|]. split; [exact Hp | auto].
    + eapply narration_step_trans; [exact Hstep1|].
      eapply narration_step_trans; [exact Hstep2|].
      eapply narration_step_trans; [exact Hstep3|].
      apply (speak_step_public E _ (set_policeChief (Some w) t3)).
Qed.

Lemma police_election_elects_a_living_player_witness :
  livingEntries (state (manager (new_table started7))) <> []
  /\ exists c p,
       policeChief (snd (processPoliceNominations eager sample_random
                           (new_table started7))) = Some c
       /\ In (c, p) (livingEntries (state (manager (new_table started7)))).
Proof.
  assert (H : livingEntries (state (manager (new_table started7))) <> [])
    by discriminate.
  destruct (police_election_elects_a_living_player eager sample_random
              (new_table started7) H)
    as (noms & t' & _ & Hrun & _ & (c & p & Hc & Hp & _) & _).
  split; [exact H|]. exists c, p. rewrite Hrun. split; [exact Hc | exact Hp].
Defined.
